(** * NBA data scraping pipeline: name normalisation, matching, cleaning,
      storage and the retrying fetcher

    A shallow embedding of the Python sources
      - add_chinese_names.py   (primary normaliser, Name Map, name matching)
      - data_merger.py         (secondary normaliser, salary merge)
      - data_cleaner.py        (percentage parsing, de-duplication)
      - storage.py             (CSV persistence)
      - nba_crawler/request_handler.py (retrying GET)

    A Python [str] is a sequence of Unicode code points; it is modelled as
    [list N].  The Unicode database consulted by [unicodedata.normalize],
    [str.lower] and the regular expression class [\d] is an interface
    ([Unicode]); what the proofs need from it is its behaviour on ASCII. *)

From Stdlib Require Import ZArith NArith List Bool Lia String Ascii Floats Sorted.
From stdpp Require Import base option list gmap.

Local Open Scope N_scope.

(** ** Strings *)

Definition pystr := list N.

(** The code points of an ASCII literal. *)
Definition str (s : string) : pystr :=
  List.map N_of_ascii (list_ascii_of_string s).

Definition is_ascii (c : N) : bool := c <? 128.
Definition is_upper (c : N) : bool := (65 <=? c) && (c <=? 90).
Definition is_lower (c : N) : bool := (97 <=? c) && (c <=? 122).
Definition is_ascii_digit (c : N) : bool := (48 <=? c) && (c <=? 57).

(** [str.isspace] on one code point; the same set is matched by [\s] in a
    [str] pattern and used as separator by [str.split()] without argument. *)
Definition is_space (c : N) : bool :=
  ((9 <=? c) && (c <=? 13)) || ((28 <=? c) && (c <=? 32))
  || (c =? 133) || (c =? 160) || (c =? 5760)
  || ((8192 <=? c) && (c <=? 8202))
  || (c =? 8232) || (c =? 8233) || (c =? 8239) || (c =? 8287) || (c =? 12288).

(** ASCII punctuation, and the combining marks a canonical decomposition
    separates from a base letter. *)
Definition is_punct (c : N) : bool :=
  ((33 <=? c) && (c <=? 47)) || ((58 <=? c) && (c <=? 64))
  || ((91 <=? c) && (c <=? 96)) || ((123 <=? c) && (c <=? 126)).

Definition is_mark (c : N) : bool :=
  ((768 <=? c) && (c <=? 879)) || ((6832 <=? c) && (c <=? 6911))
  || ((7616 <=? c) && (c <=? 7679)) || ((8400 <=? c) && (c <=? 8447))
  || ((65056 <=? c) && (c <=? 65071)).

Definition ascii_lower (c : N) : N := if is_upper c then c + 32 else c.

(** The part of the Unicode database the sources consult. *)
Class Unicode := {
  nfd : pystr -> pystr;          (* unicodedata.normalize('NFD', s) *)
  str_lower : pystr -> pystr;    (* s.lower() *)
  is_decimal : N -> bool;        (* the class \d of a str pattern *)
}.

Class UnicodeLaws (U : Unicode) : Prop := {
  nfd_ascii : forall s, forallb is_ascii s = true -> nfd s = s;
  str_lower_ascii :
    forall s, forallb is_ascii s = true -> str_lower s = List.map ascii_lower s;
  is_decimal_ascii :
    forall c, is_ascii c = true -> is_decimal c = is_ascii_digit c;
}.

(** [s.encode('ascii', 'ignore').decode('utf-8')] *)
Definition encode_ascii_ignore (s : pystr) : pystr := List.filter is_ascii s.

(** [re.sub(r'[^a-z\s]', '', s)] *)
Definition keep_letters_spaces (s : pystr) : pystr :=
  List.filter (fun c => is_lower c || is_space c) s.

(** [re.sub(r'\d+', '', s)] *)
Definition remove_digits {U : Unicode} (s : pystr) : pystr :=
  List.filter (fun c => negb (is_decimal c)) s.

(** [s.split()]: the maximal runs of non-whitespace, in order. *)
Definition push_word (w : pystr) (ws : list pystr) : list pystr :=
  match w with [] => ws | _ => w :: ws end.

Fixpoint split_go (s : pystr) : pystr * list pystr :=
  match s with
  | [] => ([], [])
  | c :: s' =>
      let (w, ws) := split_go s' in
      if is_space c then ([], push_word w ws) else (c :: w, ws)
  end.

Definition split (s : pystr) : list pystr :=
  let (w, ws) := split_go s in push_word w ws.

(** [' '.join(ws)] *)
Fixpoint join (ws : list pystr) : pystr :=
  match ws with
  | [] => []
  | [w] => w
  | w :: ws' => w ++ 32 :: join ws'
  end.

(** [s.strip()] *)
Fixpoint lstrip (s : pystr) : pystr :=
  match s with
  | [] => []
  | c :: s' => if is_space c then lstrip s' else s
  end.

Definition strip (s : pystr) : pystr := rev (lstrip (rev (lstrip s))).

(** [s.replace(old, new)] for one-character [old] and [new]. *)
Definition replace_char (old new : N) (s : pystr) : pystr :=
  List.map (fun c => if c =? old then new else c) s.

(** [s.replace(c, '')] *)
Definition remove_char (old : N) (s : pystr) : pystr :=
  List.filter (fun c => negb (c =? old)) s.

(** ** Values held in a table cell or passed as a name

    [PNone] is Python's [None], [NaN] the float used by pandas for a missing
    value, [Str] a text cell and [Num] a number. *)
Inductive cell :=
  | PNone
  | NaN
  | Str (s : pystr)
  | Num (x : float).

(** [pd.isna(v)] on a scalar. *)
Definition isna (v : cell) : bool :=
  match v with
  | PNone | NaN => true
  | Str _ => false
  | Num x => PrimFloat.is_nan x
  end.

(** Python's [repr] of a float, consulted by [str(v)] on a number. *)
Class FloatText := {
  float_repr : float -> pystr;            (* str(x) for a float x *)
  py_float : pystr -> option float;       (* float(s); None is ValueError *)
}.

(** [not v] *)
Definition falsy (v : cell) : bool :=
  match v with
  | PNone => true
  | NaN => false
  | Str s => match s with [] => true | _ => false end
  | Num x => PrimFloat.eqb x 0
  end.

(** [str(v)] *)
Definition py_str {F : FloatText} (v : cell) : pystr :=
  match v with
  | PNone => str "None"
  | NaN => str "nan"
  | Str s => s
  | Num x => float_repr x
  end.

(** ** add_chinese_names.py: normalize_name *)

Definition normalize_name {U : Unicode} {F : FloatText} (name : cell) : pystr :=
  if falsy name || isna name then []
  else
    let name := py_str name in
    let name := nfd name in
    let name := encode_ascii_ignore name in
    let name := str_lower name in
    let name := keep_letters_spaces name in
    join (split name).

(** ** data_merger.py: normalize_name *)

Definition merger_normalize_name {U : Unicode} {F : FloatText} (name : cell) : pystr :=
  if falsy name then []
  else
    let name := remove_digits (py_str name) in
    let name := str_lower name in
    let name := keep_letters_spaces name in
    join (split name).

(** ** add_chinese_names.py: the Name Map

    The Name Map is a Python [dict] from normalised key to the pair
    (localised name, original English name); only lookups and assignments
    are made, so it is a finite map. *)

Definition nonempty (s : pystr) : bool :=
  match s with [] => false | _ => true end.

(** crawl_hupu_stats_names, the body run for one table row once the link
    matched: [slug] is [match.group(1)]. *)
Definition hupu_add_row {U : Unicode} {F : FloatText}
    (name_mapping : gmap pystr (pystr * pystr)) (cn_name slug : pystr)
    : gmap pystr (pystr * pystr) :=
  let eng_name_slug := replace_char 45 32 slug in
  let normalized := normalize_name (Str eng_name_slug) in
  if nonempty normalized
  then <[normalized := (cn_name, eng_name_slug)]> name_mapping
  else name_mapping.

(** One entry of the [players] list of the official JSON document; a field
    is [None] when the key is absent. *)
Record player := {
  displayNameEn : option pystr;
  displayName : option pystr;
}.

(** What one season's request produced: a response with its status code and
    the [players] list of its payload, or an exception. *)
Inductive season_reply :=
  | Reply (status_code : Z) (players : list player)
  | Failure.

Definition add_player {U : Unicode} {F : FloatText}
    (name_map : gmap pystr (pystr * pystr)) (p : player)
    : gmap pystr (pystr * pystr) :=
  match displayNameEn p, displayName p with
  | Some name_en, Some name_cn =>
      if nonempty name_en && nonempty name_cn then
        let normalized_en := normalize_name (Str name_en) in
        if nonempty normalized_en
        then <[normalized_en := (name_cn, name_en)]> name_map
        else name_map
      else name_map
  | _, _ => name_map
  end.

Definition add_season {U : Unicode} {F : FloatText}
    (name_map : gmap pystr (pystr * pystr)) (r : season_reply)
    : gmap pystr (pystr * pystr) :=
  match r with
  | Reply 200 players => foldl add_player name_map players
  | _ => name_map
  end.

(** fetch_nba_china_names: [replies] are the seasons' results in the order
    the loop requests them (current year first). *)
Definition fetch_nba_china_names {U : Unicode} {F : FloatText}
    (replies : list season_reply) : gmap pystr (pystr * pystr) :=
  foldl add_season ∅ replies.

Definition manual_dict : list (pystr * pystr) :=
  [
    (str "adam flagler", [20122; 24403; 45; 24343; 25289; 26684; 21202]);
    (str "chris paul", [20811; 37324; 26031; 45; 20445; 32599]);
    (str "ben simmons", [26412; 45; 35199; 33945; 26031]);
    (str "zaccharie risacher", [25166; 21345; 37324; 45; 37324; 33832; 35874]);
    (str "alex sarr", [20122; 21382; 20811; 26031; 45; 33832; 23572]);
    (str "reed sheppard", [37324; 24503; 45; 35874; 24085; 24503]);
    (str "stephon castle", [26031; 33922; 33452; 45; 21345; 26031; 23572]);
    (str "ron holland ii", [40857; 45; 38669; 20848]);
    (str "tidjane salaun", [33922; 36158; 23612; 45; 33832; 38534]);
    (str "donovan clingan", [22810; 35834; 19975; 45; 20811; 26519; 26681]);
    (str "rob dillingham", [32599; 20271; 45; 36842; 26519; 21380; 22982]);
    (str "zach edey", [25166; 20811; 45; 20234; 36842]);
    (str "cody williams", [31185; 36842; 45; 23041; 24265; 22982; 26031]);
    (str "matas buzelis", [39532; 22612; 26031; 45; 24067; 27901; 21033; 26031]);
    (str "nikola topic", [23612; 21476; 25289; 45; 25176; 30382; 22855]);
    (str "devin carter", [24503; 25991; 45; 21345; 29305]);
    (str "bub carrington", [24052; 24067; 45; 21345; 26519; 39039]);
    (str "kel'el ware", [20975; 23572; 45; 38886; 23572]);
    (str "jared mccain", [36158; 37324; 24503; 45; 40614; 20975; 24681]);
    (str "dalton knecht", [36947; 23572; 39039; 45; 20811; 20869; 20811; 29305]);
    (str "tristan da silva", [29305; 37324; 26031; 22374; 45; 36798; 45; 24109; 23572; 29926]);
    (str "ja'kobe walter", [36158; 31185; 27604; 45; 27779; 23572; 29305]);
    (str "jaylon tyson", [26480; 20262; 45; 27888; 26862]);
    (str "yves missi", [20234; 22827; 45; 31859; 35199]);
    (str "johnny furphy", [32422; 32752; 23612; 45; 24343; 33778]);
    (str "kyshawn george", [20975; 32918; 24681; 45; 20052; 27835]);
    (str "dillon jones", [29380; 40857; 45; 29756; 26031]);
    (str "terrence shannon jr.", [29305; 20262; 26031; 45; 39321; 20892]);
    (str "ryan dunn", [29790; 23433; 45; 37011; 24681]);
    (str "isaiah collier", [20197; 36187; 20122; 45; 31185; 21033; 23572]);
    (str "baylor scheierman", [36125; 21202; 45; 35874; 23572; 26364]);
    (str "aj johnson", [65; 74; 45; 32422; 32752; 36874]);
    (str "bronny james", [24067; 26391; 23612; 45; 35449; 22982; 26031]);
    (str "adem bona", [38463; 24503; 22982; 45; 21338; 32435]);
    (str "cam christie", [21345; 22982; 45; 20811; 37324; 26031; 33922]);
    (str "antonio reeves", [23433; 19996; 23612; 22885; 45; 37324; 22827; 26031]);
    (str "kevin mccullar jr.", [20975; 25991; 45; 40614; 21345; 21202]);
    (str "jamal shead", [36158; 39532; 23572; 45; 24076; 24503]);
    (str "kj simpson", [75; 74; 45; 36763; 26222; 26862]);
    (str "bobbi klintman", [21338; 27604; 45; 20811; 26519; 29305; 26364]);
    (str "bobi klintman", [21338; 27604; 45; 20811; 26519; 29305; 26364]);
    (str "cam spencer", [21345; 22982; 45; 26031; 28504; 22622]);
    (str "kyle filipowski", [20975; 23572; 45; 33778; 21033; 27874; 22827; 26031; 22522]);
    (str "harrison ingram", [21704; 37324; 26862; 45; 33521; 26684; 25289; 22982]);
    (str "osiris eldridges", [22885; 35199; 37324; 26031; 45; 22467; 23572; 24503; 37324; 22855]);
    (str "ariel hukporti", [38463; 37324; 23572; 45; 32993; 20811; 27874; 23572; 33922]);
    (str "armel traore", [38463; 26757; 23572; 45; 29305; 25289; 22885; 38647]);
    (str "christian koloko", [20811; 37324; 26031; 33922; 23433; 45; 31185; 27931; 31185]);
    (str "brandon boston", [24067; 20848; 30331; 45; 27874; 22763; 39039]);
    (str "cui cui", [23828; 27704; 29081]);
    (str "guerschon yabusele", [30422; 23572; 38596; 45; 20122; 24067; 22622; 33713]);
    (str "d'angelo russell", [20025; 21513; 27931; 45; 25289; 22622; 23572]);
    (str "elfrid payton", [22467; 23572; 24343; 37324; 24503; 45; 20329; 39039]);
    (str "cory joseph", [31185; 37324; 45; 32422; 29791; 22827]);
    (str "alex ducas", [20122; 21382; 20811; 26031; 45; 26460; 21345; 26031]);
    (str "alex reese", [20122; 21382; 20811; 26031; 45; 37324; 26031]);
    (str "anton watson", [23433; 19996; 45; 27779; 26862]);
    (str "branden carlson", [24067; 20848; 30331; 45; 21345; 23572; 26862]);
    (str "isaac jones", [33406; 33832; 20811; 45; 29756; 26031]);
    (str "kj martin", [32943; 25196; 45; 39532; 19969; 20108; 19990]);
    (str "kenny lofton jr.", [32943; 23612; 45; 27931; 22827; 39039]);
    (str "kenneth lofton jr.", [32943; 23612; 45; 27931; 22827; 39039]);
    (str "gg jackson", [71; 71; 45; 26480; 20811; 36874]);
    (str "gg jackson ii", [71; 71; 45; 26480; 20811; 36874]);
    (str "g.g. jackson", [71; 71; 45; 26480; 20811; 36874]);
    (str "vince williams jr.", [25991; 26031; 45; 23041; 24265; 22982; 26031]);
    (str "scotty pippen jr.", [26031; 31185; 33922; 45; 30382; 34028; 20108; 19990]);
    (str "gregory jackson ii", [71; 71; 45; 26480; 20811; 36874]);
    (str "trayce jackson-davis", [29305; 38647; 26031; 45; 26480; 20811; 36874; 45; 25140; 32500; 26031]);
    (str "brandin podziemski", [24067; 20848; 19969; 45; 27874; 26480; 22982; 26031; 22522]);
    (str "cam whitmore", [21345; 22982; 45; 24800; 29305; 25705; 23572]);
    (str "ausar thompson", [22885; 33832; 23572; 45; 27748; 26222; 26862]);
    (str "amen thompson", [38463; 38376; 45; 27748; 26222; 26862]);
    (str "keyonte george", [22522; 25196; 29305; 45; 20052; 27835]);
    (str "jordan hawkins", [20052; 20025; 45; 38669; 37329; 26031]);
    (str "bilal coulibaly", [27604; 25289; 23572; 45; 24211; 21033; 24052; 21033]);
    (str "jarace walker", [36158; 38647; 26031; 45; 27779; 20811]);
    (str "taylor hendricks", [27888; 21202; 45; 20136; 24503; 37324; 20811; 26031]);
    (str "anthony black", [23433; 19996; 23612; 45; 24067; 33713; 20811]);
    (str "dereck lively ii", [24503; 38647; 20811; 45; 33713; 22827; 21033; 20108; 19990]);
    (str "gradey dick", [26684; 38647; 36842; 45; 36842; 20811]);
    (str "jett howard", [26480; 29305; 45; 38669; 21326; 24503]);
    (str "cason wallace", [21345; 26862; 45; 21326; 33713; 22763]);
    (str "kobe bufkin", [31185; 27604; 45; 24052; 22827; 37329]);
    (str "olivier-maxence prosper", [22885; 21033; 32500; 32822; 45; 39532; 20811; 26705; 26031; 45; 26222; 32599; 26031; 29632])
  ].

Definition add_manual {U : Unicode} {F : FloatText}
    (name_map : gmap pystr (pystr * pystr)) (entry : pystr * pystr)
    : gmap pystr (pystr * pystr) :=
  let '(en, cn) := entry in
  let norm_en := normalize_name (Str en) in
  match name_map !! norm_en with
  | None => if nonempty norm_en then <[norm_en := (cn, en)]> name_map
            else name_map
  | Some _ => name_map
  end.

(** The loop of load_player_names_mapping over a manual table. *)
Definition load_manual {U : Unicode} {F : FloatText}
    (name_map : gmap pystr (pystr * pystr)) (table : list (pystr * pystr))
    : gmap pystr (pystr * pystr) :=
  foldl add_manual name_map table.

Definition load_player_names_mapping {U : Unicode} {F : FloatText}
    (replies : list season_reply) : gmap pystr (pystr * pystr) :=
  load_manual (fetch_nba_china_names replies) manual_dict.

(** add_chinese_names_to_nba_stats, the matching loop: [players] is the
    PLAYER_NAME column; the result is the new column and the match count. *)
Definition match_step {U : Unicode} {F : FloatText}
    (name_mapping : gmap pystr (pystr * pystr))
    (acc : list pystr * nat) (player_name : cell) : list pystr * nat :=
  let normalized := normalize_name player_name in
  match name_mapping !! normalized with
  | Some (chinese_name, _) => (acc.1 ++ [chinese_name], S acc.2)
  | None => (acc.1 ++ [[]], acc.2)
  end.

Definition match_chinese_names {U : Unicode} {F : FloatText}
    (name_mapping : gmap pystr (pystr * pystr)) (players : list cell)
    : list pystr * nat :=
  foldl (match_step name_mapping) ([], 0%nat) players.

(** ** Tables

    A pandas DataFrame: a row count and the columns in order, each a label
    with its values.  Where a column is shorter than [nrows] the missing
    values read as NaN. *)
Record DataFrame := {
  nrows : nat;
  cols : list (pystr * list cell);
}.

(** [pd.DataFrame()] *)
Definition empty_frame : DataFrame := {| nrows := 0; cols := [] |}.

Definition columns (df : DataFrame) : list pystr := List.map fst (cols df).

(** [label in df.columns] *)
Definition has_column (label : pystr) (df : DataFrame) : bool :=
  bool_decide (label ∈ columns df).

(** [df[label]] *)
Fixpoint assoc_get (label : pystr) (l : list (pystr * list cell))
    : option (list cell) :=
  match l with
  | [] => None
  | (k, v) :: l' => if decide (k = label) then Some v else assoc_get label l'
  end.

Definition get_column (label : pystr) (df : DataFrame) : option (list cell) :=
  assoc_get label (cols df).

(** [df[label] = values]: an existing column is replaced where it stands, a
    new one is added last. *)
Fixpoint assoc_set (label : pystr) (values : list cell)
    (l : list (pystr * list cell)) : list (pystr * list cell) :=
  match l with
  | [] => [(label, values)]
  | (k, v) :: l' =>
      if decide (k = label) then (k, values) :: l'
      else (k, v) :: assoc_set label values l'
  end.

Definition set_column (label : pystr) (values : list cell) (df : DataFrame)
    : DataFrame :=
  {| nrows := nrows df; cols := assoc_set label values (cols df) |}.

(** [df.drop(columns=[label], errors="ignore")] *)
Definition drop_column (label : pystr) (df : DataFrame) : DataFrame :=
  {| nrows := nrows df;
     cols := List.filter (fun c => negb (bool_decide (fst c = label))) (cols df) |}.

(** [df.empty] *)
Definition frame_empty (df : DataFrame) : bool :=
  match nrows df, cols df with
  | O, _ => true
  | _, [] => true
  | _, _ => false
  end.

(** Row [i] as [iterrows] yields it, and [row.get(label, default)]. *)
Definition row_at (df : DataFrame) (i : nat) : list (pystr * cell) :=
  List.map (fun c => (fst c, nth i (snd c) NaN)) (cols df).

Fixpoint row_get (label : pystr) (default : cell) (row : list (pystr * cell))
    : cell :=
  match row with
  | [] => default
  | (k, v) :: row' => if decide (k = label) then v else row_get label default row'
  end.

Definition iterrows (df : DataFrame) : list (list (pystr * cell)) :=
  List.map (row_at df) (seq 0 (nrows df)).

(** ** Python dicts whose iteration order matters

    [d[k] = v] keeps the position of a key already present and adds a new
    key last; iteration follows that order. *)
Fixpoint dict_get (k : pystr) (d : list (pystr * cell)) : option cell :=
  match d with
  | [] => None
  | (k', v) :: d' => if decide (k' = k) then Some v else dict_get k d'
  end.

Fixpoint dict_set (k : pystr) (v : cell) (d : list (pystr * cell))
    : list (pystr * cell) :=
  match d with
  | [] => [(k, v)]
  | (k', v') :: d' =>
      if decide (k' = k) then (k', v) :: d' else (k', v') :: dict_set k v d'
  end.

(** ** data_merger.py: merge_roster_with_salary *)

Definition L_english : pystr := [33521; 25991; 21517].   (* 英文名 *)
Definition L_salary : pystr := [34218; 36164].           (* 薪资 *)
Definition L_match_name : pystr := str "_match_name".
Definition L_Name : pystr := str "Name".
Definition L_Salary : pystr := str "Salary".

(** The loop that fills [salary_map] from the rows of the secondary table. *)
Definition salary_map_step (salary_map : list (pystr * cell))
    (row : list (pystr * cell)) : list (pystr * cell) :=
  let match_name := row_get L_match_name (Str []) row in
  let salary := row_get L_Salary (Str []) row in
  if negb (falsy match_name) && negb (falsy salary) then
    match match_name with
    | Str k => dict_set k salary salary_map
    | _ => salary_map
    end
  else salary_map.

Definition build_salary_map (espn_df : DataFrame) : list (pystr * cell) :=
  foldl salary_map_step [] (iterrows espn_df).

(** [s.split()[-1] if s.split() else ""] and [s.split()[0][0] if s.split()
    else ""] *)
Definition last_word (s : pystr) : pystr := List.last (split s) [].

Definition first_initial (s : pystr) : pystr :=
  match split s with
  | [] => []
  | w :: _ => firstn 1 w
  end.

(** The partial-match loop of find_salary over the items of [salary_map]. *)
Fixpoint partial_match (norm_name : pystr) (items : list (pystr * cell))
    : cell :=
  match items with
  | [] => Str []
  | (espn_name, salary) :: items' =>
      let hupu_last := last_word norm_name in
      let espn_last := last_word espn_name in
      if nonempty hupu_last && nonempty espn_last
         && bool_decide (hupu_last = espn_last) then
        let hupu_first := first_initial norm_name in
        let espn_first := first_initial espn_name in
        if bool_decide (hupu_first = espn_first) then salary
        else partial_match norm_name items'
      else partial_match norm_name items'
  end.

Definition find_salary {U : Unicode} {F : FloatText}
    (salary_map : list (pystr * cell)) (english_name : cell) : cell :=
  let norm_name := merger_normalize_name english_name in
  match dict_get norm_name salary_map with
  | Some salary => salary
  | None => partial_match norm_name salary_map
  end.

(** The call returns a frame and leaves both arguments modified in place;
    [hupu_after] and [espn_after] are the arguments as the caller sees them
    afterwards. *)
Record merge_result := {
  returned : DataFrame;
  hupu_after : DataFrame;
  espn_after : DataFrame;
}.

Definition merge_roster_with_salary {U : Unicode} {F : FloatText}
    (hupu_df espn_df : DataFrame) : merge_result :=
  match get_column L_english hupu_df with
  | None =>
      {| returned := hupu_df; hupu_after := hupu_df; espn_after := espn_df |}
  | Some english =>
      let hupu_df :=
        set_column L_match_name
          (List.map (fun v => Str (merger_normalize_name v)) english) hupu_df in
      match get_column L_Name espn_df with
      | None =>
          {| returned := hupu_df; hupu_after := hupu_df; espn_after := espn_df |}
      | Some names =>
          let espn_df :=
            set_column L_match_name
              (List.map (fun v => Str (merger_normalize_name v)) names) espn_df in
          let salary_map := build_salary_map espn_df in
          let hupu_df :=
            set_column L_salary
              (List.map (find_salary salary_map) english) hupu_df in
          {| returned := drop_column L_match_name hupu_df;
             hupu_after := hupu_df;
             espn_after := espn_df |}
      end
  end.

(** ** Record sets handed over by the parsers

    A record is a Python dict from field label to text, in insertion
    order. *)
Definition record := list (pystr * pystr).

Fixpoint record_get (label : pystr) (r : record) : option pystr :=
  match r with
  | [] => None
  | (k, v) :: r' => if decide (k = label) then Some v else record_get label r'
  end.

(** Labels in order of first appearance. *)
Fixpoint first_seen (seen l : list pystr) : list pystr :=
  match l with
  | [] => []
  | x :: l' =>
      if bool_decide (x ∈ seen) then first_seen seen l'
      else x :: first_seen (x :: seen) l'
  end.

(** [pd.DataFrame(data)] for a list of dicts: a field a record lacks is
    missing (NaN) in its row. *)
Definition from_records (data : list record) : DataFrame :=
  let labels := first_seen [] (concat (List.map (List.map fst) data)) in
  {| nrows := length data;
     cols := List.map (fun label =>
               (label,
                List.map (fun r => match record_get label r with
                                   | Some v => Str v
                                   | None => NaN
                                   end) data)) labels |}.

(** The values of row [i], column by column. *)
Definition row_values (df : DataFrame) (i : nat) : list cell :=
  List.map (fun c => nth i (snd c) NaN) (cols df).

Definition frame_rows (df : DataFrame) : list (list cell) :=
  List.map (row_values df) (seq 0 (nrows df)).

(** [df.iloc[idx]]: the rows at the positions [idx], in that order. *)
Definition take_rows (idx : list nat) (df : DataFrame) : DataFrame :=
  {| nrows := length idx;
     cols := List.map
               (fun c => (fst c, List.map (fun i => nth i (snd c) NaN) idx))
               (cols df) |}.

(** [df.dropna(how="all")] *)
Definition dropna_all (df : DataFrame) : DataFrame :=
  take_rows
    (List.filter (fun i => negb (forallb isna (row_values df i)))
                 (seq 0 (nrows df)))
    df.

(** Equality of two values as [duplicated] sees it: missing values are
    alike, texts are compared as texts, numbers as floats. *)
Definition cell_eqb (a b : cell) : bool :=
  match a, b with
  | Str s, Str t => bool_decide (s = t)
  | Num x, Num y =>
      (PrimFloat.is_nan x && PrimFloat.is_nan y) || PrimFloat.eqb x y
  | Str _, _ | _, Str _ => false
  | _, _ => isna a && isna b
  end.

Fixpoint row_eqb (r1 r2 : list cell) : bool :=
  match r1, r2 with
  | [], [] => true
  | a :: r1', b :: r2' => cell_eqb a b && row_eqb r1' r2'
  | _, _ => false
  end.

(** The positions [~df.duplicated(keep="first")] marks: a row is kept unless
    a row kept before has the same key.  [keys] are the keys of the rows
    from position [i] on, [seen] the keys kept so far. *)
Fixpoint first_rows (seen keys : list (list cell)) (i : nat) : list nat :=
  match keys with
  | [] => []
  | k :: keys' =>
      if existsb (row_eqb k) seen then first_rows seen keys' (S i)
      else i :: first_rows (k :: seen) keys' (S i)
  end.

(** [df.drop_duplicates()] *)
Definition drop_duplicates (df : DataFrame) : DataFrame :=
  take_rows (first_rows [] (frame_rows df) 0) df.

(** [df.drop_duplicates(subset=[label])]: an empty frame is returned as it
    is, before the subset is looked at; [None] is the KeyError pandas raises
    when a frame that is not empty has no such column. *)
Definition drop_duplicates_subset (label : pystr) (df : DataFrame)
    : option DataFrame :=
  if frame_empty df then Some df
  else
    match get_column label df with
    | None => None
    | Some vs =>
        Some (take_rows (first_rows [] (List.map (fun v => [v]) vs) 0) df)
    end.

(** [df[label] = f(df[label])] guarded by [if label in df.columns]. *)
Definition update_column (label : pystr) (f : list cell -> list cell)
    (df : DataFrame) : DataFrame :=
  match get_column label df with
  | Some vs => set_column label (f vs) df
  | None => df
  end.

(** One value under [.str.strip()] *)
Definition str_strip (v : cell) : cell :=
  match v with
  | Str s => Str (strip s)
  | PNone => PNone
  | _ => NaN
  end.

(** ** data_cleaner.py *)

Definition L_player : pystr := [29699; 21592].            (* 球员 *)
Definition L_pct : pystr := [21629; 20013; 29575].        (* 命中率 *)
Definition L_rank : pystr := [25490; 21517].              (* 排名 *)
Definition L_games : pystr := [22330; 27425].             (* 场次 *)
Definition L_minutes : pystr := [26102; 38388].           (* 时间 *)
Definition L_points : pystr := [24471; 20998].            (* 得分 *)
Definition L_offreb : pystr := [21069; 22330].            (* 前场 *)
Definition L_defreb : pystr := [21518; 22330].            (* 后场 *)
Definition L_totreb : pystr := [24635; 31726; 26495].     (* 总篮板 *)
Definition L_assists : pystr := [21161; 25915].           (* 助攻 *)
Definition L_made : pystr := [21629; 20013].              (* 命中 *)
Definition L_attempts : pystr := [20986; 25163].          (* 出手 *)
Definition L_blocks : pystr := [30422; 24125].            (* 盖帽 *)
Definition L_steals : pystr := [25250; 26029].            (* 抢断 *)

(** DataCleaner._parse_percentage; [None] is Python's [None]. *)
Definition _parse_percentage {F : FloatText} (value : cell) : option float :=
  if isna value then None
  else
    let value := strip (py_str value) in
    if bool_decide (37 ∈ value) then
      py_float (remove_char 37 value)
    else
      match py_float value with
      | Some num =>
          if PrimFloat.leb num 1 then Some (PrimFloat.mul num 100)
          else Some num
      | None => None
      end.

(** The value pandas stores in a column of floats for a float or None. *)
Definition stored (r : option float) : cell :=
  match r with
  | Some x => if PrimFloat.is_nan x then NaN else Num x
  | None => NaN
  end.

(** [col.apply(self._parse_percentage)]: the results make a column of
    floats, a None among them stored as NaN; when every result is None the
    column keeps them as None. *)
Definition apply_parse_percentage {F : FloatText} (col : list cell)
    : list cell :=
  let results := List.map _parse_percentage col in
  if forallb (fun r => match r with None => true | Some _ => false end) results
  then List.map (fun _ => PNone) results
  else List.map stored results.

(** The numeric conversions of pandas the cleaner calls on a column. *)
Class PandasNumeric := {
  (* pd.to_numeric(col, errors="coerce") *)
  to_numeric : list cell -> list cell;
  (* col.astype("Int64"); None is the TypeError of an unsafe cast *)
  astype_Int64 : list cell -> option (list cell);
}.

Definition numeric_columns (category : pystr) : list pystr :=
  if bool_decide (category = str "pts") then [L_games; L_minutes; L_points]
  else if bool_decide (category = str "reb")
       then [L_games; L_offreb; L_defreb; L_totreb]
  else if bool_decide (category = str "asts")
       then [L_games; L_minutes; L_assists]
  else if bool_decide (category = str "fgp") then [L_games; L_made; L_attempts]
  else if bool_decide (category = str "tpp") then [L_games; L_made; L_attempts]
  else if bool_decide (category = str "ftp") then [L_games; L_made; L_attempts]
  else if bool_decide (category = str "blk")
       then [L_games; L_minutes; L_blocks]
  else if bool_decide (category = str "stl")
       then [L_games; L_minutes; L_steals]
  else [].

(** The rank column made integer; [None] when the cast raises. *)
Definition rank_to_Int64 {P : PandasNumeric} (df : DataFrame) : option DataFrame :=
  match get_column L_rank df with
  | None => Some df
  | Some vs =>
      match astype_Int64 (to_numeric vs) with
      | Some vs' => Some (set_column L_rank vs' df)
      | None => None
      end
  end.

Definition clean_player_stats {F : FloatText} {P : PandasNumeric}
    (data : list record) (category : pystr) : option DataFrame :=
  match data with
  | [] => Some empty_frame
  | _ =>
      let df := from_records data in
      let df := dropna_all df in
      let df :=
        foldl (fun df col => update_column col to_numeric df) df
              (numeric_columns category) in
      let df :=
        update_column L_pct apply_parse_percentage df in
      match rank_to_Int64 df with
      | Some df => Some (drop_duplicates df)
      | None => None
      end
  end.

Definition clean_roster (data : list record) : option DataFrame :=
  match data with
  | [] => Some empty_frame
  | _ =>
      let df := from_records data in
      let df := dropna_all df in
      let df := update_column L_player (List.map str_strip) df in
      let df := update_column L_english (List.map str_strip) df in
      drop_duplicates_subset L_player df
  end.

(** ** storage.py: CSVStorage.save

    The file system is a finite map from path to file content.  Writing a
    frame as CSV is left to pandas ([to_csv]): it yields the file system
    after the call and whether the call returned (true) or raised. *)
Inductive save_data :=
  | DataList (l : list record)
  | DataTable (df : DataFrame)
  | DataOther.

Inductive save_outcome :=
  | Returned (path : option pystr)
  | RaisedValueError.

Class CsvWriter := {
  to_csv : DataFrame -> pystr -> forall (append header : bool),
           gmap pystr (list N) -> gmap pystr (list N) * bool;
}.

(** [os.path.join(a, b)] *)
Definition path_join (a b : pystr) : pystr :=
  match b with
  | 47 :: _ => b
  | _ =>
      match List.last a 47 with
      | 47 => a ++ b
      | _ => a ++ 47 :: b
      end
  end.

Definition save {W : CsvWriter} (output_dir : pystr) (fs : gmap pystr (list N))
    (data : save_data) (filename mode : pystr)
    : save_outcome * gmap pystr (list N) :=
  let frame :=
    match data with
    | DataList l => Some (from_records l)
    | DataTable df => Some df
    | DataOther => None
    end in
  match frame with
  | None => (RaisedValueError, fs)
  | Some df =>
      if frame_empty df then (Returned None, fs)
      else
        let filepath := path_join output_dir filename in
        let '(fs', ok) :=
          if bool_decide (mode = str "a") && bool_decide (is_Some (fs !! filepath))
          then to_csv df filepath true false fs
          else to_csv df filepath false true fs in
        if ok then (Returned (Some filepath), fs') else (Returned None, fs')
  end.

(** ** nba_crawler/request_handler.py: RequestHandler.get

    [server k] is what the [k]-th call of [session.get] made by one [get]
    produces.  [get] is the call from its first dispatch on: its trace lists
    the dispatches and the sleeps of the retry loop in order.  The pacing
    wait made once before the loop, which may sleep too, and the clock
    readings the handler keeps are in [RequestHandler_get] below, the whole
    call. *)
Definition MAX_RETRIES : nat := 3.
Definition BASE_URL : pystr := str "https://nba.hupu.com".

Record response := {
  status_code : Z;
  text : pystr;
}.

Inductive attempt_outcome :=
  | Responded (r : response)
  | Timeout
  | ConnectionError
  | RequestException       (* any other requests exception *)
  | OtherException.        (* an exception the loop does not catch *)

Inductive event :=
  | Dispatch (url : pystr)
  | Sleep (seconds : nat).

Inductive get_result :=
  | Got (r : option response)
  | Escaped.

Fixpoint startswith (prefix s : pystr) : bool :=
  match prefix, s with
  | [], _ => true
  | p :: prefix', c :: s' => (p =? c) && startswith prefix' s'
  | _ :: _, [] => false
  end.

Definition resolve_url (url : pystr) : pystr :=
  if startswith (str "http") url then url else BASE_URL ++ url.

(** The [for attempt in range(MAX_RETRIES)] loop: [remaining] iterations
    are left and the next one is number [attempt]. *)
Fixpoint retry_loop (server : nat -> attempt_outcome) (url : pystr)
    (remaining attempt : nat) : get_result * list event :=
  match remaining with
  | O => (Got None, [])
  | S remaining' =>
      let again :=
        let wait :=
          if (attempt <? MAX_RETRIES - 1)%nat
          then [Sleep ((attempt + 1) * 2)] else [] in
        let '(r, trace) := retry_loop server url remaining' (S attempt) in
        (r, Dispatch url :: wait ++ trace) in
      match server attempt with
      | Responded r =>
          if (status_code r =? 200)%Z then (Got (Some r), [Dispatch url])
          else again
      | Timeout | ConnectionError | RequestException => again
      | OtherException => (Escaped, [Dispatch url])
      end
  end.

Definition get (server : nat -> attempt_outcome) (url : pystr)
    : get_result * list event :=
  retry_loop server (resolve_url url) MAX_RETRIES 0.

Definition dispatches (trace : list event) : nat :=
  length (List.filter (fun e => match e with Dispatch _ => true | _ => false end)
                      trace).

(** An attempt the loop treats as failed and retries. *)
Definition failed (o : attempt_outcome) : bool :=
  match o with
  | Responded r => negb (status_code r =? 200)%Z
  | Timeout | ConnectionError | RequestException => true
  | OtherException => false
  end.

(** ** The Unicode tables on Basic Latin and Latin-1 Supplement

    The canonical decompositions, lower-case mappings and decimal digits of
    the code points below U+0100, as the Unicode database gives them; other
    code points are left as they are.  These tables evaluate the examples;
    the general statements hold for every [Unicode] with [UnicodeLaws]. *)
Definition latin1_decompose (c : N) : pystr :=
  if c <? 192 then [c] else
  match c with
  | 192 => [65; 768] | 193 => [65; 769] | 194 => [65; 770] | 195 => [65; 771]
  | 196 => [65; 776] | 197 => [65; 778] | 199 => [67; 807] | 200 => [69; 768]
  | 201 => [69; 769] | 202 => [69; 770] | 203 => [69; 776] | 204 => [73; 768]
  | 205 => [73; 769] | 206 => [73; 770] | 207 => [73; 776] | 209 => [78; 771]
  | 210 => [79; 768] | 211 => [79; 769] | 212 => [79; 770] | 213 => [79; 771]
  | 214 => [79; 776] | 217 => [85; 768] | 218 => [85; 769] | 219 => [85; 770]
  | 220 => [85; 776] | 221 => [89; 769]
  | 224 => [97; 768] | 225 => [97; 769] | 226 => [97; 770] | 227 => [97; 771]
  | 228 => [97; 776] | 229 => [97; 778] | 231 => [99; 807] | 232 => [101; 768]
  | 233 => [101; 769] | 234 => [101; 770] | 235 => [101; 776]
  | 236 => [105; 768] | 237 => [105; 769] | 238 => [105; 770]
  | 239 => [105; 776] | 241 => [110; 771] | 242 => [111; 768]
  | 243 => [111; 769] | 244 => [111; 770] | 245 => [111; 771]
  | 246 => [111; 776] | 249 => [117; 768] | 250 => [117; 769]
  | 251 => [117; 770] | 252 => [117; 776] | 253 => [121; 769]
  | 255 => [121; 776]
  | _ => [c]
  end.

Definition latin1_lower (c : N) : N :=
  if is_upper c then c + 32
  else if (192 <=? c) && (c <=? 222) && negb (c =? 215) then c + 32
  else c.

Definition latin1 : Unicode := {|
  nfd := fun s => List.concat (List.map latin1_decompose s);
  str_lower := List.map latin1_lower;
  is_decimal := is_ascii_digit;
|}.

(** ** Plain decimal literals as floats

    [float(s)] on a literal [sign digits . digits] with at most 15 digits:
    the digits form an integer below 2^53 and the power of ten is exact, so
    one correctly rounded division gives the float nearest to the literal.
    [str(x)] on an integral float below 10^16.  Other texts and floats are
    outside these tables ([None], respectively the empty text). *)
Fixpoint digits_value (acc : N) (s : pystr) : option N :=
  match s with
  | [] => Some acc
  | c :: s' =>
      if is_ascii_digit c then digits_value (10 * acc + (c - 48)) s'
      else None
  end.

Fixpoint split_at_dot (s : pystr) : pystr * option pystr :=
  match s with
  | [] => ([], None)
  | c :: s' =>
      if c =? 46 then ([], Some s')
      else let (a, b) := split_at_dot s' in (c :: a, b)
  end.

Definition float_of_N (n : N) : float :=
  PrimFloat.of_uint63 (Uint63.of_Z (Z.of_N n)).

Definition unsigned_literal (s : pystr) : option float :=
  let (int_part, frac) := split_at_dot s in
  let frac_part := match frac with Some f => f | None => [] end in
  if (nonempty int_part || nonempty frac_part)
     && (length int_part + length frac_part <=? 15)%nat then
    match digits_value 0 (int_part ++ frac_part) with
    | Some m =>
        Some (PrimFloat.div (float_of_N m)
                            (float_of_N (10 ^ N.of_nat (length frac_part))))
    | None => None
    end
  else None.

Definition decimal_literal (s : pystr) : option float :=
  match strip s with
  | 45 :: s' => option_map PrimFloat.opp (unsigned_literal s')
  | 43 :: s' => unsigned_literal s'
  | s' => unsigned_literal s'
  end.

Fixpoint uint_text (u : Decimal.uint) : pystr :=
  match u with
  | Decimal.Nil => []
  | Decimal.D0 u => 48 :: uint_text u
  | Decimal.D1 u => 49 :: uint_text u
  | Decimal.D2 u => 50 :: uint_text u
  | Decimal.D3 u => 51 :: uint_text u
  | Decimal.D4 u => 52 :: uint_text u
  | Decimal.D5 u => 53 :: uint_text u
  | Decimal.D6 u => 54 :: uint_text u
  | Decimal.D7 u => 55 :: uint_text u
  | Decimal.D8 u => 56 :: uint_text u
  | Decimal.D9 u => 57 :: uint_text u
  end.

Definition integral_repr (x : float) : pystr :=
  match Prim2SF x with
  | S754_zero false => str "0.0"
  | S754_zero true => str "-0.0"
  | S754_finite s m e =>
      let n := if (0 <=? e)%Z then (Z.pos m * 2 ^ e)%Z
               else (Z.pos m / 2 ^ (- e))%Z in
      if ((0 <=? e) || (Z.pos m mod 2 ^ (- e) =? 0))%Z
         && (n <? 10 ^ 16)%Z
      then (if s then [45] else [])
           ++ uint_text (N.to_uint (Z.to_N n)) ++ str ".0"
      else []
  | S754_infinity false => str "inf"
  | S754_infinity true => str "-inf"
  | S754_nan => str "nan"
  end.

Definition decimal_text : FloatText := {|
  float_repr := integral_repr;
  py_float := decimal_literal;
|}.

(** ** Notions the properties are stated with *)

(** A word: not empty and free of whitespace. *)
Definition is_word (w : pystr) : bool :=
  nonempty w && forallb (fun c => negb (is_space c)) w.

(** The shape of a key: words of the letters a to z separated by single
    spaces, with no space at either end; the empty text is a key.
    [after_space] tells that the text so far is empty or ends in a space. *)
Fixpoint key_shape (after_space : bool) (s : pystr) : bool :=
  match s with
  | [] => negb after_space
  | c :: s' =>
      if c =? 32 then negb after_space && key_shape true s'
      else is_lower c && key_shape false s'
  end.

Definition key_ok (s : pystr) : bool :=
  match s with [] => true | _ => key_shape true s end.

(** Two decomposed texts that differ only by accent marks, by the case of
    letters, or by punctuation. *)
Inductive same_name : pystr -> pystr -> Prop :=
  | same_nil : same_name [] []
  | same_char c x y : same_name x y -> same_name (c :: x) (c :: y)
  | same_case c d x y :
      is_ascii c = true -> is_ascii d = true ->
      ascii_lower c = ascii_lower d ->
      same_name x y -> same_name (c :: x) (d :: y)
  | same_mark_l c x y : is_mark c = true -> same_name x y -> same_name (c :: x) y
  | same_mark_r c x y : is_mark c = true -> same_name x y -> same_name x (c :: y)
  | same_punct_l c x y :
      is_punct c = true -> same_name x y -> same_name (c :: x) y
  | same_punct_r c x y :
      is_punct c = true -> same_name x y -> same_name x (c :: y).

(** The first entry of a manual table that yields the key [k]. *)
Fixpoint first_manual {U : Unicode} {F : FloatText}
    (k : pystr) (table : list (pystr * pystr)) : option (pystr * pystr) :=
  match table with
  | [] => None
  | (en, cn) :: table' =>
      if bool_decide (normalize_name (Str en) = k) && nonempty k
      then Some (cn, en)
      else first_manual k table'
  end.

(** The last space-delimited token of a key, and the first character of its
    first token; a key without token has neither. *)
Definition surname (k : pystr) : option pystr := last (split k).

Definition initial (k : pystr) : option N :=
  match head (split k) with
  | Some w => head w
  | None => None
  end.

(** A candidate of the fallback stage: same surname, same initial. *)
Definition surname_initial_match (norm_name espn_name : pystr) : bool :=
  match surname norm_name, surname espn_name with
  | Some a, Some b =>
      bool_decide (a = b) && bool_decide (initial norm_name = initial espn_name)
  | _, _ => false
  end.

(** ** A writer for tables of plain cells

    The text pandas writes for a frame none of whose labels and cells needs
    quoting: lines of comma-separated values, a byte-order mark in front of
    a new file; the write always succeeds. *)
Fixpoint comma_join (ws : list pystr) : pystr :=
  match ws with
  | [] => []
  | [w] => w
  | w :: ws' => w ++ 44 :: comma_join ws'
  end.

Definition cell_text {F : FloatText} (v : cell) : pystr :=
  match v with
  | Str s => s
  | Num x => float_repr x
  | PNone | NaN => []
  end.

Definition csv_lines {F : FloatText} (header : bool) (df : DataFrame) : pystr :=
  (if header then comma_join (columns df) ++ [10] else [])
  ++ concat (List.map (fun r => comma_join (List.map cell_text r) ++ [10])
                      (frame_rows df)).

Definition plain_csv {F : FloatText} : CsvWriter := {|
  to_csv := fun df path append header fs =>
    if append
    then (<[path := default [] (fs !! path) ++ csv_lines header df]> fs, true)
    else (<[path := 65279 :: csv_lines header df]> fs, true)
|}.

(** The rows a de-duplication keeps, said without the loop: the positions
    are in increasing order, and a position is kept exactly when no kept
    position before it has an equal key. *)
Definition kept_first (keys : list (list cell)) (idx : list nat) : Prop :=
  StronglySorted lt idx
  /\ forall p, p ∈ idx <->
       exists kp, keys !! p = Some kp
         /\ forall q kq, (q < p)%nat -> q ∈ idx -> keys !! q = Some kq ->
                         row_eqb kp kq = false.

(** No row of the frame equals a row above it. *)
Definition no_equal_rows (df : DataFrame) : Prop :=
  forall a b ra rb,
    frame_rows df !! a = Some ra -> frame_rows df !! b = Some rb ->
    (b < a)%nat -> row_eqb ra rb = false.

(** No value of the column equals a value above it. *)
Definition no_equal_values (vs : list cell) : Prop :=
  forall a b va vb,
    vs !! a = Some va -> vs !! b = Some vb -> (b < a)%nat ->
    cell_eqb va vb = false.

(** The frame clean_roster has built when it reaches drop_duplicates. *)
Definition roster_prepared (data : list record) : DataFrame :=
  update_column L_english (List.map str_strip)
    (update_column L_player (List.map str_strip)
       (dropna_all (from_records data))).

(** The frame clean_player_stats has built when it reaches drop_duplicates;
    [None] when the cast of the rank column raises. *)
Definition player_stats_prepared {F : FloatText} {P : PandasNumeric}
    (data : list record) (category : pystr) : option DataFrame :=
  rank_to_Int64
    (update_column L_pct apply_parse_percentage
       (foldl (fun df col => update_column col to_numeric df)
              (dropna_all (from_records data)) (numeric_columns category))).

(** Every row of [df] has an equal row in [df'], and every value of [vs] an
    equal value in [vs']. *)
Definition rows_kept (df df' : DataFrame) : Prop :=
  forall r, r ∈ frame_rows df ->
            exists r', r' ∈ frame_rows df' /\ row_eqb r r' = true.

Definition values_kept (vs vs' : list cell) : Prop :=
  forall v, v ∈ vs -> exists v', v' ∈ vs' /\ cell_eqb v v' = true.

(** ** Numeric conversion of plain decimal literals

    [pd.to_numeric(errors="coerce")] on a column of decimal literals, and
    the cast to Int64, which accepts integers and missing values. *)
Definition float_integral (x : float) : bool :=
  match Prim2SF x with
  | S754_zero _ => true
  | S754_finite _ m e => ((0 <=? e) || (Z.pos m mod 2 ^ (- e) =? 0))%Z
  | _ => false
  end.

Definition decimal_numeric : PandasNumeric := {|
  to_numeric := List.map (fun v =>
    match v with
    | Str s => stored (decimal_literal s)
    | Num x => stored (Some x)
    | PNone | NaN => NaN
    end);
  astype_Int64 := fun vs =>
    if forallb (fun v => match v with
                         | Num x => float_integral x
                         | Str _ => false
                         | PNone | NaN => true
                         end) vs
    then Some vs else None
|}.

(** ** data_cleaner.py: team statistics and standings *)

Definition L_field_goals : pystr := [25237; 31726].       (* 投篮 *)
Definition L_threes : pystr := [19977; 20998].            (* 三分 *)
Definition L_free_throws : pystr := [32602; 29699].       (* 罚球 *)
Definition L_rebounds : pystr := [31726; 26495].          (* 篮板 *)
Definition L_turnovers : pystr := [22833; 35823].         (* 失误 *)
Definition L_fouls : pystr := [29359; 35268].             (* 犯规 *)
Definition L_wins : pystr := [32988].                     (* 胜 *)
Definition L_losses : pystr := [36127].                   (* 负 *)
Definition L_win_rate : pystr := [32988; 29575].          (* 胜率 *)

(** [if label in df.columns:
       df[label] = pd.to_numeric(df[label], errors="coerce").astype("Int64")];
    [None] when the cast raises. *)
Definition to_Int64 {P : PandasNumeric} (label : pystr) (df : DataFrame)
    : option DataFrame :=
  match get_column label df with
  | None => Some df
  | Some vs =>
      match astype_Int64 (to_numeric vs) with
      | Some vs' => Some (set_column label vs' df)
      | None => None
      end
  end.

Definition team_numeric_cols : list pystr :=
  [L_field_goals; L_threes; L_free_throws; L_rebounds; L_assists;
   L_turnovers; L_steals; L_blocks; L_fouls; L_points].

Definition clean_team_stats {P : PandasNumeric} (data : list record)
    : option DataFrame :=
  match data with
  | [] => Some empty_frame
  | _ =>
      let df := from_records data in
      let df := dropna_all df in
      let df :=
        foldl (fun df col => update_column col to_numeric df) df
              team_numeric_cols in
      match to_Int64 L_rank df with
      | Some df => Some (drop_duplicates df)
      | None => None
      end
  end.

Definition clean_standings {F : FloatText} {P : PandasNumeric}
    (data : list record) : option DataFrame :=
  match data with
  | [] => Some empty_frame
  | _ =>
      let df := from_records data in
      let df := dropna_all df in
      match to_Int64 L_wins df with
      | None => None
      | Some df =>
          match to_Int64 L_losses df with
          | None => None
          | Some df =>
              match to_Int64 L_rank df with
              | None => None
              | Some df =>
                  let df :=
                    update_column L_win_rate apply_parse_percentage df in
                  Some (drop_duplicates df)
              end
          end
      end
  end.

(** ** nba_crawler/request_handler.py: get_html

    A response is true in a test when its status is not an error status
    (requests: [Response.ok]). *)
Definition response_ok (r : response) : bool :=
  negb ((400 <=? status_code r)%Z && (status_code r <? 600)%Z).

Inductive html_result :=
  | Page (html : option pystr)
  | PageEscaped.

Definition get_html (server : nat -> attempt_outcome) (url : pystr)
    : html_result * list event :=
  match get server url with
  | (Got (Some r), trace) =>
      (if response_ok r then Page (Some (text r)) else Page None, trace)
  | (Got None, trace) => (Page None, trace)
  | (Escaped, trace) => (PageEscaped, trace)
  end.

(** The seconds slept in a trace. *)
Definition slept (trace : list event) : nat :=
  list_sum (List.map (fun e => match e with Sleep n => n | Dispatch _ => 0%nat end)
                     trace).

(** ** data_merger.py: integrate_team_roster

    [rosters] is OUTPUT_SUBDIRS["rosters"].  Files are read from the file
    system of CSVStorage.save; reading a file as CSV is left to pandas
    ([read_csv]).  [espn_roster code season] is what
    ESPNSpider.crawl_roster returns for that team, [None] when it raises. *)
Definition HUPU_TO_ESPN : list (pystr * pystr) := [
  ([27874; 22763; 39039; 20975; 23572; 29305; 20154], str "bos");
  ([24067; 40065; 20811; 26519; 31726; 32593], str "bkn");
  ([32445; 32422; 23612; 20811; 26031], str "ny");
  ([36153; 22478; 55; 54; 20154], str "phi");
  ([22810; 20262; 22810; 29467; 40857], str "tor");
  ([33437; 21152; 21733; 20844; 29275], str "chi");
  ([20811; 21033; 22827; 20848; 39569; 22763], str "cle");
  ([24213; 29305; 24459; 27963; 22622], str "det");
  ([21360; 31532; 23433; 32435; 27493; 34892; 32773], str "ind");
  ([23494; 23572; 27779; 22522; 38596; 40575], str "mil");
  ([20122; 29305; 20848; 22823; 32769; 40560], str "atl");
  ([22799; 27931; 29305; 40644; 34562], str "cha");
  ([36808; 38463; 23494; 28909; 28779], str "mia");
  ([22885; 20848; 22810; 39764; 26415], str "orl");
  ([21326; 30427; 39039; 22855; 25165], str "wsh");
  ([20025; 20315; 25496; 37329], str "den");
  ([26126; 23612; 33487; 36798; 26862; 26519; 29436], str "min");
  ([20420; 20811; 25289; 33655; 39532; 22478; 38647; 38662], str "okc");
  ([27874; 29305; 20848; 24320; 25299; 32773], str "por");
  ([29369; 20182; 29237; 22763], str "utah");
  ([37329; 24030; 21191; 22763], str "gsw");
  ([27931; 26441; 30710; 24555; 33337], str "lac");
  ([27931; 26441; 30710; 28246; 20154], str "lal");
  ([33778; 23612; 20811; 26031; 22826; 38451], str "phx");
  ([33832; 20811; 25289; 38376; 25176; 22269; 29579], str "sac");
  ([36798; 25289; 26031; 29420; 34892; 20384], str "dal");
  ([20241; 26031; 39039; 28779; 31661], str "hou");
  ([23391; 33778; 26031; 28784; 29066], str "mem");
  ([26032; 22885; 23572; 33391; 40520; 40533], str "no");
  ([22307; 23433; 19996; 23612; 22885; 39532; 21050], str "sa")
].

Class CsvReader := {
  read_csv : list N -> option DataFrame;     (* None: pandas raises *)
}.

Inductive py_error :=
  | KeyError
  | ReadError               (* raised by pd.read_csv *)
  | CrawlError.             (* raised by ESPNSpider.crawl_roster *)

Inductive integrated :=
  | Integrated (df : option DataFrame)
  | IntegrateRaised (e : py_error).

(** f"{team_name}_{season}.csv" *)
Definition roster_file_name (team_name season : pystr) : pystr :=
  team_name ++ str "_" ++ season ++ str ".csv".

Definition integrate_team_roster {U : Unicode} {F : FloatText} {R : CsvReader}
    (rosters : pystr) (fs : gmap pystr (list N))
    (espn_roster : pystr -> pystr -> option (list record))
    (team_name season : pystr) : integrated :=
  match record_get team_name HUPU_TO_ESPN with
  | None | Some [] => Integrated None
  | Some espn_code =>
      let hupu_file := path_join rosters (roster_file_name team_name season) in
      match fs !! hupu_file with
      | None => Integrated None
      | Some content =>
          match read_csv content with
          | None => IntegrateRaised ReadError
          | Some hupu_df =>
              match espn_roster espn_code season with
              | None => IntegrateRaised CrawlError
              | Some [] => Integrated (Some hupu_df)
              | Some espn_data =>
                  let espn_df := from_records espn_data in
                  let merged_df :=
                    returned (merge_roster_with_salary hupu_df espn_df) in
                  match get_column L_salary merged_df with
                  | Some _ => Integrated (Some merged_df)
                  | None => IntegrateRaised KeyError
                  end
              end
          end
      end
  end.

(** ** nba_crawler/request_handler.py: the whole call

    A handler keeps [last_request_time], the clock reading taken when
    [session.get] last returned a response.  [now] is the clock reading
    taken by _wait_for_delay and [clock k] the one taken after attempt [k]
    is answered. *)
Definition REQUEST_DELAY : float := 1.5%float.

(** RequestHandler._wait_for_delay: the sleep it makes, if any. *)
Definition _wait_for_delay (last_request_time now : float) : option float :=
  let elapsed := PrimFloat.sub now last_request_time in
  if PrimFloat.ltb elapsed REQUEST_DELAY
  then Some (PrimFloat.sub REQUEST_DELAY elapsed)
  else None.

(** The retry loop with the handler's [last_request_time], which every
    answered attempt sets, whatever its status. *)
Fixpoint paced_loop (server : nat -> attempt_outcome) (clock : nat -> float)
    (url : pystr) (remaining attempt : nat) (last_request_time : float)
    : get_result * list event * float :=
  match remaining with
  | O => (Got None, [], last_request_time)
  | S remaining' =>
      let again last_request_time :=
        let wait :=
          if (attempt <? MAX_RETRIES - 1)%nat
          then [Sleep ((attempt + 1) * 2)] else [] in
        let '(r, trace, last) :=
          paced_loop server clock url remaining' (S attempt)
            last_request_time in
        (r, Dispatch url :: wait ++ trace, last) in
      match server attempt with
      | Responded r =>
          if (status_code r =? 200)%Z
          then (Got (Some r), [Dispatch url], clock attempt)
          else again (clock attempt)
      | Timeout | ConnectionError | RequestException =>
          again last_request_time
      | OtherException => (Escaped, [Dispatch url], last_request_time)
      end
  end.

(** One call of RequestHandler.get: the sleep of the pacing wait, made
    before the first dispatch, what the call returns, the dispatches and
    sleeps of the retry loop, and the handler's [last_request_time] after
    the call. *)
Record call := {
  pacing : option float;
  outcome : get_result;
  events : list event;
  last_request_time_after : float;
}.

Definition RequestHandler_get (last_request_time now : float)
    (clock : nat -> float) (server : nat -> attempt_outcome) (url : pystr)
    : call :=
  let '(r, trace, last) :=
    paced_loop server clock (resolve_url url) MAX_RETRIES 0
      last_request_time in
  {| pacing := _wait_for_delay last_request_time now;
     outcome := r;
     events := trace;
     last_request_time_after := last |}.

Definition RequestHandler_get_html (last_request_time now : float)
    (clock : nat -> float) (server : nat -> attempt_outcome) (url : pystr)
    : html_result * call :=
  let c := RequestHandler_get last_request_time now clock server url in
  (match outcome c with
   | Got (Some r) => if response_ok r then Page (Some (text r)) else Page None
   | Got None => Page None
   | Escaped => PageEscaped
   end, c).

(** The reading [last_request_time] holds after the attempts from [attempt]
    on, [n] of them: that of the last one answered, if any. *)
Fixpoint last_answer (server : nat -> attempt_outcome) (clock : nat -> float)
    (attempt n : nat) (last_request_time : float) : float :=
  match n with
  | O => last_request_time
  | S n' =>
      last_answer server clock (S attempt) n'
        (match server attempt with
         | Responded _ => clock attempt
         | _ => last_request_time
         end)
  end.

(** * Properties *)

(** ** Character classes *)

Lemma is_ascii_spec c : is_ascii c = true <-> c < 128.
Proof. unfold is_ascii. apply N.ltb_lt. Qed.

Lemma is_upper_spec c : is_upper c = true <-> 65 <= c <= 90.
Proof. unfold is_upper. rewrite andb_true_iff, !N.leb_le. tauto. Qed.

Lemma is_lower_spec c : is_lower c = true <-> 97 <= c <= 122.
Proof. unfold is_lower. rewrite andb_true_iff, !N.leb_le. tauto. Qed.

Lemma is_ascii_digit_spec c : is_ascii_digit c = true <-> 48 <= c <= 57.
Proof. unfold is_ascii_digit. rewrite andb_true_iff, !N.leb_le. tauto. Qed.

Lemma is_space_spec c :
  is_space c = true <->
  9 <= c <= 13 \/ 28 <= c <= 32 \/ c = 133 \/ c = 160 \/ c = 5760
  \/ 8192 <= c <= 8202 \/ c = 8232 \/ c = 8233 \/ c = 8239 \/ c = 8287
  \/ c = 12288.
Proof.
  unfold is_space.
  rewrite !orb_true_iff, !andb_true_iff, !N.leb_le, !N.eqb_eq. tauto.
Qed.

Lemma is_punct_spec c :
  is_punct c = true <->
  33 <= c <= 47 \/ 58 <= c <= 64 \/ 91 <= c <= 96 \/ 123 <= c <= 126.
Proof.
  unfold is_punct. rewrite !orb_true_iff, !andb_true_iff, !N.leb_le. tauto.
Qed.

Lemma is_mark_spec c :
  is_mark c = true <->
  768 <= c <= 879 \/ 6832 <= c <= 6911 \/ 7616 <= c <= 7679
  \/ 8400 <= c <= 8447 \/ 65056 <= c <= 65071.
Proof.
  unfold is_mark. rewrite !orb_true_iff, !andb_true_iff, !N.leb_le. tauto.
Qed.

Lemma bool_false_iff (b : bool) (P : Prop) :
  (b = true <-> P) -> (b = false <-> ~ P).
Proof. destruct b; intuition congruence. Qed.

(** Turns goals and hypotheses on the character classes into linear
    arithmetic. *)
Ltac classes :=
  repeat match goal with
  | H : _ = false |- _ =>
      first [ apply (proj1 (bool_false_iff _ _ (is_ascii_spec _))) in H
            | apply (proj1 (bool_false_iff _ _ (is_upper_spec _))) in H
            | apply (proj1 (bool_false_iff _ _ (is_lower_spec _))) in H
            | apply (proj1 (bool_false_iff _ _ (is_ascii_digit_spec _))) in H
            | apply (proj1 (bool_false_iff _ _ (is_space_spec _))) in H
            | apply (proj1 (bool_false_iff _ _ (is_punct_spec _))) in H
            | apply (proj1 (bool_false_iff _ _ (is_mark_spec _))) in H ]
  | H : _ = true |- _ =>
      first [ apply is_ascii_spec in H | apply is_upper_spec in H
            | apply is_lower_spec in H | apply is_ascii_digit_spec in H
            | apply is_space_spec in H | apply is_punct_spec in H
            | apply is_mark_spec in H ]
  end;
  try match goal with
  | |- _ = false =>
      first [ apply (proj2 (bool_false_iff _ _ (is_ascii_spec _)))
            | apply (proj2 (bool_false_iff _ _ (is_upper_spec _)))
            | apply (proj2 (bool_false_iff _ _ (is_lower_spec _)))
            | apply (proj2 (bool_false_iff _ _ (is_ascii_digit_spec _)))
            | apply (proj2 (bool_false_iff _ _ (is_space_spec _)))
            | apply (proj2 (bool_false_iff _ _ (is_punct_spec _)))
            | apply (proj2 (bool_false_iff _ _ (is_mark_spec _))) ]
  | |- _ = true =>
      first [ apply is_ascii_spec | apply is_upper_spec | apply is_lower_spec
            | apply is_ascii_digit_spec | apply is_space_spec
            | apply is_punct_spec | apply is_mark_spec ]
  end;
  try lia.

Lemma lower_not_space c : is_lower c = true -> is_space c = false.
Proof. intros. classes. Qed.

Lemma lower_not_upper c : is_lower c = true -> is_upper c = false.
Proof. intros. classes. Qed.

Lemma lower_ascii c : is_lower c = true -> is_ascii c = true.
Proof. intros. classes. Qed.

Lemma mark_not_ascii c : is_mark c = true -> is_ascii c = false.
Proof. intros. classes. Qed.

Lemma punct_ascii c : is_punct c = true -> is_ascii c = true.
Proof. intros. classes. Qed.

Lemma punct_not_upper c : is_punct c = true -> is_upper c = false.
Proof. intros. classes. Qed.

Lemma punct_not_kept c :
  is_punct c = true -> is_lower c || is_space c = false.
Proof.
  intros. apply orb_false_iff. split; classes.
Qed.

Lemma punct_lower c : is_punct c = true -> ascii_lower c = c.
Proof. intros H. unfold ascii_lower. now rewrite (punct_not_upper _ H). Qed.

Lemma space32 : is_space 32 = true.
Proof. reflexivity. Qed.

(** ** split and join *)

Lemma split_go_word w s :
  forallb (fun c => negb (is_space c)) w = true ->
  split_go (w ++ s) = (w ++ fst (split_go s), snd (split_go s)).
Proof.
  induction w as [|c w IH]; simpl; intros Hw.
  - now destruct (split_go s).
  - apply andb_true_iff in Hw as [Hc Hw]. rewrite (IH Hw).
    apply negb_true_iff in Hc. now rewrite Hc.
Qed.

Lemma split_go_join ws :
  forallb is_word ws = true ->
  split_go (join ws) = match ws with [] => ([], []) | w :: ws' => (w, ws') end.
Proof.
  induction ws as [|w ws IH]; [reflexivity|].
  intros H. simpl in H. apply andb_true_iff in H as [Hw Hws].
  unfold is_word in Hw. apply andb_true_iff in Hw as [Hne Hw].
  destruct ws as [|w2 ws].
  - simpl. rewrite <- (app_nil_r w) at 1. rewrite (split_go_word _ _ Hw).
    simpl. now rewrite app_nil_r.
  - change (join (w :: w2 :: ws)) with (w ++ 32 :: join (w2 :: ws)).
    rewrite (split_go_word _ _ Hw).
    change (split_go (32 :: join (w2 :: ws)))
      with (let (w0, ws0) := split_go (join (w2 :: ws)) in
            ([] : pystr, push_word w0 ws0)).
    rewrite (IH Hws). simpl. rewrite app_nil_r.
    simpl in Hws. apply andb_true_iff in Hws as [Hw2 _].
    unfold is_word in Hw2. apply andb_true_iff in Hw2 as [Hne2 _].
    now destruct w2.
Qed.

Lemma split_join ws : forallb is_word ws = true -> split (join ws) = ws.
Proof.
  intros H. unfold split. rewrite (split_go_join _ H).
  destruct ws as [|w ws]; [reflexivity|].
  simpl in H. apply andb_true_iff in H as [Hw _].
  unfold is_word in Hw. apply andb_true_iff in Hw as [Hne _].
  now destruct w.
Qed.

Lemma push_word_words w ws :
  forallb (fun c => negb (is_space c)) w = true ->
  forallb is_word ws = true -> forallb is_word (push_word w ws) = true.
Proof.
  intros Hw Hws. destruct w; [exact Hws|].
  unfold push_word. simpl forallb at 1. rewrite Hws.
  unfold is_word. now rewrite Hw.
Qed.

Lemma split_go_words s :
  forallb (fun c => negb (is_space c)) (fst (split_go s)) = true
  /\ forallb is_word (snd (split_go s)) = true.
Proof.
  induction s as [|c s [IH1 IH2]]; [now split|].
  simpl. destruct (split_go s) as [w ws]. simpl in *.
  destruct (is_space c) eqn:Hc; simpl.
  - split; [reflexivity|]. now apply push_word_words.
  - rewrite ?Hc. simpl. now split.
Qed.

Lemma split_words s : forallb is_word (split s) = true.
Proof.
  unfold split. pose proof (split_go_words s) as [H1 H2].
  destruct (split_go s) as [w ws]. now apply push_word_words.
Qed.

(** The characters of the words of [s] are characters of [s]. *)
Lemma split_go_chars (P : N -> bool) s :
  forallb P s = true ->
  forallb P (fst (split_go s)) = true
  /\ forallb (forallb P) (snd (split_go s)) = true.
Proof.
  induction s as [|c s IH]; [now split|].
  simpl. intros H. apply andb_true_iff in H as [Hc Hs].
  destruct (IH Hs) as [IH1 IH2]. destruct (split_go s) as [w ws]. simpl in *.
  destruct (is_space c); simpl.
  - split; [reflexivity|]. destruct w; [exact IH2|].
    simpl. simpl in IH1. now rewrite IH1, IH2.
  - now rewrite Hc, IH1, IH2.
Qed.

Lemma split_chars (P : N -> bool) s :
  forallb P s = true -> forallb (forallb P) (split s) = true.
Proof.
  intros H. unfold split. destruct (split_go_chars P s H) as [H1 H2].
  destruct (split_go s) as [w ws]. simpl in *.
  destruct w; [exact H2|]. simpl. simpl in H1. now rewrite H1, H2.
Qed.

(** ** The shape of a joined key *)

Lemma key_shape_word b w r :
  forallb is_lower w = true ->
  key_shape b (w ++ r) = if nonempty w then key_shape false r else key_shape b r.
Proof.
  revert b. induction w as [|c w IH]; intros b Hw; [reflexivity|].
  simpl in Hw. apply andb_true_iff in Hw as [Hc Hw].
  simpl. replace (c =? 32) with false.
  2:{ symmetry. apply N.eqb_neq. apply is_lower_spec in Hc. lia. }
  rewrite Hc, (IH false Hw). simpl. now destruct w.
Qed.

Definition lower_word (w : pystr) : bool := nonempty w && forallb is_lower w.

Lemma key_shape_join ws :
  forallb lower_word ws = true -> ws <> [] -> key_shape true (join ws) = true.
Proof.
  induction ws as [|w ws IH]; [congruence|]. intros H _.
  simpl in H. apply andb_true_iff in H as [Hw Hws].
  unfold lower_word in Hw. apply andb_true_iff in Hw as [Hne Hw].
  destruct ws as [|w2 ws].
  - simpl. rewrite <- (app_nil_r w). rewrite (key_shape_word _ _ _ Hw).
    now rewrite Hne.
  - change (join (w :: w2 :: ws)) with (w ++ 32 :: join (w2 :: ws)).
    rewrite (key_shape_word _ _ _ Hw), Hne.
    change (key_shape false (32 :: join (w2 :: ws)))
      with (negb false && key_shape true (join (w2 :: ws))).
    rewrite IH; [reflexivity|exact Hws|congruence].
Qed.

Lemma key_ok_join ws : forallb lower_word ws = true -> key_ok (join ws) = true.
Proof.
  intros H. destruct ws as [|w ws]; [reflexivity|].
  unfold key_ok. destruct (join (w :: ws)) eqn:E; [reflexivity|].
  rewrite <- E. apply key_shape_join; [exact H|congruence].
Qed.

Lemma forallb_impl {A} (P Q : A -> bool) l :
  (forall x, P x = true -> Q x = true) ->
  forallb P l = true -> forallb Q l = true.
Proof.
  intros HPQ. induction l as [|a l IH]; [reflexivity|]. simpl.
  intros H. apply andb_true_iff in H as [Ha Hl]. now rewrite (HPQ _ Ha), IH.
Qed.

Lemma forallb_filter_self {A} (P : A -> bool) l :
  forallb P (List.filter P l) = true.
Proof.
  induction l as [|a l IH]; [reflexivity|]. simpl.
  destruct (P a) eqn:E; [simpl; now rewrite E|exact IH].
Qed.

Lemma filter_all {A} (P : A -> bool) l :
  forallb P l = true -> List.filter P l = l.
Proof.
  induction l as [|a l IH]; [reflexivity|]. simpl. intros H.
  apply andb_true_iff in H as [Ha Hl]. now rewrite Ha, IH.
Qed.

Lemma forallb_join (P : N -> bool) ws :
  P 32 = true -> forallb (forallb P) ws = true -> forallb P (join ws) = true.
Proof.
  intros H32. induction ws as [|w ws IH]; [reflexivity|].
  intros H. simpl in H. apply andb_true_iff in H as [Hw Hws].
  destruct ws as [|w2 ws]; [exact Hw|].
  change (join (w :: w2 :: ws)) with (w ++ 32 :: join (w2 :: ws)).
  rewrite forallb_app, Hw.
  change (forallb P (32 :: join (w2 :: ws)))
    with (P 32 && forallb P (join (w2 :: ws))).
  now rewrite H32, (IH Hws).
Qed.

(** The words of a text of letters and whitespace are words of letters. *)
Lemma split_lower_words s :
  forallb (fun c => is_lower c || is_space c) s = true ->
  forallb lower_word (split s) = true.
Proof.
  intros H. pose proof (split_words s) as Hw.
  pose proof (split_chars _ s H) as Hc.
  induction (split s) as [|w ws IH]; [reflexivity|].
  simpl in *. apply andb_true_iff in Hw as [Hw Hws].
  apply andb_true_iff in Hc as [Hc Hcs]. rewrite (IH Hws Hcs), andb_true_r.
  unfold is_word in Hw. apply andb_true_iff in Hw as [Hne Hns].
  unfold lower_word. rewrite Hne. simpl.
  clear -Hns Hc. induction w as [|c w IHw]; [reflexivity|].
  simpl in *. apply andb_true_iff in Hns as [Hn Hns].
  apply andb_true_iff in Hc as [Hc Hcs]. rewrite (IHw Hns Hcs), andb_true_r.
  apply negb_true_iff in Hn. rewrite Hn, orb_false_r in Hc. exact Hc.
Qed.

Lemma lower_word_is_word w : lower_word w = true -> is_word w = true.
Proof.
  unfold lower_word, is_word. intros H. apply andb_true_iff in H as [Hne Hw].
  rewrite Hne. simpl. eapply forallb_impl; [|exact Hw].
  intros c Hc. simpl. now rewrite (lower_not_space _ Hc).
Qed.

(** ** C3: the primary normaliser *)

Section PrimaryNormalizer.
Context {U : Unicode} {HU : UnicodeLaws U} {F : FloatText}.

(** The steps of normalize_name after the guard, on a text. *)
Definition steps (s : pystr) : pystr :=
  join (split (keep_letters_spaces (str_lower (encode_ascii_ignore (nfd s))))).

Lemma normalize_name_steps v :
  normalize_name v = if falsy v || isna v then [] else steps (py_str v).
Proof. reflexivity. Qed.

Lemma encode_ascii s : forallb is_ascii (encode_ascii_ignore s) = true.
Proof. apply forallb_filter_self. Qed.

Lemma steps_words s :
  exists ws, steps s = join ws /\ forallb lower_word ws = true.
Proof.
  eexists. split; [reflexivity|].
  apply split_lower_words. apply forallb_filter_self.
Qed.

Lemma normalize_name_words v :
  exists ws, normalize_name v = join ws /\ forallb lower_word ws = true.
Proof.
  rewrite normalize_name_steps. destruct (falsy v || isna v).
  - now exists [].
  - apply steps_words.
Qed.

Lemma map_ascii_lower_id s :
  forallb (fun c => is_lower c || (c =? 32)) s = true ->
  List.map ascii_lower s = s.
Proof.
  induction s as [|c s IH]; [reflexivity|]. simpl. intros H.
  apply andb_true_iff in H as [Hc Hs]. rewrite (IH Hs). f_equal.
  unfold ascii_lower. replace (is_upper c) with false; [reflexivity|].
  symmetry. apply orb_true_iff in Hc as [Hc|Hc].
  - now apply lower_not_upper.
  - apply N.eqb_eq in Hc. now subst.
Qed.

Lemma steps_key ws :
  forallb lower_word ws = true -> steps (join ws) = join ws.
Proof.
  intros Hws.
  assert (Hchars : forallb (fun c => is_lower c || (c =? 32)) (join ws) = true).
  { apply forallb_join; [reflexivity|].
    eapply forallb_impl; [|exact Hws]. intros w Hw.
    unfold lower_word in Hw. apply andb_true_iff in Hw as [_ Hw].
    eapply forallb_impl; [|exact Hw]. intros c Hc. now rewrite Hc. }
  assert (Hascii : forallb is_ascii (join ws) = true).
  { eapply forallb_impl; [|exact Hchars]. intros c Hc.
    apply orb_true_iff in Hc as [Hc|Hc]; [now apply lower_ascii|].
    apply N.eqb_eq in Hc. now subst. }
  assert (Hkeep : forallb (fun c => is_lower c || is_space c) (join ws) = true).
  { eapply forallb_impl; [|exact Hchars]. intros c Hc.
    apply orb_true_iff in Hc as [Hc|Hc]; [now rewrite Hc|].
    apply N.eqb_eq in Hc. subst. now rewrite orb_true_r. }
  unfold steps. rewrite (nfd_ascii _ Hascii).
  unfold encode_ascii_ignore. rewrite (filter_all _ _ Hascii).
  rewrite (str_lower_ascii _ Hascii), (map_ascii_lower_id _ Hchars).
  unfold keep_letters_spaces. rewrite (filter_all _ _ Hkeep).
  rewrite split_join; [reflexivity|].
  eapply forallb_impl; [|exact Hws]. apply lower_word_is_word.
Qed.

Lemma normalize_name_idempotent v :
  normalize_name (Str (normalize_name v)) = normalize_name v.
Proof.
  destruct (normalize_name_words v) as (ws & -> & Hws).
  rewrite normalize_name_steps. simpl.
  destruct (join ws) eqn:E; [reflexivity|].
  rewrite <- E. now apply steps_key.
Qed.

Lemma normalize_name_key_ok v : key_ok (normalize_name v) = true.
Proof.
  destruct (normalize_name_words v) as (ws & -> & Hws).
  now apply key_ok_join.
Qed.

Lemma nfd_nil : nfd [] = [].
Proof. now apply nfd_ascii. Qed.

Lemma normalize_name_text s : normalize_name (Str s) = steps s.
Proof.
  rewrite normalize_name_steps. simpl. destruct s; [|reflexivity].
  unfold steps. now rewrite nfd_nil, (str_lower_ascii []).
Qed.

(** What is left of a decomposed text before the words are split. *)
Definition letters (s : pystr) : pystr :=
  keep_letters_spaces (List.map ascii_lower (encode_ascii_ignore s)).

Lemma steps_letters s : steps s = join (split (letters (nfd s))).
Proof.
  unfold steps, letters. now rewrite (str_lower_ascii _ (encode_ascii _)).
Qed.

Lemma letters_same x y : same_name x y -> letters x = letters y.
Proof.
  unfold letters, keep_letters_spaces, encode_ascii_ignore.
  induction 1 as [|c x y _ IH|c d x y Hc Hd Hcd _ IH|c x y Hc _ IH
                  |c x y Hc _ IH|c x y Hc _ IH|c x y Hc _ IH]; simpl.
  - reflexivity.
  - destruct (is_ascii c); simpl; now rewrite IH.
  - rewrite Hc, Hd. simpl. now rewrite Hcd, IH.
  - now rewrite (mark_not_ascii _ Hc).
  - now rewrite (mark_not_ascii _ Hc).
  - rewrite (punct_ascii _ Hc). simpl.
    now rewrite (punct_lower _ Hc), (punct_not_kept _ Hc).
  - rewrite (punct_ascii _ Hc). simpl.
    now rewrite (punct_lower _ Hc), (punct_not_kept _ Hc).
Qed.

Lemma normalize_name_same x y :
  same_name (nfd x) (nfd y) ->
  normalize_name (Str x) = normalize_name (Str y).
Proof.
  intros H. rewrite !normalize_name_text, !steps_letters.
  now rewrite (letters_same _ _ H).
Qed.
End PrimaryNormalizer.

Lemma key_shape_chars b s :
  key_shape b s = true -> Forall (fun c => 97 <= c <= 122 \/ c = 32) s.
Proof.
  revert b. induction s as [|c s IH]; intros b H; [constructor|].
  simpl in H. destruct (c =? 32) eqn:E.
  - apply andb_true_iff in H as [_ H]. apply N.eqb_eq in E.
    constructor; [now right|eauto].
  - apply andb_true_iff in H as [Hc H]. apply is_lower_spec in Hc.
    constructor; [now left|eauto].
Qed.

Lemma key_shape_no_double b a r : key_shape b (a ++ 32 :: 32 :: r) = false.
Proof.
  revert b. induction a as [|c a IH]; intros b; simpl.
  - now rewrite andb_false_r.
  - destruct (c =? 32); now rewrite IH, andb_false_r.
Qed.

Lemma key_shape_no_trailing b a : key_shape b (a ++ [32]) = false.
Proof.
  revert b. induction a as [|c a IH]; intros b; simpl.
  - now rewrite andb_false_r.
  - destruct (c =? 32); now rewrite IH, andb_false_r.
Qed.

(** What [key_ok] says, spelled out. *)
Lemma key_ok_spelled s :
  key_ok s = true ->
  Forall (fun c => 97 <= c <= 122 \/ c = 32) s
  /\ (forall r, s <> 32 :: r)
  /\ (forall a, s <> a ++ [32])
  /\ (forall a r, s <> a ++ 32 :: 32 :: r).
Proof.
  intros H. destruct s as [|c s]; [repeat split; try constructor|].
  - intros r Hr. discriminate.
  - intros a Ha. now destruct a.
  - intros a r Ha. now destruct a.
  - unfold key_ok in H. repeat split.
    + eapply key_shape_chars, H.
    + intros r Hr. rewrite Hr in H. discriminate.
    + intros a Ha. rewrite Ha, key_shape_no_trailing in H. discriminate.
    + intros a r Ha. rewrite Ha, key_shape_no_double in H. discriminate.
Qed.

Lemma latin1_laws : UnicodeLaws latin1.
Proof.
  split.
  - intros s. simpl. induction s as [|c s IH]; [reflexivity|].
    simpl. intros H. apply andb_true_iff in H as [Hc Hs]. rewrite (IH Hs).
    unfold latin1_decompose. replace (c <? 192) with true; [reflexivity|].
    symmetry. apply N.ltb_lt. apply is_ascii_spec in Hc. lia.
  - intros s. simpl. induction s as [|c s IH]; [reflexivity|].
    simpl. intros H. apply andb_true_iff in H as [Hc Hs]. rewrite (IH Hs).
    f_equal. unfold latin1_lower, ascii_lower.
    destruct (is_upper c); [reflexivity|].
    replace (192 <=? c) with false; [reflexivity|].
    symmetry. apply N.leb_gt. apply is_ascii_spec in Hc. lia.
  - reflexivity.
Qed.

(** C3: the primary normaliser is defined on every value (missing values
    and the empty text give the empty key), applying it twice gives what
    applying it once gives, its result is made of words of the letters a to z
    separated by single spaces with no space at either end, and two texts
    whose decompositions differ only by accent marks, letter case or
    punctuation have the same key. *)
Theorem normalize_name_total_idempotent
    (U : Unicode) (HU : UnicodeLaws U) (F : FloatText) :
  (forall v, normalize_name (Str (normalize_name v)) = normalize_name v)
  /\ (forall v, key_ok (normalize_name v) = true)
  /\ normalize_name PNone = []
  /\ normalize_name NaN = []
  /\ normalize_name (Str []) = []
  /\ (forall x y, same_name (nfd x) (nfd y) ->
                  normalize_name (Str x) = normalize_name (Str y)).
Proof.
  split; [apply normalize_name_idempotent|].
  split; [apply normalize_name_key_ok|].
  repeat split. apply normalize_name_same.
Qed.

(** "José Ángel" and "jose angel". *)
Definition jose_angel_accented : pystr :=
  [74; 111; 115; 233; 32; 193; 110; 103; 101; 108].

Lemma normalize_name_total_idempotent_witness :
  normalize_name (U := latin1) (F := decimal_text) (Str jose_angel_accented)
  = normalize_name (U := latin1) (F := decimal_text) (Str (str "jose angel")).
Proof.
  apply (normalize_name_total_idempotent latin1 latin1_laws decimal_text).
  vm_compute.
  repeat first
    [ apply same_nil
    | apply same_char
    | apply same_case; [reflexivity | reflexivity | reflexivity | ]
    | apply same_mark_l; [reflexivity | ] ].
Defined.

(** ** C4: the two normalisers *)

Section TwoNormalizers.
Context {U : Unicode} {HU : UnicodeLaws U} {F : FloatText}.

(** On ASCII text the primary normaliser needs no Unicode table. *)
Lemma normalize_name_ascii s :
  forallb is_ascii s = true ->
  normalize_name (Str s)
  = join (split (keep_letters_spaces (List.map ascii_lower s))).
Proof.
  intros H. rewrite normalize_name_text. unfold steps.
  rewrite (nfd_ascii _ H). unfold encode_ascii_ignore.
  now rewrite (filter_all _ _ H), (str_lower_ascii _ H).
Qed.

Lemma remove_digits_ascii s :
  forallb is_ascii s = true -> forallb is_ascii (remove_digits s) = true.
Proof.
  unfold remove_digits. induction s as [|c s IH]; [reflexivity|].
  simpl. intros H. apply andb_true_iff in H as [Hc Hs].
  destruct (negb (is_decimal c)); simpl; rewrite ?Hc; auto.
Qed.

Lemma merger_normalize_name_ascii s :
  forallb is_ascii s = true ->
  merger_normalize_name (Str s) = normalize_name (Str (remove_digits s)).
Proof.
  intros H. pose proof (remove_digits_ascii _ H) as Hd.
  rewrite (normalize_name_ascii _ Hd). unfold merger_normalize_name.
  simpl. destruct s as [|c s]; [reflexivity|].
  now rewrite (str_lower_ascii _ Hd).
Qed.
End TwoNormalizers.

(** C4, as the code has it: on every ASCII text the normaliser of the salary
    merge gives the key the primary normaliser gives for the text with its
    digits removed; on ASCII text without digits both give the same key. *)
Theorem merger_normalize_name_refines
    (U : Unicode) (HU : UnicodeLaws U) (F : FloatText) (x : pystr) :
  forallb is_ascii x = true ->
  merger_normalize_name (Str x) = normalize_name (Str (remove_digits x))
  /\ (remove_digits x = x ->
      merger_normalize_name (Str x) = normalize_name (Str x)).
Proof.
  intros H. split.
  - now apply merger_normalize_name_ascii.
  - intros Hx. rewrite <- Hx at 2. now apply merger_normalize_name_ascii.
Qed.

Lemma merger_normalize_name_refines_witness :
  merger_normalize_name (U := latin1) (F := decimal_text)
    (Str (str "23 LeBron James Jr."))
  = normalize_name (U := latin1) (F := decimal_text)
      (Str (remove_digits (U := latin1) (str "23 LeBron James Jr."))).
Proof.
  exact (proj1 (merger_normalize_name_refines latin1 latin1_laws decimal_text
                  (str "23 LeBron James Jr.") eq_refl)).
Defined.

(** "José" has no digit; the salary merge's normaliser deletes the accented
    letter, the primary one keeps its base letter. *)
Definition jose : pystr := [74; 111; 115; 233].

Lemma merger_normalize_name_accent_counterexample :
  ~ (forall x : pystr,
       merger_normalize_name (U := latin1) (F := decimal_text) (Str x)
       = normalize_name (U := latin1) (F := decimal_text)
           (Str (remove_digits (U := latin1) x))).
Proof.
  intros H. specialize (H jose). vm_compute in H. discriminate H.
Qed.

Example jose_keys :
  remove_digits (U := latin1) jose = jose
  /\ merger_normalize_name (U := latin1) (F := decimal_text) (Str jose)
     = str "jos"
  /\ normalize_name (U := latin1) (F := decimal_text) (Str jose) = str "jose".
Proof. repeat split. Qed.

(** ** C1: a key made from a slug without space *)

Definition lebron_cn : pystr := [21202; 24067; 26391; 45; 35449; 22982; 26031].

(** C1, at the input of the scenario: the Name Map built from the slug
    "lebronjames" has the key "lebronjames"; the primary normaliser turns
    "LeBron James" into "lebron james", which is not in the map, and the
    matching loop leaves the localised name empty. *)
Theorem slug_key_not_matched
    (U : Unicode) (HU : UnicodeLaws U) (F : FloatText) :
  let name_mapping := hupu_add_row ∅ lebron_cn (str "lebronjames") in
  name_mapping = {[ str "lebronjames" := (lebron_cn, str "lebronjames") ]}
  /\ normalize_name (Str (str "LeBron James")) = str "lebron james"
  /\ match_chinese_names name_mapping [Str (str "LeBron James")] = ([[]], 0%nat).
Proof.
  assert (Hslug : normalize_name (Str (str "lebronjames")) = str "lebronjames")
    by now rewrite normalize_name_ascii.
  assert (Hname : normalize_name (Str (str "LeBron James")) = str "lebron james")
    by now rewrite normalize_name_ascii.
  assert (Hmap : hupu_add_row ∅ lebron_cn (str "lebronjames")
                 = {[ str "lebronjames" := (lebron_cn, str "lebronjames") ]}).
  { unfold hupu_add_row.
    change (replace_char 45 32 (str "lebronjames")) with (str "lebronjames").
    now rewrite Hslug. }
  simpl. rewrite Hmap. split; [reflexivity|]. split; [exact Hname|].
  unfold match_chinese_names, match_step. simpl. rewrite Hname.
  rewrite lookup_singleton_ne; [reflexivity|]. discriminate.
Qed.

Lemma slug_key_not_matched_witness :
  match_chinese_names (U := latin1) (F := decimal_text)
    (hupu_add_row (U := latin1) (F := decimal_text) ∅ lebron_cn
       (str "lebronjames"))
    [Str (str "LeBron James")]
  = ([[]], 0%nat).
Proof.
  apply (slug_key_not_matched latin1 latin1_laws decimal_text).
Defined.

(** ** C5: building the Name Map *)

Section NameMap.
Context {U : Unicode} {F : FloatText}.

Lemma load_manual_lookup (table : list (pystr * pystr))
    (m : gmap pystr (pystr * pystr)) (k : pystr) :
  load_manual m table !! k
  = match m !! k with Some v => Some v | None => first_manual k table end.
Proof.
  revert m. induction table as [|[en cn] table IH]; intros m.
  - simpl. now destruct (m !! k).
  - change (load_manual m ((en, cn) :: table))
      with (load_manual (add_manual m (en, cn)) table).
    rewrite IH. unfold add_manual. simpl.
    destruct (m !! normalize_name (Str en)) eqn:Hen.
    + destruct (m !! k) eqn:Hk; [reflexivity|].
      case_bool_decide as Heq; [|reflexivity]. congruence.
    + destruct (nonempty (normalize_name (Str en))) eqn:Hne.
      * destruct (decide (normalize_name (Str en) = k)) as [Heq|Hneq].
        -- subst k. rewrite lookup_insert_eq, Hen, Hne.
           now rewrite bool_decide_eq_true_2.
        -- rewrite lookup_insert_ne by exact Hneq.
           now rewrite (bool_decide_eq_false_2 _ Hneq).
      * destruct (m !! k) eqn:Hk; [reflexivity|].
        case_bool_decide as Heq; [|reflexivity]. subst k. now rewrite Hne.
Qed.

Lemma add_player_assigns m p en cn :
  displayNameEn p = Some en -> displayName p = Some cn ->
  nonempty en = true -> nonempty cn = true ->
  nonempty (normalize_name (Str en)) = true ->
  add_player m p !! normalize_name (Str en) = Some (cn, en).
Proof.
  intros Hen Hcn H1 H2 H3. unfold add_player.
  rewrite Hen, Hcn, H1, H2, H3. simpl. apply lookup_insert_eq.
Qed.
End NameMap.

(** C5, as the code has it: the manual table never changes a key the map
    already has, whether the key came from the officially-sourced mapping or
    from an earlier manual entry, so it contributes only keys absent from
    the official mapping, each with its first entry; inside the official
    loader an entry is stored by assignment, whatever the map held for its
    key. *)
Theorem name_map_manual_first_writer (U : Unicode) (F : FloatText) :
  (forall replies k v,
     fetch_nba_china_names replies !! k = Some v ->
     load_player_names_mapping replies !! k = Some v)
  /\ (forall replies k,
        fetch_nba_china_names replies !! k = None ->
        load_player_names_mapping replies !! k = first_manual k manual_dict)
  /\ (forall m earlier later k v,
        load_manual m earlier !! k = Some v ->
        load_manual m (earlier ++ later) !! k = Some v)
  /\ (forall m p en cn,
        displayNameEn p = Some en -> displayName p = Some cn ->
        nonempty en = true -> nonempty cn = true ->
        nonempty (normalize_name (Str en)) = true ->
        add_player m p !! normalize_name (Str en) = Some (cn, en)).
Proof.
  repeat split.
  - intros replies k v H. unfold load_player_names_mapping.
    now rewrite load_manual_lookup, H.
  - intros replies k H. unfold load_player_names_mapping.
    now rewrite load_manual_lookup, H.
  - intros m earlier later k v H. unfold load_manual.
    rewrite foldl_app. fold (load_manual m earlier).
    fold (load_manual (load_manual m earlier) later).
    now rewrite load_manual_lookup, H.
  - apply add_player_assigns.
Qed.

(** Two seasons list the same player under two localised names. *)
Definition season_a : season_reply :=
  Reply 200 [ {| displayNameEn := Some (str "LeBron James");
                 displayName := Some lebron_cn |} ].
Definition season_b : season_reply :=
  Reply 200 [ {| displayNameEn := Some (str "LeBron James");
                 displayName := Some [35449; 22982; 26031] |} ].

Lemma lebron_key :
  normalize_name (U := latin1) (F := decimal_text) (Str (str "LeBron James"))
  = str "lebron james".
Proof. vm_compute. reflexivity. Qed.

Lemma add_player_insert {U : Unicode} {F : FloatText} m en cn :
  nonempty en = true -> nonempty cn = true ->
  nonempty (normalize_name (Str en)) = true ->
  add_player m {| displayNameEn := Some en; displayName := Some cn |}
  = <[normalize_name (Str en) := (cn, en)]> m.
Proof.
  intros H1 H2 H3. unfold add_player.
  cbn [displayNameEn displayName]. now rewrite H1, H2, H3.
Qed.

Lemma fetch_season_a :
  fetch_nba_china_names (U := latin1) (F := decimal_text) [season_a]
  = {[ str "lebron james" := (lebron_cn, str "LeBron James") ]}.
Proof.
  unfold fetch_nba_china_names, season_a. cbn [foldl add_season].
  rewrite add_player_insert; [|reflexivity|reflexivity|now rewrite lebron_key].
  rewrite lebron_key. apply insert_empty.
Qed.

Lemma fetch_season_a_b :
  fetch_nba_china_names (U := latin1) (F := decimal_text) [season_a; season_b]
  = {[ str "lebron james" := ([35449; 22982; 26031], str "LeBron James") ]}.
Proof.
  change [season_a; season_b] with ([season_a] ++ [season_b]).
  unfold fetch_nba_china_names. rewrite foldl_app.
  fold (fetch_nba_china_names (U := latin1) (F := decimal_text) [season_a]).
  rewrite fetch_season_a. unfold season_b. cbn [foldl add_season].
  rewrite add_player_insert; [|reflexivity|reflexivity|now rewrite lebron_key].
  rewrite lebron_key. apply insert_singleton_eq.
Qed.

Lemma name_map_manual_first_writer_witness :
  load_player_names_mapping (U := latin1) (F := decimal_text) [season_a]
    !! str "lebron james"
  = Some (lebron_cn, str "LeBron James").
Proof.
  refine (proj1 (name_map_manual_first_writer latin1 decimal_text)
            [season_a] _ _ _).
  rewrite fetch_season_a. apply lookup_singleton_eq.
Defined.

Lemma name_map_later_season_counterexample :
  ~ (forall earlier later k v,
       fetch_nba_china_names (U := latin1) (F := decimal_text) earlier !! k
       = Some v ->
       fetch_nba_china_names (U := latin1) (F := decimal_text)
         (earlier ++ later) !! k = Some v).
Proof.
  intros H.
  specialize (H [season_a] [season_b] (str "lebron james")
                (lebron_cn, str "LeBron James")).
  change ([season_a] ++ [season_b]) with [season_a; season_b] in H.
  rewrite fetch_season_a, fetch_season_a_b, !lookup_singleton_eq in H.
  specialize (H eq_refl). discriminate H.
Qed.

(** ** C2: the two stages of find_salary *)

Lemma last_word_cases k :
  (split k = [] /\ surname k = None /\ last_word k = [])
  \/ (exists w, surname k = Some w /\ last_word k = w /\ nonempty w = true).
Proof.
  unfold surname, last_word. pose proof (split_words k) as Hw.
  induction (split k) as [|w ws IH]; [now left|]. right.
  simpl in Hw. apply andb_true_iff in Hw as [Hw Hws].
  destruct ws as [|w2 ws].
  - exists w. repeat split. unfold is_word in Hw.
    now apply andb_true_iff in Hw as [Hne _].
  - destruct (IH Hws) as [(E & _ & _)|(w' & H1 & H2 & H3)]; [discriminate|].
    exists w'. repeat split; assumption.
Qed.

Lemma first_initial_cases k :
  (split k = [] /\ initial k = None /\ first_initial k = [])
  \/ (exists c, initial k = Some c /\ first_initial k = [c]).
Proof.
  unfold initial, first_initial. pose proof (split_words k) as Hw.
  destruct (split k) as [|w ws]; [now left|]. right.
  simpl in Hw. apply andb_true_iff in Hw as [Hw _].
  unfold is_word in Hw. apply andb_true_iff in Hw as [Hne _].
  destruct w as [|c w]; [discriminate|]. now exists c.
Qed.

Lemma key_cases k :
  (surname k = None /\ last_word k = []
   /\ initial k = None /\ first_initial k = [])
  \/ (exists w c, surname k = Some w /\ last_word k = w /\ nonempty w = true
                  /\ initial k = Some c /\ first_initial k = [c]).
Proof.
  destruct (last_word_cases k) as [(E & Hs & Hl)|(w & Hs & Hl & Hw)].
  - left. unfold initial, first_initial. now rewrite E.
  - right. destruct (first_initial_cases k) as [(E & _ & _)|(c & Hi & Hf)].
    + unfold surname in Hs. rewrite E in Hs. discriminate.
    + now exists w, c.
Qed.

(** The test the loop of find_salary makes on one candidate, with its empty
    defaults, is equality of surnames and of initials. *)
Lemma candidate_test n k :
  (nonempty (last_word n) && nonempty (last_word k)
   && bool_decide (last_word n = last_word k))
  && bool_decide (first_initial n = first_initial k)
  = surname_initial_match n k.
Proof.
  unfold surname_initial_match.
  destruct (key_cases n) as [(Hs & Hl & Hi & Hf)|(a & c & Hs & Hl & Ha & Hi & Hf)];
    rewrite ?Hs, ?Hl, ?Hi, ?Hf; [reflexivity|].
  destruct (key_cases k) as [(Hs' & Hl' & Hi' & Hf')
                            |(b & d & Hs' & Hl' & Hb & Hi' & Hf')];
    rewrite ?Hs', ?Hl', ?Hi', ?Hf'.
  - rewrite ?Ha. reflexivity.
  - rewrite Ha, Hb. simpl. f_equal.
    apply bool_decide_ext. split; congruence.
Qed.

Lemma partial_match_find n items :
  partial_match n items
  = match List.find (fun item => surname_initial_match n (fst item)) items with
    | Some (_, salary) => salary
    | None => Str []
    end.
Proof.
  induction items as [|[k v] items IH]; [reflexivity|].
  simpl. rewrite <- candidate_test, IH.
  destruct (nonempty (last_word n) && nonempty (last_word k)
            && bool_decide (last_word n = last_word k)); simpl; [|reflexivity].
  now destruct (bool_decide (first_initial n = first_initial k)).
Qed.

(** C2: when the normalised key is in the secondary map its value is
    returned, whatever the fallback would find; otherwise the value of the
    first item, in the order of the map, with the same surname and the same
    initial is returned, and the empty text when there is none. *)
Theorem find_salary_stages
    (U : Unicode) (F : FloatText)
    (salary_map : list (pystr * cell)) (english_name : cell) :
  let norm_name := merger_normalize_name english_name in
  (forall salary,
     dict_get norm_name salary_map = Some salary ->
     find_salary salary_map english_name = salary)
  /\ (dict_get norm_name salary_map = None ->
      find_salary salary_map english_name
      = match List.find
                (fun item => surname_initial_match norm_name (fst item))
                salary_map with
        | Some (_, salary) => salary
        | None => Str []
        end).
Proof.
  simpl. unfold find_salary. split.
  - intros salary H. now rewrite H.
  - intros H. rewrite H. apply partial_match_find.
Qed.

(** Exact match wins over an earlier fallback candidate; the fallback takes
    the first of two candidates; no candidate gives the empty text. *)
Definition salaries : list (pystr * cell) :=
  [ (str "jaylen brown", Str (str "$1"));
    (str "jalen brown", Str (str "$2"));
    (str "bruce brown", Str (str "$3")) ].

Example find_salary_examples :
  find_salary (U := latin1) (F := decimal_text) salaries
    (Str (str "Jalen Brown")) = Str (str "$2")
  /\ find_salary (U := latin1) (F := decimal_text) salaries
       (Str (str "J. Brown")) = Str (str "$1")
  /\ find_salary (U := latin1) (F := decimal_text) salaries
       (Str (str "Kobe Brown")) = Str []
  /\ find_salary (U := latin1) (F := decimal_text) salaries NaN = Str [].
Proof. repeat split. Qed.

(** ** Columns of a frame *)

Lemma assoc_get_set_eq label values l :
  assoc_get label (assoc_set label values l) = Some values.
Proof.
  induction l as [|[k v] l IH]; simpl.
  - now rewrite decide_True.
  - destruct (decide (k = label)) as [->|Hne]; simpl.
    + now rewrite decide_True.
    + now rewrite decide_False.
Qed.

Lemma assoc_get_set_ne label label' values l :
  label <> label' ->
  assoc_get label' (assoc_set label values l) = assoc_get label' l.
Proof.
  intros Hne. induction l as [|[k v] l IH]; simpl.
  - now rewrite decide_False.
  - destruct (decide (k = label)) as [->|Hk]; simpl.
    + now rewrite !decide_False.
    + now rewrite IH.
Qed.

Lemma assoc_get_drop label label' l :
  assoc_get label'
    (List.filter (fun c => negb (bool_decide (fst c = label))) l)
  = if decide (label' = label) then None else assoc_get label' l.
Proof.
  induction l as [|[k v] l IH]; simpl.
  - now destruct (decide (label' = label)).
  - case_bool_decide as Hk; simpl.
    + subst k. rewrite IH. destruct (decide (label' = label)) as [->|Hne].
      * reflexivity.
      * now rewrite decide_False.
    + rewrite IH. destruct (decide (k = label')) as [->|Hne].
      * now rewrite decide_False.
      * reflexivity.
Qed.

Lemma assoc_get_None label l :
  assoc_get label l = None <-> label ∉ List.map fst l.
Proof.
  induction l as [|[k v] l IH]; simpl.
  - split; [intros _; apply not_elem_of_nil|reflexivity].
  - rewrite not_elem_of_cons. destruct (decide (k = label)) as [->|Hne].
    + split; [discriminate|]. intros [H _]. congruence.
    + rewrite IH. split; [intros H; split; congruence|tauto].
Qed.

Lemma has_column_get label df :
  has_column label df = false <-> get_column label df = None.
Proof.
  unfold has_column, get_column, columns. split; intros H.
  - apply assoc_get_None. now apply bool_decide_eq_false in H.
  - apply bool_decide_eq_false. now apply assoc_get_None.
Qed.

Lemma columns_set label values l :
  List.map fst (assoc_set label values l)
  = if bool_decide (label ∈ List.map fst l) then List.map fst l
    else List.map fst l ++ [label].
Proof.
  induction l as [|[k v] l IH]; cbn [assoc_set List.map fst].
  - rewrite bool_decide_eq_false_2; [reflexivity|apply not_elem_of_nil].
  - destruct (decide (k = label)) as [->|Hne]; cbn [List.map fst].
    + rewrite bool_decide_eq_true_2; [reflexivity|apply list_elem_of_here].
    + rewrite IH. case_bool_decide as H1; case_bool_decide as H2;
        try reflexivity.
      * exfalso. apply H2. now apply list_elem_of_further.
      * exfalso. apply elem_of_cons in H2 as [H2|H2]; congruence.
Qed.

Lemma columns_drop (label : pystr) (l : list (pystr * list cell)) :
  List.map fst (List.filter (fun c => negb (bool_decide (fst c = label))) l)
  = List.filter (fun k => negb (bool_decide (k = label))) (List.map fst l).
Proof.
  induction l as [|[k v] l IH]; [reflexivity|]. simpl.
  destruct (negb (bool_decide (k = label))); simpl; now rewrite IH.
Qed.

(** ** C10: the frames merge_roster_with_salary returns *)

Lemma salary_not_helper : L_salary <> L_match_name.
Proof. discriminate. Qed.

(** C10, as the code has it: without the 英文名 column the primary frame is
    returned as it was; with it but without the Name column of the secondary
    frame, the primary frame is returned with the helper column set and every
    other column, the salary column included, as it was; when both are there
    the result has no helper column, its salary column holds what
    find_salary gives for each English name, and every column other than
    these two is as it was. *)
Theorem merge_roster_with_salary_columns
    (U : Unicode) (F : FloatText) (hupu_df espn_df : DataFrame) :
  let result := returned (merge_roster_with_salary hupu_df espn_df) in
  let keys := List.map (fun v => Str (merger_normalize_name v)) in
  (get_column L_english hupu_df = None -> result = hupu_df)
  /\ (forall english,
        get_column L_english hupu_df = Some english ->
        get_column L_Name espn_df = None ->
        result = set_column L_match_name (keys english) hupu_df
        /\ get_column L_match_name result = Some (keys english)
        /\ (forall label, label <> L_match_name ->
                          get_column label result = get_column label hupu_df))
  /\ (forall english names,
        get_column L_english hupu_df = Some english ->
        get_column L_Name espn_df = Some names ->
        get_column L_match_name result = None
        /\ get_column L_salary result
           = Some (List.map
                     (find_salary
                        (build_salary_map
                           (set_column L_match_name (keys names) espn_df)))
                     english)
        /\ nrows result = nrows hupu_df
        /\ (forall label, label <> L_match_name -> label <> L_salary ->
                          get_column label result = get_column label hupu_df)).
Proof.
  simpl. unfold merge_roster_with_salary. repeat split.
  - intros H. now rewrite H.
  - rewrite H, H0. reflexivity.
  - rewrite H, H0. simpl. unfold get_column. simpl. apply assoc_get_set_eq.
  - intros label Hl. rewrite H, H0. simpl. unfold get_column. simpl.
    now apply assoc_get_set_ne.
  - rewrite H, H0. simpl. unfold get_column. simpl.
    rewrite assoc_get_drop. now rewrite decide_True.
  - rewrite H, H0. simpl. unfold get_column. simpl.
    rewrite assoc_get_drop, decide_False by apply salary_not_helper.
    apply assoc_get_set_eq.
  - rewrite H, H0. reflexivity.
  - intros label H1 H2. rewrite H, H0. simpl. unfold get_column. simpl.
    rewrite assoc_get_drop, decide_False by exact H1.
    rewrite assoc_get_set_ne by congruence.
    now rewrite assoc_get_set_ne by congruence.
Qed.

(** A primary frame that already has a salary column. *)
Definition hupu_with_salary : DataFrame :=
  {| nrows := 1;
     cols := [ (L_english, [Str (str "LeBron James")]);
               (L_salary, [Str (str "old")]) ] |}.

Definition espn_one : DataFrame :=
  {| nrows := 1;
     cols := [ (L_Name, [Str (str "LeBron James")]);
               (L_Salary, [Str (str "$1")]) ] |}.

Lemma merge_roster_with_salary_columns_witness :
  get_column L_english
    (returned (merge_roster_with_salary (U := latin1) (F := decimal_text)
                 hupu_with_salary espn_one))
  = get_column L_english hupu_with_salary.
Proof.
  refine (proj2 (proj2 (proj2 (proj2 (proj2
            (merge_roster_with_salary_columns latin1 decimal_text
               hupu_with_salary espn_one)) _ _ eq_refl eq_refl)))
            L_english _ _); discriminate.
Defined.

Lemma merge_roster_with_salary_overwrites_counterexample :
  ~ (forall (hupu_df espn_df : DataFrame) (label : pystr),
       has_column L_english hupu_df = true ->
       has_column L_Name espn_df = true ->
       label <> L_match_name ->
       label ∈ columns hupu_df ->
       get_column label
         (returned (merge_roster_with_salary (U := latin1) (F := decimal_text)
                      hupu_df espn_df))
       = get_column label hupu_df).
Proof.
  intros H.
  specialize (H hupu_with_salary espn_one L_salary eq_refl eq_refl).
  assert (Hin : L_salary ∈ columns hupu_with_salary).
  { apply list_elem_of_further, list_elem_of_here. }
  specialize (H salary_not_helper Hin). vm_compute in H. discriminate H.
Qed.

(** ** C6: the retry loop of RequestHandler.get *)

Lemma retry_again server url remaining attempt :
  failed (server attempt) = true ->
  retry_loop server url (S remaining) attempt
  = (fst (retry_loop server url remaining (S attempt)),
     Dispatch url
     :: (if (attempt <? MAX_RETRIES - 1)%nat
         then [Sleep ((attempt + 1) * 2)] else [])
     ++ snd (retry_loop server url remaining (S attempt))).
Proof.
  intros H. simpl.
  destruct (retry_loop server url remaining (S attempt)) as [r trace].
  destruct (server attempt) as [r0| | | |]; try reflexivity; try discriminate.
  simpl in H. apply negb_true_iff in H. now rewrite H.
Qed.

Lemma retry_success server url remaining attempt r :
  server attempt = Responded r -> status_code r = 200%Z ->
  retry_loop server url (S remaining) attempt = (Got (Some r), [Dispatch url]).
Proof.
  intros H1 H2. simpl. rewrite H1, H2. simpl.
  now destruct (retry_loop server url remaining (S attempt)).
Qed.

Lemma retry_dispatches server url remaining attempt :
  (dispatches (snd (retry_loop server url remaining attempt)) <= remaining)%nat.
Proof.
  revert attempt. induction remaining as [|n IH]; intros attempt;
    [vm_compute; lia|].
  destruct (failed (server attempt)) eqn:Hf.
  - rewrite (retry_again _ _ _ _ Hf). specialize (IH (S attempt)).
    cbn [snd].
    destruct (attempt <? MAX_RETRIES - 1)%nat;
      [ change (dispatches (Dispatch url :: [Sleep ((attempt + 1) * 2)]
                            ++ snd (retry_loop server url n (S attempt))))
          with (S (dispatches (snd (retry_loop server url n (S attempt)))))
      | change (dispatches (Dispatch url :: []
                            ++ snd (retry_loop server url n (S attempt))))
          with (S (dispatches (snd (retry_loop server url n (S attempt))))) ];
      lia.
  - simpl. destruct (retry_loop server url n (S attempt)) as [r trace].
    destruct (server attempt) as [r0| | | |]; try discriminate.
    + simpl in Hf. apply negb_false_iff in Hf. rewrite Hf.
      change (1 <= S n)%nat. lia.
    + change (1 <= S n)%nat. lia.
Qed.

(** C6, as the code has it: one call dispatches at most 3 times; an attempt
    is followed by another exactly when it gave a status other than 200 or a
    requests exception (time-out, connection error or any other), with a
    sleep of 2 seconds after the first failure and 4 after the second; after
    a third failure the call returns None without a fourth dispatch, and a
    response with status 200 is returned as it is. *)
Theorem get_retries (server : nat -> attempt_outcome) (url : pystr) :
  let u := resolve_url url in
  (dispatches (snd (get server url)) <= 3)%nat
  /\ (forall r, server 0%nat = Responded r -> status_code r = 200%Z ->
        get server url = (Got (Some r), [Dispatch u]))
  /\ (forall r, failed (server 0%nat) = true ->
        server 1%nat = Responded r -> status_code r = 200%Z ->
        get server url = (Got (Some r), [Dispatch u; Sleep 2; Dispatch u]))
  /\ (forall r, failed (server 0%nat) = true -> failed (server 1%nat) = true ->
        server 2%nat = Responded r -> status_code r = 200%Z ->
        get server url
        = (Got (Some r),
           [Dispatch u; Sleep 2; Dispatch u; Sleep 4; Dispatch u]))
  /\ (failed (server 0%nat) = true -> failed (server 1%nat) = true ->
      failed (server 2%nat) = true ->
      get server url
      = (Got None, [Dispatch u; Sleep 2; Dispatch u; Sleep 4; Dispatch u])).
Proof.
  simpl. unfold get. change MAX_RETRIES with 3%nat. repeat split.
  - apply (retry_dispatches server (resolve_url url) 3 0).
  - intros r H1 H2. now apply retry_success.
  - intros r H0 H1 H2. rewrite (retry_again _ _ _ _ H0).
    now rewrite (retry_success _ _ _ _ _ H1 H2).
  - intros r H0 H1 H2 H3. rewrite (retry_again _ _ _ _ H0).
    rewrite (retry_again _ _ _ _ H1).
    now rewrite (retry_success _ _ _ _ _ H2 H3).
  - intros H0 H1 H2. rewrite (retry_again _ _ _ _ H0).
    rewrite (retry_again _ _ _ _ H1). now rewrite (retry_again _ _ _ _ H2).
Qed.

(** Three failures of the three kinds, then a success that is never asked
    for. *)
Definition flaky (k : nat) : attempt_outcome :=
  match k with
  | 0%nat => Timeout
  | 1%nat => ConnectionError
  | 2%nat => Responded {| status_code := 503; text := [] |}
  | _ => Responded {| status_code := 200; text := str "ok" |}
  end.

Lemma get_retries_witness :
  get flaky (str "/stats")
  = (Got None,
     [Dispatch (str "https://nba.hupu.com/stats"); Sleep 2;
      Dispatch (str "https://nba.hupu.com/stats"); Sleep 4;
      Dispatch (str "https://nba.hupu.com/stats")]).
Proof.
  exact (proj2 (proj2 (proj2 (proj2 (get_retries flaky (str "/stats")))))
           eq_refl eq_refl eq_refl).
Defined.

(** A server that answers 204 No Content. *)
Definition no_content (k : nat) : attempt_outcome :=
  Responded {| status_code := 204; text := [] |}.

Lemma get_2xx_counterexample :
  ~ (forall (server : nat -> attempt_outcome) (url : pystr) (r : response),
       server 0%nat = Responded r ->
       (200 <= status_code r < 300)%Z ->
       fst (get server url) = Got (Some r)).
Proof.
  intros H.
  specialize (H no_content (str "/stats") {| status_code := 204; text := [] |}
                eq_refl).
  assert (Hr : (200 <= 204 < 300)%Z) by lia.
  specialize (H Hr). vm_compute in H. discriminate H.
Qed.

Example get_no_content :
  get no_content (str "/stats")
  = (Got None,
     [Dispatch (str "https://nba.hupu.com/stats"); Sleep 2;
      Dispatch (str "https://nba.hupu.com/stats"); Sleep 4;
      Dispatch (str "https://nba.hupu.com/stats")]).
Proof. reflexivity. Qed.

(** ** C9: persisting an empty record set *)

(** C9: given an empty record set, as a list of records or as a frame,
    [save] returns None and the file system after the call is the one
    before it, so a file already at the target path keeps its content. *)
Theorem save_empty_skips
    (W : CsvWriter) (output_dir : pystr) (fs : gmap pystr (list N))
    (filename mode : pystr) :
  save output_dir fs (DataList []) filename mode = (Returned None, fs)
  /\ (forall l, frame_empty (from_records l) = true ->
        save output_dir fs (DataList l) filename mode = (Returned None, fs))
  /\ (forall df, frame_empty df = true ->
        save output_dir fs (DataTable df) filename mode = (Returned None, fs)).
Proof.
  repeat split.
  - intros l H. unfold save. now rewrite H.
  - intros df H. unfold save. now rewrite H.
Qed.

Definition one_file : gmap pystr (list N) :=
  {[ str "output/roster.csv" := str "old content" ]}.

Lemma save_empty_skips_witness :
  save (W := plain_csv (F := decimal_text)) (str "output") one_file
    (DataList [[]]) (str "roster.csv") (str "w")
  = (Returned None, one_file).
Proof.
  exact (proj1 (proj2 (save_empty_skips (plain_csv (F := decimal_text))
                         (str "output") one_file (str "roster.csv") (str "w")))
           [[]] eq_refl).
Defined.

(** ** C7: percentage parsing *)

Lemma remove_char_trailing c body :
  c ∉ body -> remove_char c (body ++ [c]) = body.
Proof.
  intros H. unfold remove_char. rewrite List.filter_app. simpl.
  rewrite N.eqb_refl. simpl. rewrite app_nil_r.
  apply filter_all. apply forallb_forall. intros x Hx.
  apply negb_true_iff, N.eqb_neq. intros ->. apply H.
  now apply list_elem_of_In.
Qed.

(** C7, as the code has it: a missing value gives None; a text with a
    percent sign has every percent sign removed and the rest parsed as it is
    (for a single trailing sign, the text before it); a text without one is
    parsed and multiplied by 100 exactly when the number is at most 1, a
    number above 1 being returned as parsed; a text that does not parse gives
    None. *)
Theorem parse_percentage_cases (F : FloatText) (value : cell) :
  (isna value = true -> _parse_percentage value = None)
  /\ (isna value = false -> 37 ∈ strip (py_str value) ->
      _parse_percentage value
      = py_float (remove_char 37 (strip (py_str value))))
  /\ (forall body, isna value = false ->
        strip (py_str value) = body ++ [37] -> 37 ∉ body ->
        _parse_percentage value = py_float body)
  /\ (forall num, isna value = false -> 37 ∉ strip (py_str value) ->
        py_float (strip (py_str value)) = Some num ->
        _parse_percentage value
        = Some (if PrimFloat.leb num 1 then PrimFloat.mul num 100 else num))
  /\ (isna value = false -> 37 ∉ strip (py_str value) ->
      py_float (strip (py_str value)) = None ->
      _parse_percentage value = None).
Proof.
  unfold _parse_percentage. repeat split.
  - intros H. now rewrite H.
  - intros H Hin. now rewrite H, (bool_decide_eq_true_2 _ Hin).
  - intros body H Hs Hb. rewrite H, Hs.
    rewrite bool_decide_eq_true_2
      by (apply elem_of_app; right; apply list_elem_of_here).
    now rewrite remove_char_trailing.
  - intros num H Hin Hf. rewrite H, (bool_decide_eq_false_2 _ Hin), Hf.
    now destruct (PrimFloat.leb num 1).
  - intros H Hin Hf. now rewrite H, (bool_decide_eq_false_2 _ Hin), Hf.
Qed.

(** The examples of the specification, and a negative number. *)
Example parse_percentage_examples :
  _parse_percentage (F := decimal_text) (Str (str "45.6%"))
  = Some 0x1.6cccccccccccdp+5%float
  /\ _parse_percentage (F := decimal_text) (Str (str "0.456"))
     = Some 0x1.6cccccccccccdp+5%float
  /\ _parse_percentage (F := decimal_text) (Str (str "1.5"))
     = Some 0x1.8p+0%float
  /\ _parse_percentage (F := decimal_text) (Str (str "-5"))
     = Some (-0x1.f4p+8)%float
  /\ _parse_percentage (F := decimal_text) (Str (str "n/a")) = None
  /\ _parse_percentage (F := decimal_text) NaN = None.
Proof. repeat split. Qed.

Lemma parse_percentage_cases_witness :
  _parse_percentage (F := decimal_text) (Str (str " 45.6% "))
  = decimal_literal (str "45.6").
Proof.
  refine (proj1 (proj2 (proj2 (parse_percentage_cases decimal_text
                                  (Str (str " 45.6% ")))))
            (str "45.6") eq_refl eq_refl _).
  intros H. vm_compute in H. repeat (apply elem_of_cons in H as [H|H];
    [discriminate H|]). now apply not_elem_of_nil in H.
Defined.

Lemma parse_percentage_magnitude_counterexample :
  ~ (forall (s : pystr) (num : float),
       37 ∉ strip s ->
       py_float (FloatText := decimal_text) (strip s) = Some num ->
       PrimFloat.ltb 1 (PrimFloat.abs num) = true ->
       _parse_percentage (F := decimal_text) (Str s) = Some num).
Proof.
  intros H. specialize (H (str "-5") (-5)%float).
  assert (Hin : 37 ∉ strip (str "-5")).
  { intros Hc. vm_compute in Hc.
    repeat (apply elem_of_cons in Hc as [Hc|Hc]; [discriminate Hc|]).
    now apply not_elem_of_nil in Hc. }
  specialize (H Hin eq_refl eq_refl). vm_compute in H. discriminate H.
Qed.

(** ** C8: de-duplication *)

Lemma first_rows_bounds seen keys i0 i :
  i ∈ first_rows seen keys i0 -> (i0 <= i < i0 + length keys)%nat.
Proof.
  revert seen i0. induction keys as [|k keys IH]; intros seen i0; simpl.
  - intros H. now apply not_elem_of_nil in H.
  - destruct (existsb (row_eqb k) seen).
    + intros H. apply IH in H. lia.
    + intros H. apply elem_of_cons in H as [->|H]; [lia|].
      apply IH in H. lia.
Qed.

Lemma first_rows_sorted seen keys i0 :
  StronglySorted lt (first_rows seen keys i0).
Proof.
  revert seen i0. induction keys as [|k keys IH]; intros seen i0; simpl.
  - constructor.
  - destruct (existsb (row_eqb k) seen); [apply IH|].
    constructor; [apply IH|]. apply Forall_forall. intros j Hj.
    apply first_rows_bounds in Hj. lia.
Qed.

Lemma first_rows_spec seen keys i0 p :
  (i0 + p)%nat ∈ first_rows seen keys i0 <->
  exists kp, keys !! p = Some kp /\ existsb (row_eqb kp) seen = false
    /\ forall q kq, (q < p)%nat -> (i0 + q)%nat ∈ first_rows seen keys i0 ->
                    keys !! q = Some kq -> row_eqb kp kq = false.
Proof.
  revert seen i0 p. induction keys as [|k keys IH]; intros seen i0 p.
  - simpl. split.
    + intros H. now apply not_elem_of_nil in H.
    + intros (kp & H & _). discriminate H.
  - simpl. destruct (existsb (row_eqb k) seen) eqn:Hk.
    + destruct p as [|p].
      * split.
        -- intros H. apply first_rows_bounds in H. lia.
        -- intros (kp & H & Hs & _). simpl in H. injection H as <-. congruence.
      * replace (i0 + S p)%nat with (S i0 + p)%nat by lia. rewrite IH.
        split; intros (kp & H & Hs & Hq); exists kp; (split; [exact H|]);
          (split; [exact Hs|]).
        -- intros [|q] kq Hlt Hin Hkq.
           ++ rewrite Nat.add_0_r in Hin. apply first_rows_bounds in Hin. lia.
           ++ apply (Hq q kq); [lia| |exact Hkq].
              now replace (S i0 + q)%nat with (i0 + S q)%nat by lia.
        -- intros q kq Hlt Hin Hkq. apply (Hq (S q) kq); [lia| |exact Hkq].
           now replace (i0 + S q)%nat with (S i0 + q)%nat by lia.
    + destruct p as [|p].
      * rewrite Nat.add_0_r. split.
        -- intros _. exists k. repeat split; [exact Hk|]. intros q kq Hlt. lia.
        -- intros _. apply list_elem_of_here.
      * replace (i0 + S p)%nat with (S i0 + p)%nat by lia.
        rewrite elem_of_cons, IH. split.
        -- intros [Heq|(kp & H & Hs & Hq)]; [lia|]. exists kp.
           simpl in Hs. apply orb_false_iff in Hs as [Hs1 Hs2].
           split; [exact H|]. split; [exact Hs2|].
           intros [|q] kq Hlt Hin Hkq.
           ++ simpl in Hkq. injection Hkq as <-. exact Hs1.
           ++ apply (Hq q kq); [lia| |exact Hkq].
              apply elem_of_cons in Hin as [Hin|Hin]; [lia|].
              now replace (S i0 + q)%nat with (i0 + S q)%nat by lia.
        -- intros (kp & H & Hs & Hq). right. exists kp.
           split; [exact H|]. split.
           ++ simpl. rewrite Hs, orb_false_r.
              apply (Hq 0%nat k); [lia| |reflexivity].
              rewrite Nat.add_0_r. apply list_elem_of_here.
           ++ intros q kq Hlt Hin Hkq. apply (Hq (S q) kq); [lia| |exact Hkq].
              apply list_elem_of_further.
              now replace (i0 + S q)%nat with (S i0 + q)%nat by lia.
Qed.

Lemma first_rows_kept_first keys : kept_first keys (first_rows [] keys 0).
Proof.
  split; [apply first_rows_sorted|]. intros p.
  pose proof (first_rows_spec [] keys 0 p) as H. simpl in H. rewrite H.
  split; intros (kp & H1 & H2); exists kp; (split; [exact H1|]).
  - intros q kq Hlt Hin Hkq. destruct H2 as [_ H2]. now apply (H2 q kq).
  - split; [reflexivity|]. intros q kq Hlt Hin Hkq. now apply (H2 q kq).
Qed.

Lemma lookup_map {A B} (f : A -> B) (l : list A) i :
  List.map f l !! i = f <$> (l !! i).
Proof. change (List.map f l) with (f <$> l). apply list_lookup_fmap. Qed.

Lemma sorted_lookup_lt idx :
  StronglySorted lt idx ->
  forall a b i j, idx !! a = Some i -> idx !! b = Some j ->
                  (b < a)%nat -> (j < i)%nat.
Proof.
  induction 1 as [|x l Hs IH Hx]; intros a b i j Ha Hb Hlt.
  - discriminate Ha.
  - destruct a as [|a]; [lia|]. simpl in Ha. destruct b as [|b].
    + simpl in Hb. injection Hb as <-.
      rewrite Forall_forall in Hx. apply Hx.
      eapply list_elem_of_lookup_2, Ha.
    + simpl in Hb. apply (IH a b); [exact Ha|exact Hb|lia].
Qed.

Lemma nth_map_default {A B} (f : A -> B) (l : list A) a d d' :
  (a < length l)%nat -> nth a (List.map f l) d' = f (nth a l d).
Proof.
  intros H. rewrite (nth_indep _ d' (f d)) by (rewrite length_map; exact H).
  apply map_nth.
Qed.

Lemma map_nth_seq {A B} (g : A -> B) (l : list A) d :
  List.map (fun a => g (nth a l d)) (seq 0 (length l)) = List.map g l.
Proof.
  induction l as [|x l IH]; [reflexivity|].
  simpl. f_equal. rewrite <- seq_shift, List.map_map. exact IH.
Qed.

Lemma get_column_take label idx df :
  get_column label (take_rows idx df)
  = option_map (fun vs => List.map (fun i => nth i vs NaN) idx)
               (get_column label df).
Proof.
  unfold get_column, take_rows. simpl.
  induction (cols df) as [|[k v] l IH]; [reflexivity|].
  simpl. now destruct (decide (k = label)).
Qed.

Lemma columns_take idx df : columns (take_rows idx df) = columns df.
Proof.
  unfold columns, take_rows. simpl. rewrite List.map_map. reflexivity.
Qed.

Lemma row_values_take idx df a :
  (a < length idx)%nat ->
  row_values (take_rows idx df) a = row_values df (nth a idx 0%nat).
Proof.
  intros H. unfold row_values, take_rows. simpl. rewrite List.map_map.
  apply List.map_ext. intros c. simpl.
  exact (nth_map_default (fun i => nth i (snd c) NaN) idx a 0%nat NaN H).
Qed.

Lemma frame_rows_take idx df :
  frame_rows (take_rows idx df) = List.map (row_values df) idx.
Proof.
  unfold frame_rows. change (nrows (take_rows idx df)) with (length idx).
  rewrite <- (map_nth_seq (row_values df) idx 0%nat).
  apply List.map_ext_in. intros a Ha. apply in_seq in Ha.
  apply row_values_take. lia.
Qed.

Lemma frame_rows_lookup df i r :
  frame_rows df !! i = Some r <-> (i < nrows df)%nat /\ r = row_values df i.
Proof.
  unfold frame_rows. rewrite lookup_map. split.
  - intros H. destruct (seq 0 (nrows df) !! i) as [j|] eqn:E; [|discriminate].
    apply lookup_seq in E as [-> Hlt]. simpl in H. injection H as <-.
    now split.
  - intros [Hlt ->]. now rewrite (lookup_seq_lt _ _ _ Hlt).
Qed.

(** Rows that are equal agree on every column. *)
Lemma row_eqb_column df i j c :
  row_eqb (row_values df i) (row_values df j) = true ->
  In c (cols df) -> cell_eqb (nth i (snd c) NaN) (nth j (snd c) NaN) = true.
Proof.
  unfold row_values. induction (cols df) as [|c0 l IH]; [intros _ []|].
  simpl. intros H. apply andb_true_iff in H as [H0 H].
  intros [<-|Hin]; [exact H0|]. now apply IH.
Qed.

Lemma assoc_get_In label vs l :
  assoc_get label l = Some vs -> In (label, vs) l.
Proof.
  induction l as [|[k v] l IH]; [discriminate|]. simpl.
  destruct (decide (k = label)) as [->|Hne].
  - intros H. injection H as <-. now left.
  - intros H. right. now apply IH.
Qed.

(** The rows kept by [first_rows] on any keys that equal rows share are
    pairwise different. *)
Lemma take_first_no_equal_rows df keys :
  (forall i j ki kj, keys !! i = Some ki -> keys !! j = Some kj ->
     row_eqb (row_values df i) (row_values df j) = true ->
     row_eqb ki kj = true) ->
  no_equal_rows (take_rows (first_rows [] keys 0) df).
Proof.
  intros Hkeys a b ra rb Ha Hb Hlt.
  destruct (first_rows_kept_first keys) as [Hsorted Hkept].
  rewrite frame_rows_take, lookup_map in Ha, Hb.
  destruct (first_rows [] keys 0 !! a) as [i|] eqn:Ei; [|discriminate].
  destruct (first_rows [] keys 0 !! b) as [j|] eqn:Ej; [|discriminate].
  simpl in Ha, Hb. injection Ha as <-. injection Hb as <-.
  pose proof (sorted_lookup_lt _ Hsorted a b i j Ei Ej Hlt) as Hji.
  apply list_elem_of_lookup_2 in Ei, Ej.
  pose proof (proj1 (Hkept i) Ei) as (ki & Hki & Hfresh).
  pose proof (proj1 (Hkept j) Ej) as (kj & Hkj & _).
  specialize (Hfresh j kj Hji Ej Hkj).
  destruct (row_eqb (row_values df i) (row_values df j)) eqn:E; [|reflexivity].
  rewrite (Hkeys i j ki kj Hki Hkj E) in Hfresh. discriminate.
Qed.

Lemma drop_duplicates_no_equal_rows df : no_equal_rows (drop_duplicates df).
Proof.
  apply take_first_no_equal_rows. intros i j ki kj Hi Hj H.
  apply frame_rows_lookup in Hi as [_ ->], Hj as [_ ->]. exact H.
Qed.

Lemma columns_update label f df :
  columns (update_column label f df) = columns df.
Proof.
  unfold update_column. destruct (get_column label df) as [vs|] eqn:E;
    [|reflexivity].
  unfold columns, set_column. simpl. rewrite columns_set.
  rewrite bool_decide_eq_true_2; [reflexivity|].
  destruct (decide (label ∈ List.map fst (cols df))) as [Hin|Hout];
    [exact Hin|].
  apply assoc_get_None in Hout. unfold get_column in E. congruence.
Qed.

Lemma get_column_update_eq label f df :
  get_column label (update_column label f df)
  = option_map f (get_column label df).
Proof.
  unfold update_column. destruct (get_column label df) as [vs|] eqn:E.
  - unfold get_column, set_column. simpl. apply assoc_get_set_eq.
  - now rewrite E.
Qed.

Lemma get_column_update_ne label label' f df :
  label <> label' ->
  get_column label' (update_column label f df) = get_column label' df.
Proof.
  intros Hne. unfold update_column.
  destruct (get_column label df) as [vs|]; [|reflexivity].
  unfold get_column, set_column. simpl. now apply assoc_get_set_ne.
Qed.

Lemma nrows_update label f df : nrows (update_column label f df) = nrows df.
Proof. unfold update_column. now destruct (get_column label df). Qed.

Lemma has_column_columns label df df' :
  columns df' = columns df -> has_column label df' = has_column label df.
Proof. unfold has_column. now intros ->. Qed.

Lemma roster_prepared_columns data :
  columns (roster_prepared data) = columns (from_records data).
Proof.
  unfold roster_prepared, dropna_all.
  now rewrite !columns_update, columns_take.
Qed.

Lemma clean_roster_prepared data :
  data <> [] ->
  clean_roster data = drop_duplicates_subset L_player (roster_prepared data).
Proof. destruct data; [congruence|reflexivity]. Qed.

Lemma no_equal_rows_empty : no_equal_rows empty_frame.
Proof. intros a b ra rb Ha. discriminate Ha. Qed.

Lemma no_equal_rows_no_rows df : nrows df = 0%nat -> no_equal_rows df.
Proof.
  intros H a b ra rb Ha. unfold frame_rows in Ha. rewrite H in Ha.
  discriminate Ha.
Qed.

Lemma cell_eqb_refl v : cell_eqb v v = true.
Proof.
  destruct v as [| |s|x]; try reflexivity.
  - simpl. now apply bool_decide_eq_true_2.
  - simpl. unfold PrimFloat.is_nan. now destruct (PrimFloat.eqb x x).
Qed.

Lemma row_eqb_refl r : row_eqb r r = true.
Proof.
  induction r as [|v r IH]; [reflexivity|]. simpl.
  now rewrite cell_eqb_refl, IH.
Qed.

(** Every key has an equal key among those seen or among those kept. *)
Lemma first_rows_covers seen keys i0 p kp :
  keys !! p = Some kp ->
  existsb (row_eqb kp) seen = true
  \/ exists q kq, (i0 + q)%nat ∈ first_rows seen keys i0
                  /\ keys !! q = Some kq /\ row_eqb kp kq = true.
Proof.
  revert seen i0 p. induction keys as [|k keys IH]; intros seen i0 p Hp;
    [discriminate Hp|].
  destruct p as [|p].
  - simpl in Hp. injection Hp as ->. simpl.
    destruct (existsb (row_eqb kp) seen) eqn:E; [now left|]. right.
    exists 0%nat, kp. rewrite Nat.add_0_r.
    repeat split; [apply list_elem_of_here|apply row_eqb_refl].
  - simpl in Hp. simpl. destruct (existsb (row_eqb k) seen) eqn:E.
    + destruct (IH seen (S i0) p Hp) as [H|(q & kq & H1 & H2 & H3)];
        [now left|]. right. exists (S q), kq.
      replace (i0 + S q)%nat with (S i0 + q)%nat by lia. now repeat split.
    + destruct (IH (k :: seen) (S i0) p Hp) as [H|(q & kq & H1 & H2 & H3)].
      * simpl in H. apply orb_true_iff in H as [H|H]; [|now left]. right.
        exists 0%nat, k. rewrite Nat.add_0_r.
        repeat split; [apply list_elem_of_here|exact H].
      * right. exists (S q), kq.
        replace (i0 + S q)%nat with (S i0 + q)%nat by lia.
        repeat split; [now apply list_elem_of_further|exact H2|exact H3].
Qed.

Lemma drop_duplicates_rows_kept df : rows_kept df (drop_duplicates df).
Proof.
  intros r Hr. apply list_elem_of_lookup_1 in Hr as [p Hp].
  destruct (first_rows_covers [] (frame_rows df) 0 p r Hp)
    as [H|(q & kq & H1 & H2 & H3)]; [discriminate H|].
  exists kq. split; [|exact H3].
  unfold drop_duplicates. rewrite frame_rows_take.
  apply frame_rows_lookup in H2 as [_ ->].
  apply list_elem_of_In, in_map, list_elem_of_In. exact H1.
Qed.

(** What drop_duplicates on the identity column leaves. *)
Lemma drop_duplicates_subset_spec label df df' :
  drop_duplicates_subset label df = Some df' ->
  frame_empty df = true /\ df' = df
  \/ frame_empty df = false
     /\ exists ids idx,
          get_column label df = Some ids
          /\ df' = take_rows idx df
          /\ kept_first (List.map (fun v => [v]) ids) idx
          /\ no_equal_rows df'
          /\ (forall ids', get_column label df' = Some ids' ->
                           no_equal_values ids' /\ values_kept ids ids').
Proof.
  unfold drop_duplicates_subset. destruct (frame_empty df) eqn:Hempty.
  { intros H. injection H as <-. now left. }
  destruct (get_column label df) as [ids|] eqn:E; [|discriminate].
  intros H. injection H as <-. right. split; [reflexivity|].
  set (keys := List.map (fun v => [v]) ids).
  exists ids, (first_rows [] keys 0). split; [reflexivity|].
  split; [reflexivity|]. split; [apply first_rows_kept_first|].
  assert (Hkey : forall i ki, keys !! i = Some ki -> ki = [nth i ids NaN]).
  { intros i ki Hi. unfold keys in Hi. rewrite lookup_map in Hi.
    destruct (ids !! i) as [v|] eqn:Ev; [|discriminate].
    simpl in Hi. injection Hi as <-.
    now rewrite (nth_lookup_Some _ _ NaN _ Ev). }
  split.
  - apply take_first_no_equal_rows. intros i j ki kj Hi Hj H.
    rewrite (Hkey _ _ Hi), (Hkey _ _ Hj). simpl. rewrite andb_true_r.
    apply (row_eqb_column df i j (label, ids) H).
    now apply assoc_get_In.
  - intros ids' Hids'. rewrite get_column_take, E in Hids'. simpl in Hids'.
    injection Hids' as <-. split.
    + intros a b va vb Ha Hb Hlt. rewrite lookup_map in Ha, Hb.
      destruct (first_rows_kept_first keys) as [Hsorted Hkept].
      destruct (first_rows [] keys 0 !! a) as [i|] eqn:Ei; [|discriminate].
      destruct (first_rows [] keys 0 !! b) as [j|] eqn:Ej; [|discriminate].
      simpl in Ha, Hb. injection Ha as <-. injection Hb as <-.
      pose proof (sorted_lookup_lt _ Hsorted a b i j Ei Ej Hlt) as Hji.
      apply list_elem_of_lookup_2 in Ei, Ej.
      pose proof (proj1 (Hkept i) Ei) as (ki & Hki & Hfresh).
      pose proof (proj1 (Hkept j) Ej) as (kj & Hkj & _).
      specialize (Hfresh j kj Hji Ej Hkj).
      rewrite (Hkey _ _ Hki), (Hkey _ _ Hkj) in Hfresh. simpl in Hfresh.
      now rewrite andb_true_r in Hfresh.
    + intros v Hv. apply list_elem_of_lookup_1 in Hv as [p Hp].
      assert (Hkp : keys !! p = Some [v]).
      { unfold keys. rewrite lookup_map, Hp. reflexivity. }
      destruct (first_rows_covers [] keys 0 p [v] Hkp)
        as [H|(q & kq & H1 & H2 & H3)]; [discriminate H|].
      rewrite (Hkey _ _ H2) in H3. simpl in H3. rewrite andb_true_r in H3.
      exists (nth q ids NaN). split; [|exact H3].
      apply list_elem_of_In.
      apply (in_map (fun i => nth i ids NaN)). now apply list_elem_of_In.
Qed.

Lemma dropna_all_nrows df : (nrows (dropna_all df) <= nrows df)%nat.
Proof.
  unfold dropna_all. cbn [nrows take_rows].
  etransitivity; [apply filter_length_le|]. now rewrite length_seq.
Qed.

(** Without a column every row is without a value, and is dropped. *)
Lemma dropna_all_no_columns df :
  columns df = [] -> nrows (dropna_all df) = 0%nat.
Proof.
  intros H. unfold dropna_all. cbn [nrows take_rows].
  assert (Hc : cols df = []).
  { unfold columns in H. now destruct (cols df). }
  assert (Hf : forall l,
            List.filter (fun i => negb (forallb isna (row_values df i))) l
            = []).
  { intros l. induction l as [|i l IH]; [reflexivity|]. simpl.
    unfold row_values at 1. rewrite Hc. simpl. exact IH. }
  now rewrite Hf.
Qed.

Lemma roster_prepared_nrows data :
  nrows (roster_prepared data) = nrows (dropna_all (from_records data)).
Proof. unfold roster_prepared. now rewrite !nrows_update. Qed.

Lemma roster_prepared_empty data :
  frame_empty (roster_prepared data) = true ->
  nrows (roster_prepared data) = 0%nat.
Proof.
  intros H. unfold frame_empty in H.
  destruct (nrows (roster_prepared data)) as [|n] eqn:En; [reflexivity|].
  destruct (cols (roster_prepared data)) as [|c l] eqn:Ec; [|discriminate H].
  rewrite roster_prepared_nrows in En.
  rewrite dropna_all_no_columns in En; [discriminate En|].
  rewrite <- roster_prepared_columns. unfold columns. now rewrite Ec.
Qed.

Lemma roster_prepared_player data ids :
  get_column L_player (roster_prepared data) = Some ids ->
  length ids = nrows (roster_prepared data).
Proof.
  rewrite roster_prepared_nrows. unfold roster_prepared.
  rewrite get_column_update_ne by discriminate.
  rewrite get_column_update_eq. unfold dropna_all.
  rewrite get_column_take.
  destruct (get_column L_player (from_records data)) as [vs|];
    [|discriminate].
  cbn [option_map]. intros H. injection H as <-.
  now rewrite !length_map.
Qed.

Lemma clean_roster_total data :
  has_column L_player (from_records data) = true -> is_Some (clean_roster data).
Proof.
  intros H. destruct data as [|r data]; [now eexists|].
  rewrite clean_roster_prepared by congruence.
  unfold drop_duplicates_subset.
  destruct (frame_empty (roster_prepared (r :: data))); [now eexists|].
  destruct (get_column L_player (roster_prepared (r :: data))) eqn:E;
    [now eexists|].
  apply has_column_get in E.
  rewrite (has_column_columns _ _ _ (roster_prepared_columns _)) in E.
  congruence.
Qed.

Lemma clean_roster_raises data :
  clean_roster data = None <->
  data <> [] /\ frame_empty (roster_prepared data) = false
  /\ has_column L_player (from_records data) = false.
Proof.
  destruct data as [|r data].
  { split; [discriminate|]. intros [H _]. congruence. }
  rewrite clean_roster_prepared by congruence.
  rewrite <- (has_column_columns _ _ _ (roster_prepared_columns (r :: data))).
  unfold drop_duplicates_subset.
  destruct (frame_empty (roster_prepared (r :: data))).
  { split; [discriminate|]. intros (_ & H & _). discriminate H. }
  destruct (get_column L_player (roster_prepared (r :: data))) eqn:E.
  - split; [discriminate|]. intros (_ & _ & H).
    apply has_column_get in H. congruence.
  - split; [|reflexivity]. intros _. split; [congruence|].
    split; [reflexivity|]. now apply has_column_get.
Qed.

Section PlayerStats.
Context {F : FloatText} {P : PandasNumeric}.

Lemma clean_player_stats_prepared data category :
  data <> [] ->
  clean_player_stats data category
  = option_map drop_duplicates (player_stats_prepared data category).
Proof.
  destruct data as [|r data]; [congruence|]. intros _.
  unfold clean_player_stats, player_stats_prepared.
  now destruct (rank_to_Int64 _).
Qed.

Lemma columns_numeric cols0 df :
  columns (foldl (fun df col => update_column col to_numeric df) df cols0)
  = columns df.
Proof.
  revert df. induction cols0 as [|c cols0 IH]; intros df; [reflexivity|].
  simpl. now rewrite IH, columns_update.
Qed.

Lemma clean_player_stats_total data category :
  has_column L_rank (from_records data) = false ->
  is_Some (clean_player_stats data category).
Proof.
  intros H. destruct data as [|r data]; [now eexists|].
  unfold clean_player_stats, rank_to_Int64.
  match goal with
  | |- context [get_column L_rank ?d] =>
      assert (E : get_column L_rank d = None)
  end.
  { apply has_column_get. rewrite <- H. apply has_column_columns.
    unfold dropna_all. now rewrite columns_update, columns_numeric, columns_take. }
  rewrite E. now eexists.
Qed.
End PlayerStats.

(** C8: cleaning an empty record set returns an empty frame.  De-duplication
    keeps the rows at the positions where no kept row before is equal: the
    rows left are pairwise different and every row has an equal row among
    them.  clean_player_stats returns the de-duplication of the frame it has
    prepared from the records, so equal rows collapse into the first of them
    and a row equal to none before it stays.  clean_roster returns the frame
    it has prepared as it is when that frame is empty, and otherwise its rows
    at the positions where no kept row before has the same identity value:
    no identity value is left twice and every identity value of the prepared
    frame is left.  clean_player_stats returns a frame whenever the rank
    column is absent; clean_roster raises exactly when the prepared frame is
    not empty and the records have no identity field. *)
Theorem clean_removes_duplicates (F : FloatText) (P : PandasNumeric) :
  (forall category, clean_player_stats [] category = Some empty_frame)
  /\ clean_roster [] = Some empty_frame
  /\ (forall df,
        (exists idx,
           drop_duplicates df = take_rows idx df
           /\ kept_first (frame_rows df) idx)
        /\ no_equal_rows (drop_duplicates df)
        /\ rows_kept df (drop_duplicates df))
  /\ (forall data category,
        data <> [] ->
        clean_player_stats data category
        = option_map drop_duplicates (player_stats_prepared data category))
  /\ (forall data category df,
        clean_player_stats data category = Some df -> no_equal_rows df)
  /\ (forall data df,
        clean_roster data = Some df ->
        no_equal_rows df
        /\ (forall ids, get_column L_player df = Some ids ->
                        no_equal_values ids)
        /\ (data <> [] ->
            (frame_empty (roster_prepared data) = true
             /\ df = roster_prepared data)
            \/ (exists ids idx,
                  get_column L_player (roster_prepared data) = Some ids
                  /\ df = take_rows idx (roster_prepared data)
                  /\ kept_first (List.map (fun v => [v]) ids) idx
                  /\ forall ids', get_column L_player df = Some ids' ->
                                  values_kept ids ids')))
  /\ (forall data category,
        has_column L_rank (from_records data) = false ->
        is_Some (clean_player_stats data category))
  /\ (forall data,
        has_column L_player (from_records data) = true ->
        is_Some (clean_roster data))
  /\ (forall data,
        clean_roster data = None <->
        data <> [] /\ frame_empty (roster_prepared data) = false
        /\ has_column L_player (from_records data) = false).
Proof.
  split; [reflexivity|]. split; [reflexivity|].
  split.
  { intros df. split; [|split].
    - eexists. split; [reflexivity|]. apply first_rows_kept_first.
    - apply drop_duplicates_no_equal_rows.
    - apply drop_duplicates_rows_kept. }
  split; [intros data category; apply clean_player_stats_prepared|].
  split.
  { intros data category df H. destruct data as [|r data].
    - injection H as <-. apply no_equal_rows_empty.
    - rewrite clean_player_stats_prepared in H by congruence.
      destruct (player_stats_prepared (r :: data) category) as [prepared|];
        [|discriminate H].
      injection H as <-. apply drop_duplicates_no_equal_rows. }
  split.
  { intros data df H. destruct data as [|r data].
    - injection H as <-. split; [apply no_equal_rows_empty|].
      split; [intros ids Hids; discriminate Hids|congruence].
    - rewrite clean_roster_prepared in H by congruence.
      destruct (drop_duplicates_subset_spec _ _ _ H)
        as [[Hempty ->]|(Hfull & ids & idx & H1 & H2 & H3 & H4 & H5)].
      + pose proof (roster_prepared_empty _ Hempty) as Hn.
        split; [now apply no_equal_rows_no_rows|]. split.
        * intros ids Hids a b va vb Ha.
          apply roster_prepared_player in Hids. rewrite Hn in Hids.
          destruct ids; [discriminate Ha|discriminate Hids].
        * intros _. now left.
      + split; [exact H4|]. split; [intros ids' Hids'; apply (H5 _ Hids')|].
        intros _. right. exists ids, idx.
        split; [exact H1|]. split; [exact H2|]. split; [exact H3|].
        intros ids' Hids'. apply (H5 _ Hids'). }
  split; [apply clean_player_stats_total|].
  split; [apply clean_roster_total|apply clean_roster_raises].
Qed.

(** A roster with the same player listed twice, and a stat table with the
    same row twice. *)
Definition name_a : pystr := [35449; 22982; 26031].
Definition name_b : pystr := [24211; 37324].

Definition roster_twice : list record :=
  [ [(L_player, name_a); (L_english, str "LeBron James")];
    [(L_player, name_b); (L_english, str "Stephen Curry ")];
    [(L_player, name_a); (L_english, str "L. James")] ].

Definition stats_twice : list record :=
  [ [(L_player, name_a); (L_points, str "25.3")];
    [(L_player, name_a); (L_points, str "25.3")];
    [(L_player, name_b); (L_points, str "25.3")] ].

Definition roster_once : DataFrame :=
  {| nrows := 2;
     cols := [ (L_player, [Str name_a; Str name_b]);
               (L_english, [Str (str "LeBron James");
                            Str (str "Stephen Curry")]) ] |}.

Example clean_roster_twice : clean_roster roster_twice = Some roster_once.
Proof. reflexivity. Qed.

Example clean_player_stats_twice :
  option_map nrows
    (clean_player_stats (F := decimal_text) (P := decimal_numeric)
       stats_twice (str "pts")) = Some 2%nat.
Proof. reflexivity. Qed.

(** Records without any field: the prepared frame is empty and is
    returned. *)
Example clean_roster_no_field :
  clean_roster [[]] = Some {| nrows := 0; cols := [] |}.
Proof. reflexivity. Qed.

(** The three records of the roster leave two rows, one for each player. *)
Lemma clean_removes_duplicates_witness :
  no_equal_rows roster_once
  /\ no_equal_values [Str name_a; Str name_b].
Proof.
  pose proof (proj1 (proj2 (proj2 (proj2 (proj2 (proj2
                (clean_removes_duplicates decimal_text decimal_numeric))))))
                roster_twice roster_once eq_refl) as [H1 [H2 _]].
  split; [exact H1|]. apply H2. reflexivity.
Defined.

(** * Further properties of the code *)

(** ** data_merger.py: normalize_name *)

Section MergerNormalizer.
Context {U : Unicode} {HU : UnicodeLaws U} {F : FloatText}.

Lemma merger_normalize_name_words v :
  exists ws, merger_normalize_name v = join ws /\ forallb lower_word ws = true.
Proof.
  unfold merger_normalize_name. destruct (falsy v).
  - now exists [].
  - eexists. split; [reflexivity|].
    apply split_lower_words. apply forallb_filter_self.
Qed.

Lemma key_letters ws :
  forallb lower_word ws = true ->
  forallb (fun c => is_lower c || (c =? 32)) (join ws) = true.
Proof.
  intros Hws. apply forallb_join; [reflexivity|].
  eapply forallb_impl; [|exact Hws]. intros w Hw.
  unfold lower_word in Hw. apply andb_true_iff in Hw as [_ Hw].
  eapply forallb_impl; [|exact Hw]. intros c Hc. now rewrite Hc.
Qed.

Lemma key_ascii ws :
  forallb lower_word ws = true -> forallb is_ascii (join ws) = true.
Proof.
  intros Hws. eapply forallb_impl; [|exact (key_letters _ Hws)].
  intros c Hc. apply orb_true_iff in Hc as [Hc|Hc]; [now apply lower_ascii|].
  apply N.eqb_eq in Hc. now subst.
Qed.

Lemma key_no_digit ws :
  forallb lower_word ws = true -> remove_digits (join ws) = join ws.
Proof.
  intros Hws. unfold remove_digits. apply filter_all.
  eapply forallb_impl; [|exact (key_letters _ Hws)].
  intros c Hc. apply negb_true_iff.
  assert (Ha : is_ascii c = true).
  { apply orb_true_iff in Hc as [Hc|Hc]; [now apply lower_ascii|].
    apply N.eqb_eq in Hc. now subst. }
  rewrite (is_decimal_ascii _ Ha).
  apply orb_true_iff in Hc as [Hc|Hc].
  - classes.
  - apply N.eqb_eq in Hc. now subst.
Qed.

Lemma merger_key ws :
  forallb lower_word ws = true -> merger_normalize_name (Str (join ws)) = join ws.
Proof.
  intros Hws. unfold merger_normalize_name. simpl.
  destruct (join ws) eqn:E; [reflexivity|]. rewrite <- E.
  rewrite (key_no_digit _ Hws), (str_lower_ascii _ (key_ascii _ Hws)).
  rewrite (map_ascii_lower_id _ (key_letters _ Hws)).
  unfold keep_letters_spaces. rewrite filter_all.
  - rewrite split_join; [reflexivity|].
    eapply forallb_impl; [|exact Hws]. apply lower_word_is_word.
  - eapply forallb_impl; [|exact (key_letters _ Hws)]. intros c Hc.
    apply orb_true_iff in Hc as [Hc|Hc]; [now rewrite Hc|].
    apply N.eqb_eq in Hc. subst. now rewrite orb_true_r.
Qed.

Lemma primary_key ws :
  forallb lower_word ws = true -> normalize_name (Str (join ws)) = join ws.
Proof.
  intros Hws. rewrite normalize_name_text. now apply steps_key.
Qed.

Lemma remove_digits_twice s : remove_digits (remove_digits s) = remove_digits s.
Proof.
  unfold remove_digits. apply filter_all, forallb_filter_self.
Qed.

Lemma merger_ignores_digits x :
  merger_normalize_name (Str (remove_digits x)) = merger_normalize_name (Str x).
Proof.
  unfold merger_normalize_name. simpl. rewrite remove_digits_twice.
  destruct x as [|c x]; [reflexivity|].
  destruct (remove_digits (c :: x)) eqn:E; [|reflexivity].
  now rewrite (str_lower_ascii []).
Qed.
End MergerNormalizer.

(** X1: the normaliser of the salary merge gives keys of the same shape as
    the primary one, applying it to its own result changes nothing, each
    normaliser leaves the keys of the other as they are, and digits in a
    name do not change its key. *)
Theorem merger_normalize_name_key
    (U : Unicode) (HU : UnicodeLaws U) (F : FloatText) :
  (forall v, key_ok (merger_normalize_name v) = true)
  /\ (forall v, merger_normalize_name (Str (merger_normalize_name v))
                = merger_normalize_name v)
  /\ (forall v, normalize_name (Str (merger_normalize_name v))
                = merger_normalize_name v)
  /\ (forall v, merger_normalize_name (Str (normalize_name v))
                = normalize_name v)
  /\ (forall x, merger_normalize_name (Str (remove_digits x))
                = merger_normalize_name (Str x)).
Proof.
  repeat split.
  - intros v. destruct (merger_normalize_name_words v) as (ws & -> & Hws).
    now apply key_ok_join.
  - intros v. destruct (merger_normalize_name_words v) as (ws & -> & Hws).
    now apply merger_key.
  - intros v. destruct (merger_normalize_name_words v) as (ws & -> & Hws).
    now apply primary_key.
  - intros v. destruct (normalize_name_words v) as (ws & -> & Hws).
    now apply merger_key.
  - apply merger_ignores_digits.
Qed.

Lemma merger_normalize_name_key_witness :
  merger_normalize_name (U := latin1) (F := decimal_text)
    (Str (merger_normalize_name (U := latin1) (F := decimal_text)
            (Str (str "  23 O'Neal,  Shaquille "))))
  = merger_normalize_name (U := latin1) (F := decimal_text)
      (Str (str "  23 O'Neal,  Shaquille ")).
Proof.
  exact (proj1 (proj2 (merger_normalize_name_key latin1 latin1_laws
                         decimal_text)) _).
Defined.

(** ** add_chinese_names.py: what the Name Map holds *)

(** An entry as the loaders make them: the key is the key of the English
    name kept with it, neither the key nor the localised name is empty. *)
Definition entry_ok {U : Unicode} {F : FloatText}
    (k : pystr) (v : pystr * pystr) : Prop :=
  k = normalize_name (Str (snd v)) /\ nonempty k = true
  /\ nonempty (fst v) = true.

Section NameMapEntries.
Context {U : Unicode} {HU : UnicodeLaws U} {F : FloatText}.

Lemma add_player_ok m p :
  map_Forall entry_ok m -> map_Forall entry_ok (add_player m p).
Proof.
  intros Hm. unfold add_player.
  destruct (displayNameEn p) as [en|]; [|exact Hm].
  destruct (displayName p) as [cn|]; [|exact Hm].
  destruct (nonempty en && nonempty cn) eqn:E; [|exact Hm].
  destruct (nonempty (normalize_name (Str en))) eqn:Hk; [|exact Hm].
  apply andb_true_iff in E as [_ Hcn].
  apply map_Forall_insert_2; [|exact Hm]. now repeat split.
Qed.

Lemma add_season_ok m r :
  map_Forall entry_ok m -> map_Forall entry_ok (add_season m r).
Proof.
  intros Hm. destruct r as [status players|]; [|exact Hm].
  unfold add_season. destruct status as [|q|q]; try exact Hm.
  destruct (decide (q = 200%positive)) as [->|Hne].
  - revert m Hm. induction players as [|p players IH]; intros m Hm;
      [exact Hm|]. simpl. apply IH. now apply add_player_ok.
  - repeat (destruct q as [q|q|]; try exact Hm); congruence.
Qed.

Lemma fetch_ok replies : map_Forall entry_ok (fetch_nba_china_names replies).
Proof.
  unfold fetch_nba_china_names.
  assert (H : map_Forall entry_ok (∅ : gmap pystr (pystr * pystr)))
    by apply map_Forall_empty.
  revert H. generalize (∅ : gmap pystr (pystr * pystr)).
  induction replies as [|r replies IH]; intros m Hm; [exact Hm|].
  simpl. apply IH. now apply add_season_ok.
Qed.

Lemma load_manual_ok table m :
  forallb (fun e => nonempty (snd e)) table = true ->
  map_Forall entry_ok m -> map_Forall entry_ok (load_manual m table).
Proof.
  revert m. induction table as [|[en cn] table IH]; intros m Ht Hm;
    [exact Hm|].
  simpl in Ht. apply andb_true_iff in Ht as [Hcn Ht].
  change (load_manual m ((en, cn) :: table))
    with (load_manual (add_manual m (en, cn)) table).
  apply IH; [exact Ht|]. unfold add_manual.
  destruct (m !! normalize_name (Str en)); [exact Hm|].
  destruct (nonempty (normalize_name (Str en))) eqn:Hk; [|exact Hm].
  apply map_Forall_insert_2; [|exact Hm]. now repeat split.
Qed.

Lemma manual_names_nonempty :
  forallb (fun e : pystr * pystr => nonempty (snd e)) manual_dict = true.
Proof. reflexivity. Qed.

Lemma load_player_names_mapping_ok replies :
  map_Forall entry_ok (load_player_names_mapping replies).
Proof.
  unfold load_player_names_mapping.
  apply load_manual_ok; [apply manual_names_nonempty|apply fetch_ok].
Qed.

Lemma adam_flagler_key :
  normalize_name (Str (str "adam flagler")) = str "adam flagler".
Proof. now rewrite normalize_name_ascii. Qed.

Lemma load_player_names_mapping_adam replies :
  is_Some (load_player_names_mapping replies !! str "adam flagler").
Proof.
  unfold load_player_names_mapping. rewrite load_manual_lookup.
  destruct (fetch_nba_china_names replies !! str "adam flagler");
    [now eexists|].
  unfold manual_dict. cbn [first_manual]. rewrite adam_flagler_key.
  rewrite bool_decide_eq_true_2 by reflexivity. now eexists.
Qed.
End NameMapEntries.

(** X2: whatever the official site answers, every entry of the Name Map has
    for key the key of the English name stored with it, a key of the shape
    the normaliser gives and not empty, and a localised name that is not
    empty; and the map is never empty, the manual key "adam flagler" being
    always there, so the branch of add_chinese_names_to_nba_stats for an
    empty map is never taken. *)
Theorem name_map_entries
    (U : Unicode) (HU : UnicodeLaws U) (F : FloatText)
    (replies : list season_reply) :
  (forall k cn en,
     load_player_names_mapping replies !! k = Some (cn, en) ->
     k = normalize_name (Str en) /\ k <> [] /\ key_ok k = true /\ cn <> [])
  /\ is_Some (load_player_names_mapping replies !! str "adam flagler")
  /\ load_player_names_mapping replies <> ∅.
Proof.
  split; [|split].
  - intros k cn en H.
    destruct (load_player_names_mapping_ok replies k (cn, en) H)
      as (Hk & Hne & Hcn). cbn [fst snd] in Hk, Hne, Hcn. clear H.
    split; [exact Hk|]. split; [intros ->; discriminate Hne|].
    split; [rewrite Hk; apply normalize_name_key_ok|].
    intros ->. discriminate Hcn.
  - apply load_player_names_mapping_adam.
  - intros E. pose proof (load_player_names_mapping_adam replies) as [v Hv].
    rewrite E, lookup_empty in Hv. discriminate Hv.
Qed.

Lemma name_map_entries_witness :
  load_player_names_mapping (U := latin1) (F := decimal_text) [season_a; Failure]
  <> ∅.
Proof.
  exact (proj2 (proj2 (name_map_entries latin1 latin1_laws decimal_text
                         [season_a; Failure]))).
Defined.

(** ** add_chinese_names.py: the matching loop *)

(** The localised name the loop gives a player. *)
Definition localized {U : Unicode} {F : FloatText}
    (name_mapping : gmap pystr (pystr * pystr)) (player_name : cell) : pystr :=
  match name_mapping !! normalize_name player_name with
  | Some (chinese_name, _) => chinese_name
  | None => []
  end.

Definition known {U : Unicode} {F : FloatText}
    (name_mapping : gmap pystr (pystr * pystr)) (player_name : cell) : bool :=
  match name_mapping !! normalize_name player_name with
  | Some _ => true
  | None => false
  end.

Section Matching.
Context {U : Unicode} {F : FloatText}.

Lemma match_loop m players acc :
  foldl (match_step m) acc players
  = (fst acc ++ List.map (localized m) players,
     (snd acc + length (List.filter (known m) players))%nat).
Proof.
  revert acc. induction players as [|p players IH]; intros [names n].
  - simpl. now rewrite app_nil_r, Nat.add_0_r.
  - simpl. rewrite IH. unfold match_step, localized, known. simpl.
    destruct (m !! normalize_name p) as [[cn en]|]; simpl;
      rewrite <- app_assoc; simpl; f_equal; lia.
Qed.

Lemma localized_nonempty m p :
  map_Forall entry_ok m -> nonempty (localized m p) = known m p.
Proof.
  intros Hm. unfold localized, known.
  destruct (m !! normalize_name p) as [[cn en]|] eqn:E; [|reflexivity].
  now destruct (Hm _ _ E) as (_ & _ & Hcn).
Qed.

Lemma filter_map_length {A B} (f : A -> B) (P : B -> bool) (Q : A -> bool) l :
  (forall a, P (f a) = Q a) ->
  length (List.filter P (List.map f l)) = length (List.filter Q l).
Proof.
  intros H. induction l as [|a l IH]; [reflexivity|]. simpl.
  rewrite H. destruct (Q a); simpl; now rewrite IH.
Qed.
Lemma filter_split_length {A} (P : A -> bool) l :
  (length (List.filter P l)
   + length (List.filter (fun a => negb (P a)) l))%nat = length l.
Proof.
  induction l as [|a l IH]; [reflexivity|]. simpl.
  destruct (P a); simpl; lia.
Qed.
End Matching.

(** X3: the matching loop gives one localised name per player, in order;
    the count it keeps is the number of players whose key is in the Name
    Map, at most the number of players; and with a Name Map whose localised
    names are not empty, as the loaders build it, the count is the number of
    names left non-empty, so the players reported as unmatched are exactly
    those not counted. *)
Theorem match_chinese_names_counts
    (U : Unicode) (F : FloatText)
    (name_mapping : gmap pystr (pystr * pystr)) (players : list cell) :
  let result := match_chinese_names name_mapping players in
  fst result = List.map (localized name_mapping) players
  /\ length (fst result) = length players
  /\ snd result = length (List.filter (known name_mapping) players)
  /\ (snd result <= length players)%nat
  /\ (map_Forall entry_ok name_mapping ->
      snd result = length (List.filter nonempty (fst result))
      /\ (snd result
          + length (List.filter (fun s => negb (nonempty s)) (fst result))
          = length players)%nat).
Proof.
  simpl. unfold match_chinese_names. rewrite match_loop. simpl.
  split; [reflexivity|]. split; [apply length_map|].
  split; [reflexivity|]. split; [apply filter_length_le|].
  intros Hm.
  assert (E : length (List.filter nonempty
                        (List.map (localized name_mapping) players))
              = length (List.filter (known name_mapping) players)).
  { apply filter_map_length. intros p. now apply localized_nonempty. }
  split; [now rewrite E|].
  rewrite <- E, filter_split_length. apply length_map.
Qed.

Lemma match_chinese_names_counts_witness :
  snd (match_chinese_names (U := latin1) (F := decimal_text)
         (load_player_names_mapping (U := latin1) (F := decimal_text) [])
         [Str (str "Chris Paul"); NaN; Str (str "Nobody Known")])
  = length
      (List.filter nonempty
         (fst (match_chinese_names (U := latin1) (F := decimal_text)
                 (load_player_names_mapping (U := latin1) (F := decimal_text) [])
                 [Str (str "Chris Paul"); NaN; Str (str "Nobody Known")]))).
Proof.
  exact (proj1 (proj2 (proj2 (proj2 (proj2
           (match_chinese_names_counts latin1 decimal_text
              (load_player_names_mapping (U := latin1) (F := decimal_text) [])
              [Str (str "Chris Paul"); NaN; Str (str "Nobody Known")]))))
           (load_player_names_mapping_ok (U := latin1) (F := decimal_text) []))).
Defined.

(** ** add_chinese_names.py: a row of the data page *)

(** X4: a row of the data page whose slug gives a non-empty key is stored
    under that key whatever the map held for it, every other key is
    untouched, and a player whose name has that key is then given the row's
    localised name; a slug without key leaves the map as it was. *)
Theorem hupu_row_matches
    (U : Unicode) (F : FloatText)
    (m : gmap pystr (pystr * pystr)) (cn_name slug : pystr) :
  let eng := replace_char 45 32 slug in
  let k := normalize_name (Str eng) in
  (nonempty k = false -> hupu_add_row m cn_name slug = m)
  /\ (nonempty k = true ->
      hupu_add_row m cn_name slug !! k = Some (cn_name, eng)
      /\ (forall k', k' <> k -> hupu_add_row m cn_name slug !! k' = m !! k')
      /\ (forall name, normalize_name name = k ->
            match_chinese_names (hupu_add_row m cn_name slug) [name]
            = ([cn_name], 1%nat))).
Proof.
  simpl. unfold hupu_add_row. split.
  - intros H. now rewrite H.
  - intros H. rewrite H. split; [apply lookup_insert_eq|]. split.
    + intros k' Hk'. now apply lookup_insert_ne.
    + intros name Hname. unfold match_chinese_names, match_step.
      cbn [foldl fst snd]. now rewrite Hname, lookup_insert_eq.
Qed.

Lemma hupu_row_matches_witness :
  match_chinese_names (U := latin1) (F := decimal_text)
    (hupu_add_row (U := latin1) (F := decimal_text) ∅ lebron_cn
       (str "lebron-james"))
    [Str (str "LeBron James")]
  = ([lebron_cn], 1%nat).
Proof.
  refine (proj2 (proj2 (proj2 (hupu_row_matches latin1 decimal_text ∅
            lebron_cn (str "lebron-james")) _)) (Str (str "LeBron James")) _).
  - vm_compute. reflexivity.
  - vm_compute. reflexivity.
Defined.

(** ** data_merger.py: the salary map *)

Lemma dict_get_set_eq k v d : dict_get k (dict_set k v d) = Some v.
Proof.
  induction d as [|[k' v'] d IH]; simpl.
  - now rewrite decide_True.
  - destruct (decide (k' = k)) as [->|Hne]; simpl.
    + now rewrite decide_True.
    + now rewrite decide_False.
Qed.

Lemma dict_get_set_ne k k' v d :
  k <> k' -> dict_get k' (dict_set k v d) = dict_get k' d.
Proof.
  intros Hne. induction d as [|[k0 v0] d IH]; simpl.
  - now rewrite decide_False.
  - destruct (decide (k0 = k)) as [->|Hk]; simpl.
    + now rewrite !decide_False.
    + now rewrite IH.
Qed.

Lemma dict_keys_set k v d :
  List.map fst (dict_set k v d)
  = if bool_decide (k ∈ List.map fst d) then List.map fst d
    else List.map fst d ++ [k].
Proof.
  induction d as [|[k0 v0] d IH]; cbn [dict_set List.map fst].
  - rewrite bool_decide_eq_false_2; [reflexivity|apply not_elem_of_nil].
  - destruct (decide (k0 = k)) as [->|Hne]; cbn [List.map fst].
    + rewrite bool_decide_eq_true_2; [reflexivity|apply list_elem_of_here].
    + rewrite IH. case_bool_decide as H1; case_bool_decide as H2;
        try reflexivity.
      * exfalso. apply H2. now apply list_elem_of_further.
      * exfalso. apply elem_of_cons in H2 as [H2|H2]; congruence.
Qed.

Lemma dict_set_values k v d x :
  In x (dict_set k v d) -> x = (k, v) \/ In x d.
Proof.
  induction d as [|[k0 v0] d IH]; simpl.
  - intros [<-|[]]. now left.
  - destruct (decide (k0 = k)) as [->|Hne]; simpl.
    + intros [<-|H]; [now left|right; now right].
    + intros [<-|H]; [right; now left|].
      destruct (IH H) as [->|H']; [now left|right; now right].
Qed.

Lemma dict_keys_NoDup k v d :
  NoDup (List.map fst d) -> NoDup (List.map fst (dict_set k v d)).
Proof.
  intros H. rewrite dict_keys_set. case_bool_decide as Hin; [exact H|].
  apply NoDup_app. split; [exact H|]. split.
  - intros x Hx Hx'. apply list_elem_of_singleton in Hx'. congruence.
  - apply NoDup_singleton.
Qed.

Lemma dict_get_In k v d : dict_get k d = Some v -> In (k, v) d.
Proof.
  induction d as [|[k0 v0] d IH]; [discriminate|]. simpl.
  destruct (decide (k0 = k)) as [->|Hne].
  - intros H. injection H as <-. now left.
  - intros H. right. now apply IH.
Qed.

(** The entry a row of the secondary table contributes, if any. *)
Definition salary_entry (row : list (pystr * cell)) : option (pystr * cell) :=
  match row_get L_match_name (Str []) row with
  | Str k =>
      if nonempty k && negb (falsy (row_get L_Salary (Str []) row))
      then Some (k, row_get L_Salary (Str []) row) else None
  | _ => None
  end.

Lemma salary_map_step_entry m row :
  salary_map_step m row
  = match salary_entry row with
    | Some (k, v) => dict_set k v m
    | None => m
    end.
Proof.
  unfold salary_map_step, salary_entry.
  destruct (row_get L_match_name (Str []) row) as [| |k|x]; simpl;
    try reflexivity.
  - now destruct (negb (falsy (row_get L_Salary (Str []) row))).
  - destruct k; simpl; [reflexivity|].
    now destruct (negb (falsy (row_get L_Salary (Str []) row))).
  - now destruct (negb (PrimFloat.eqb x 0)
                  && negb (falsy (row_get L_Salary (Str []) row))).
Qed.

Definition set_entry (d : list (pystr * cell)) (e : pystr * cell) :=
  dict_set (fst e) (snd e) d.

Lemma salary_map_fold rows m :
  foldl salary_map_step m rows = foldl set_entry m (omap salary_entry rows).
Proof.
  revert m. induction rows as [|row rows IH]; intros m; [reflexivity|].
  cbn [foldl omap list_omap]. rewrite IH, salary_map_step_entry.
  change (omap salary_entry (row :: rows))
    with (match salary_entry row with
          | Some e => e :: omap salary_entry rows
          | None => omap salary_entry rows
          end).
  now destruct (salary_entry row) as [[k v]|].
Qed.

Lemma first_seen_ext s1 s2 l :
  (forall x : pystr, x ∈ s1 <-> x ∈ s2) -> first_seen s1 l = first_seen s2 l.
Proof.
  revert s1 s2. induction l as [|x l IH]; intros s1 s2 H; [reflexivity|].
  simpl. rewrite (bool_decide_ext _ _ (H x)).
  case_bool_decide; [now apply IH|]. f_equal. apply IH.
  intros y. rewrite !elem_of_cons. now rewrite H.
Qed.

Lemma fold_keys entries d :
  List.map fst (foldl set_entry d entries)
  = List.map fst d ++ first_seen (List.map fst d) (List.map fst entries).
Proof.
  revert d. induction entries as [|[k v] entries IH]; intros d.
  - simpl. now rewrite app_nil_r.
  - cbn [foldl List.map fst first_seen]. rewrite IH. unfold set_entry.
    cbn [fst snd]. rewrite dict_keys_set.
    case_bool_decide as Hin; [reflexivity|].
    rewrite <- app_assoc. cbn [app]. f_equal. f_equal.
    apply first_seen_ext. intros x.
    rewrite elem_of_app, !elem_of_cons, elem_of_nil. tauto.
Qed.

Lemma fold_get entries d k :
  dict_get k (foldl set_entry d entries)
  = match last (List.filter (fun e => bool_decide (fst e = k)) entries) with
    | Some e => Some (snd e)
    | None => dict_get k d
    end.
Proof.
  revert d. induction entries as [|[k0 v0] entries IH]; intros d;
    [reflexivity|].
  cbn [foldl List.filter fst]. rewrite IH. unfold set_entry.
  cbn [fst snd]. case_bool_decide as Hk.
  - subst k0. rewrite dict_get_set_eq.
    destruct (List.filter (fun e => bool_decide (fst e = k)) entries)
      as [|e l] eqn:E; [reflexivity|].
    change (last ((k, v0) :: e :: l)) with (last (e :: l)).
    destruct (last (e :: l)) eqn:El; [reflexivity|].
    apply last_None in El. discriminate El.
  - now rewrite dict_get_set_ne.
Qed.

Lemma fold_entries entries d x :
  In x (foldl set_entry d entries) -> In x entries \/ In x d.
Proof.
  revert d. induction entries as [|e entries IH]; intros d; [now right|].
  cbn [foldl]. intros H. destruct (IH _ H) as [H'|H'].
  - left. now right.
  - destruct (dict_set_values _ _ _ _ H') as [->|H''].
    + left. left. now destruct e.
    + now right.
Qed.

Lemma salary_entry_truthy row k v :
  salary_entry row = Some (k, v) -> k <> [] /\ falsy v = false.
Proof.
  unfold salary_entry.
  destruct (row_get L_match_name (Str []) row) as [| |k0|x]; try discriminate.
  destruct (nonempty k0) eqn:Hk; [|discriminate]. simpl.
  destruct (falsy (row_get L_Salary (Str []) row)) eqn:Hv; [discriminate|].
  simpl. intros H. injection H as <- <-. split; [now destruct k0|exact Hv].
Qed.

(** X5: the salary map has every key once, no empty key and no empty or
    otherwise false salary; its keys stand in the order in which the rows
    of the secondary table first bring them, and the salary of a key is the
    one of the last row that brings it. *)
Theorem build_salary_map_shape (espn_df : DataFrame) :
  let entries := omap salary_entry (iterrows espn_df) in
  let salary_map := build_salary_map espn_df in
  NoDup (List.map fst salary_map)
  /\ List.map fst salary_map = first_seen [] (List.map fst entries)
  /\ (forall k,
        dict_get k salary_map
        = option_map snd
            (last (List.filter (fun e => bool_decide (fst e = k)) entries)))
  /\ (forall k v, In (k, v) salary_map ->
        k <> [] /\ falsy v = false /\ v <> Str []).
Proof.
  simpl. unfold build_salary_map. rewrite salary_map_fold.
  split; [|split; [|split]].
  - generalize (omap salary_entry (iterrows espn_df)).
    intros entries.
    assert (H : NoDup (List.map fst ([] : list (pystr * cell))))
      by constructor.
    revert H. generalize ([] : list (pystr * cell)).
    induction entries as [|e entries IH]; intros d Hd; [exact Hd|].
    cbn [foldl]. apply IH. now apply dict_keys_NoDup.
  - now rewrite fold_keys.
  - intros k. rewrite fold_get.
    now destruct (last _).
  - intros k v H. apply fold_entries in H as [H|[]].
    apply list_elem_of_In, list_elem_of_omap in H as (row & _ & Hrow).
    destruct (salary_entry_truthy _ _ _ Hrow) as [Hk Hv].
    split; [exact Hk|]. split; [exact Hv|]. intros ->. discriminate Hv.
Qed.

(** X6: what find_salary returns is the empty text or a salary of the map;
    on an empty map it is the empty text; and when no salary of the map is
    the empty text, as in the map the merge builds, the empty text is
    returned exactly when neither the exact key nor a candidate of the same
    surname and initial is there. *)
Theorem find_salary_result
    (U : Unicode) (F : FloatText)
    (salary_map : list (pystr * cell)) (english_name : cell) :
  let norm_name := merger_normalize_name english_name in
  (find_salary salary_map english_name = Str []
   \/ exists k, In (k, find_salary salary_map english_name) salary_map)
  /\ (salary_map = [] -> find_salary salary_map english_name = Str [])
  /\ ((forall k v, In (k, v) salary_map -> v <> Str []) ->
      (find_salary salary_map english_name = Str [] <->
       dict_get norm_name salary_map = None
       /\ List.find (fun item => surname_initial_match norm_name (fst item))
                    salary_map = None)).
Proof.
  simpl. unfold find_salary. rewrite partial_match_find.
  set (n := merger_normalize_name english_name).
  destruct (dict_get n salary_map) as [v|] eqn:Hget.
  - split; [right; exists n; now apply dict_get_In|].
    split; [intros ->; discriminate Hget|].
    intros Hv. split.
    + intros ->. apply dict_get_In in Hget. now apply Hv in Hget.
    + intros [H _]. discriminate H.
  - destruct (List.find _ salary_map) as [[k v]|] eqn:Hfind.
    + apply List.find_some in Hfind as [Hin _].
      split; [right; now exists k|].
      split; [intros ->; destruct Hin|].
      intros Hv. split.
      * intros ->. now apply Hv in Hin.
      * intros [_ H]. discriminate H.
    + split; [now left|]. split; [reflexivity|]. intros _. now split.
Qed.

Definition espn_two : DataFrame :=
  {| nrows := 3;
     cols := [ (L_match_name,
                [Str (str "lebron james"); Str (str "stephen curry");
                 Str (str "lebron james")]);
               (L_Salary, [Str (str "$1"); Str []; Str (str "$3")]) ] |}.

Example build_salary_map_last_row :
  build_salary_map espn_two = [(str "lebron james", Str (str "$3"))].
Proof. reflexivity. Qed.

Lemma find_salary_result_witness :
  find_salary (U := latin1) (F := decimal_text) [] (Str (str "LeBron James"))
  = Str [].
Proof.
  exact (proj1 (proj2 (find_salary_result latin1 decimal_text []
                         (Str (str "LeBron James")))) eq_refl).
Defined.

(** ** data_merger.py: what the merge does to its arguments *)

Lemma columns_set_column label values df :
  columns (set_column label values df)
  = if bool_decide (label ∈ columns df) then columns df
    else columns df ++ [label].
Proof. unfold columns, set_column. simpl. apply columns_set. Qed.

Lemma columns_drop_column label df :
  columns (drop_column label df)
  = List.filter (fun k => negb (bool_decide (k = label))) (columns df).
Proof. unfold columns, drop_column. simpl. apply columns_drop. Qed.

Lemma filter_without (label : pystr) (l : list pystr) :
  label ∉ l ->
  List.filter (fun k => negb (bool_decide (k = label))) l = l.
Proof.
  intros H. apply filter_all. apply forallb_forall. intros x Hx.
  apply negb_true_iff, bool_decide_eq_false. intros ->.
  apply H. now apply list_elem_of_In.
Qed.

Lemma get_column_Some_in label df vs :
  get_column label df = Some vs -> label ∈ columns df.
Proof.
  intros H. destruct (decide (label ∈ columns df)) as [Hin|Hout]; [exact Hin|].
  apply assoc_get_None in Hout. unfold get_column in H. congruence.
Qed.

(** X7: when both identity columns are there, the frame returned by the
    merge has the rows of the primary frame and its columns in their order
    without the helper column, the salary column standing where it stood or
    else last; the caller's primary frame has been changed in place and
    still carries the helper column and the salary column, and the caller's
    secondary frame carries the helper column with the key of each Name. *)
Theorem merge_roster_with_salary_in_place
    (U : Unicode) (F : FloatText) (hupu_df espn_df : DataFrame)
    (english names : list cell) :
  get_column L_english hupu_df = Some english ->
  get_column L_Name espn_df = Some names ->
  let r := merge_roster_with_salary hupu_df espn_df in
  let keys := List.map (fun v => Str (merger_normalize_name v)) in
  nrows (returned r) = nrows hupu_df
  /\ columns (returned r)
     = List.filter (fun k => negb (bool_decide (k = L_match_name)))
                   (columns hupu_df)
       ++ (if bool_decide (L_salary ∈ columns hupu_df) then [] else [L_salary])
  /\ returned r = drop_column L_match_name (hupu_after r)
  /\ get_column L_match_name (hupu_after r) = Some (keys english)
  /\ get_column L_salary (hupu_after r) = get_column L_salary (returned r)
  /\ espn_after r = set_column L_match_name (keys names) espn_df
  /\ (forall salary, get_column L_salary (returned r) = Some salary ->
        length salary = length english).
Proof.
  intros He Hn. simpl. unfold merge_roster_with_salary. rewrite He, Hn.
  cbn [returned hupu_after espn_after].
  split; [reflexivity|]. split.
  { rewrite columns_drop_column, !columns_set_column.
    assert (Hsm : forall l : list pystr,
              L_salary ∈ l ++ [L_match_name] <-> L_salary ∈ l).
    { intros l. rewrite elem_of_app, list_elem_of_singleton.
      pose proof salary_not_helper. tauto. }
    destruct (decide (L_match_name ∈ columns hupu_df)) as [Hm|Hm].
    - rewrite (bool_decide_eq_true_2 _ Hm).
      destruct (decide (L_salary ∈ columns hupu_df)) as [Hs|Hs].
      + rewrite !(bool_decide_eq_true_2 _ Hs). now rewrite app_nil_r.
      + rewrite !(bool_decide_eq_false_2 _ Hs). rewrite List.filter_app.
        cbn [List.filter].
        rewrite bool_decide_eq_false_2 by apply salary_not_helper.
        reflexivity.
    - rewrite (bool_decide_eq_false_2 _ Hm).
      rewrite (bool_decide_ext _ _ (Hsm (columns hupu_df))).
      destruct (decide (L_salary ∈ columns hupu_df)) as [Hs|Hs].
      + rewrite !(bool_decide_eq_true_2 _ Hs). rewrite List.filter_app.
        cbn [List.filter]. rewrite bool_decide_eq_true_2 by reflexivity.
        cbn [negb]. now rewrite app_nil_r.
      + rewrite !(bool_decide_eq_false_2 _ Hs). rewrite !List.filter_app.
        cbn [List.filter]. rewrite bool_decide_eq_true_2 by reflexivity.
        rewrite bool_decide_eq_false_2 by apply salary_not_helper.
        cbn [negb]. now rewrite app_nil_r. }
  split; [reflexivity|]. split.
  { unfold get_column. simpl.
    rewrite assoc_get_set_ne by apply salary_not_helper.
    apply assoc_get_set_eq. }
  split.
  { unfold get_column. simpl.
    now rewrite assoc_get_drop, decide_False by apply salary_not_helper. }
  split; [reflexivity|].
  intros salary. unfold get_column. simpl.
  rewrite assoc_get_drop, decide_False by apply salary_not_helper.
  rewrite assoc_get_set_eq. intros H. injection H as <-. apply length_map.
Qed.

Lemma merge_roster_with_salary_in_place_witness :
  columns (returned (merge_roster_with_salary (U := latin1) (F := decimal_text)
                       hupu_with_salary espn_one))
  = [L_english; L_salary].
Proof.
  exact (proj1 (proj2 (merge_roster_with_salary_in_place latin1 decimal_text
                         hupu_with_salary espn_one _ _ eq_refl eq_refl))).
Defined.

(** ** data_cleaner.py: rows dropped, names stripped *)

Lemma map_filter_comm {A B} (f : A -> B) (P : B -> bool) (l : list A) :
  List.map f (List.filter (fun a => P (f a)) l) = List.filter P (List.map f l).
Proof.
  induction l as [|a l IH]; [reflexivity|]. simpl.
  destruct (P (f a)); simpl; now rewrite IH.
Qed.

(** X8: dropping the rows without any value keeps the columns, keeps the
    other rows in their order and nothing else. *)
Theorem dropna_all_rows (df : DataFrame) :
  frame_rows (dropna_all df)
  = List.filter (fun row => negb (forallb isna row)) (frame_rows df)
  /\ columns (dropna_all df) = columns df
  /\ (nrows (dropna_all df) <= nrows df)%nat.
Proof.
  unfold dropna_all. split; [|split].
  - rewrite frame_rows_take. unfold frame_rows.
    apply (map_filter_comm (row_values df)
             (fun row => negb (forallb isna row))).
  - apply columns_take.
  - cbn [nrows take_rows]. etransitivity; [apply filter_length_le|].
    now rewrite length_seq.
Qed.

Definition no_lead (s : pystr) : bool :=
  match s with [] => true | c :: _ => negb (is_space c) end.

Lemma lstrip_no_lead s : no_lead (lstrip s) = true.
Proof.
  induction s as [|c s IH]; [reflexivity|]. simpl.
  destruct (is_space c) eqn:E; [exact IH|]. simpl. now rewrite E.
Qed.

Lemma lstrip_id s : no_lead s = true -> lstrip s = s.
Proof.
  destruct s as [|c s]; [reflexivity|]. simpl. intros H.
  apply negb_true_iff in H. now rewrite H.
Qed.

Lemma lstrip_suffix s : exists p, s = p ++ lstrip s.
Proof.
  induction s as [|c s [p IH]]; [now exists []|]. simpl.
  destruct (is_space c).
  - exists (c :: p). simpl. now f_equal.
  - now exists [].
Qed.

Lemma no_lead_app x y : no_lead (x ++ y) = true -> no_lead x = true.
Proof. destruct x; [reflexivity|exact (fun H => H)]. Qed.

Lemma strip_fixed s : strip (strip s) = strip s.
Proof.
  unfold strip. set (a := lstrip s). set (b := lstrip (rev a)).
  assert (Hb : no_lead b = true) by apply lstrip_no_lead.
  assert (Hrb : no_lead (rev b) = true).
  { destruct (lstrip_suffix (rev a)) as [p Hp]. fold b in Hp.
    apply (f_equal (@rev N)) in Hp. rewrite rev_involutive, rev_app_distr in Hp.
    apply (no_lead_app _ (rev p)). rewrite <- Hp. apply lstrip_no_lead. }
  now rewrite (lstrip_id _ Hrb), rev_involutive, (lstrip_id _ Hb).
Qed.

Lemma taken_values (P : cell -> Prop) idx vs v :
  (forall x, In x vs -> P x) -> P NaN ->
  In v (List.map (fun i => nth i vs NaN) idx) -> P v.
Proof.
  intros Hvs Hnan H. apply in_map_iff in H as (i & <- & _).
  destruct (nth_in_or_default i vs NaN) as [Hin| ->]; [now apply Hvs|exact Hnan].
Qed.

Definition stripped (v : cell) : Prop :=
  match v with Str s => strip s = s | _ => True end.

Lemma str_strip_stripped v : stripped (str_strip v).
Proof. destruct v; simpl; try exact I. apply strip_fixed. Qed.

Lemma english_not_player : L_english <> L_player.
Proof. discriminate. Qed.

Lemma get_column_dropna_length label df vs :
  get_column label (dropna_all df) = Some vs -> (length vs <= nrows df)%nat.
Proof.
  unfold dropna_all. rewrite get_column_take.
  destruct (get_column label df) as [vs0|]; [|discriminate].
  cbn [option_map]. intros H.
  assert (Hv : vs = List.map (fun i => nth i vs0 NaN)
                      (List.filter
                         (fun i => negb (forallb isna (row_values df i)))
                         (seq 0 (nrows df)))) by congruence.
  rewrite Hv, length_map. etransitivity; [apply filter_length_le|].
  now rewrite length_seq.
Qed.

(** X9: in what clean_roster returns, no text of the 球员 column and none of
    the 英文名 column begins or ends with whitespace, and there are at most
    as many rows as records. *)
Theorem clean_roster_stripped (data : list record) (df : DataFrame) :
  clean_roster data = Some df ->
  (forall ids s, get_column L_player df = Some ids -> In (Str s) ids ->
                 strip s = s)
  /\ (forall names s, get_column L_english df = Some names ->
                      In (Str s) names -> strip s = s)
  /\ (nrows df <= length data)%nat.
Proof.
  intros H. destruct data as [|r data].
  { injection H as <-. split; [|split]; try (intros ? ? E; discriminate E).
    simpl. lia. }
  rewrite clean_roster_prepared in H by congruence.
  assert (Hall : forall label vs,
            (label = L_player \/ label = L_english) ->
            get_column label (roster_prepared (r :: data)) = Some vs ->
            forall x, In x vs -> stripped x).
  { intros label vs Hl Hvs x Hx. unfold roster_prepared in Hvs.
    destruct Hl as [-> | ->].
    - rewrite get_column_update_ne in Hvs by apply english_not_player.
      rewrite get_column_update_eq in Hvs.
      destruct (get_column L_player
                  (dropna_all (from_records (r :: data)))) as [w|];
        [|discriminate Hvs].
      cbn [option_map] in Hvs. injection Hvs as <-. apply in_map_iff in Hx as (y & <- & _).
      apply str_strip_stripped.
    - rewrite get_column_update_eq in Hvs.
      destruct (get_column L_english
                  (update_column L_player (List.map str_strip)
                     (dropna_all (from_records (r :: data))))) as [w|];
        [|discriminate Hvs].
      cbn [option_map] in Hvs. injection Hvs as <-. apply in_map_iff in Hx as (y & <- & _).
      apply str_strip_stripped. }
  unfold drop_duplicates_subset in H.
  destruct (frame_empty (roster_prepared (r :: data))).
  { injection H as <-. split; [|split].
    - intros ids s Hids Hs.
      exact (Hall L_player ids (or_introl eq_refl) Hids (Str s) Hs).
    - intros names s Hn Hs.
      exact (Hall L_english names (or_intror eq_refl) Hn (Str s) Hs).
    - rewrite roster_prepared_nrows. apply dropna_all_nrows. }
  destruct (get_column L_player (roster_prepared (r :: data))) as [ids0|] eqn:E;
    [|discriminate].
  injection H as <-.
  set (idx := first_rows [] (List.map (fun v => [v]) ids0) 0).
  split; [|split].
  - intros ids s Hids Hs. rewrite get_column_take, E in Hids.
    cbn [option_map] in Hids. injection Hids as <-.
    apply (taken_values stripped idx ids0 (Str s));
      [apply (Hall L_player); [now left|exact E]|exact I|exact Hs].
  - intros names s Hn Hs. rewrite get_column_take in Hn.
    destruct (get_column L_english (roster_prepared (r :: data)))
      as [names0|] eqn:En; [|discriminate].
    cbn [option_map] in Hn. injection Hn as <-.
    apply (taken_values stripped idx names0 (Str s));
      [apply (Hall L_english); [now right|exact En]|exact I|exact Hs].
  - cbn [nrows take_rows]. unfold idx.
    assert (Hlen : forall seen keys i,
              (length (first_rows seen keys i) <= length keys)%nat).
    { intros seen keys. revert seen.
      induction keys as [|k keys IH]; intros seen i; [simpl; lia|].
      simpl. destruct (existsb (row_eqb k) seen); simpl;
        [specialize (IH seen (S i))|specialize (IH (k :: seen) (S i))]; lia. }
    etransitivity; [apply Hlen|]. rewrite length_map.
    unfold roster_prepared in E.
    rewrite get_column_update_ne in E by apply english_not_player.
    rewrite get_column_update_eq in E.
    destruct (get_column L_player (dropna_all (from_records (r :: data))))
      as [vs|] eqn:Ev; [|discriminate E].
    assert (Hids0 : ids0 = List.map str_strip vs)
      by (cbn [option_map] in E; congruence).
    rewrite Hids0, length_map.
    apply (get_column_dropna_length _ _ _ Ev).
Qed.

Definition roster_spaces : list record :=
  [ [(L_player, 32 :: name_a ++ [32]); (L_english, str " LeBron James ")];
    [(L_player, name_a); (L_english, str "L. James")] ].

Lemma clean_roster_stripped_witness :
  match clean_roster roster_spaces with
  | Some df => (nrows df <= 2)%nat
  | None => False
  end.
Proof.
  destruct (clean_roster roster_spaces) as [df|] eqn:E.
  - exact (proj2 (proj2 (clean_roster_stripped roster_spaces df E))).
  - vm_compute in E. discriminate E.
Defined.

Example clean_roster_spaces :
  clean_roster roster_spaces
  = Some {| nrows := 1;
            cols := [ (L_player, [Str name_a]);
                      (L_english, [Str (str "LeBron James")]) ] |}.
Proof. reflexivity. Qed.

(** ** data_cleaner.py: team statistics and standings *)

Lemma first_rows_length seen keys i :
  (length (first_rows seen keys i) <= length keys)%nat.
Proof.
  revert seen i. induction keys as [|k keys IH]; intros seen i; [simpl; lia|].
  simpl. destruct (existsb (row_eqb k) seen); simpl;
    [specialize (IH seen (S i))|specialize (IH (k :: seen) (S i))]; lia.
Qed.

Lemma drop_duplicates_shape df :
  columns (drop_duplicates df) = columns df
  /\ (nrows (drop_duplicates df) <= nrows df)%nat.
Proof.
  unfold drop_duplicates. split; [apply columns_take|].
  cbn [nrows take_rows]. etransitivity; [apply first_rows_length|].
  unfold frame_rows. now rewrite length_map, length_seq.
Qed.

Section Conversions.
Context {P : PandasNumeric}.

Lemma to_Int64_shape label df df' :
  to_Int64 label df = Some df' ->
  columns df' = columns df /\ nrows df' = nrows df.
Proof.
  unfold to_Int64. destruct (get_column label df) as [vs|] eqn:E.
  - destruct (astype_Int64 (to_numeric vs)) as [vs'|]; [|discriminate].
    intros H. injection H as <-. split; [|reflexivity].
    rewrite columns_set_column.
    now rewrite (bool_decide_eq_true_2 _ (get_column_Some_in _ _ _ E)).
  - intros H. injection H as <-. now split.
Qed.

Lemma to_Int64_absent label df :
  has_column label df = false -> to_Int64 label df = Some df.
Proof.
  intros H. apply has_column_get in H. unfold to_Int64. now rewrite H.
Qed.

Lemma numeric_shape cols0 df :
  columns (foldl (fun df col => update_column col to_numeric df) df cols0)
  = columns df
  /\ nrows (foldl (fun df col => update_column col to_numeric df) df cols0)
     = nrows df.
Proof.
  revert df. induction cols0 as [|c cols0 IH]; intros df; [now split|].
  simpl. destruct (IH (update_column c to_numeric df)) as [-> ->].
  now rewrite columns_update, nrows_update.
Qed.
End Conversions.

Lemma team_stats_tail {P : PandasNumeric} df0 df :
  match to_Int64 L_rank
          (foldl (fun df col => update_column col to_numeric df) df0
                 team_numeric_cols) with
  | Some d => Some (drop_duplicates d)
  | None => None
  end = Some df ->
  no_equal_rows df /\ columns df = columns df0
  /\ (nrows df <= nrows df0)%nat.
Proof.
  destruct (numeric_shape team_numeric_cols df0) as [Hc0 Hn0].
  destruct (to_Int64 L_rank _) as [df1|] eqn:E1; [|discriminate].
  intros H. injection H as <-. apply to_Int64_shape in E1 as [Hc1 Hn1].
  destruct (drop_duplicates_shape df1) as [Hc2 Hn2].
  split; [apply drop_duplicates_no_equal_rows|]. split; [congruence|lia].
Qed.

Lemma standings_tail {F : FloatText} {P : PandasNumeric} df0 df :
  match to_Int64 L_wins df0 with
  | None => None
  | Some d1 =>
      match to_Int64 L_losses d1 with
      | None => None
      | Some d2 =>
          match to_Int64 L_rank d2 with
          | None => None
          | Some d3 =>
              Some (drop_duplicates
                      (update_column L_win_rate apply_parse_percentage d3))
          end
      end
  end = Some df ->
  no_equal_rows df /\ columns df = columns df0
  /\ (nrows df <= nrows df0)%nat.
Proof.
  destruct (to_Int64 L_wins df0) as [d1|] eqn:E1; [|discriminate].
  destruct (to_Int64 L_losses d1) as [d2|] eqn:E2; [|discriminate].
  destruct (to_Int64 L_rank d2) as [d3|] eqn:E3; [|discriminate].
  intros H. injection H as <-.
  apply to_Int64_shape in E1 as [Hc1 Hn1], E2 as [Hc2 Hn2], E3 as [Hc3 Hn3].
  match goal with
  | |- context [drop_duplicates ?d] =>
      destruct (drop_duplicates_shape d) as [Hc4 Hn4]
  end.
  rewrite columns_update in Hc4. rewrite nrows_update in Hn4.
  split; [apply drop_duplicates_no_equal_rows|]. split; [congruence|lia].
Qed.

(** X10: clean_team_stats and clean_standings return an empty frame for an
    empty list; what they return has no row equal to a row above it, the
    columns of the records in the order of their first appearance and at
    most as many rows as there are records; and they return a frame
    whenever the columns cast to integers are absent. *)
Theorem clean_tables_deduplicate (F : FloatText) (P : PandasNumeric) :
  clean_team_stats [] = Some empty_frame
  /\ clean_standings [] = Some empty_frame
  /\ (forall data df,
        clean_team_stats data = Some df \/ clean_standings data = Some df ->
        no_equal_rows df
        /\ (data <> [] -> columns df = columns (from_records data))
        /\ (nrows df <= length data)%nat)
  /\ (forall data,
        has_column L_rank (from_records data) = false ->
        is_Some (clean_team_stats data))
  /\ (forall data,
        has_column L_rank (from_records data) = false ->
        has_column L_wins (from_records data) = false ->
        has_column L_losses (from_records data) = false ->
        is_Some (clean_standings data)).
Proof.
  split; [reflexivity|]. split; [reflexivity|].
  split; [|split].
  - intros data df H. destruct data as [|r data].
    { assert (df = empty_frame) as ->
        by (destruct H as [H|H]; now injection H).
      split; [apply no_equal_rows_empty|]. split; [congruence|simpl; lia]. }
    destruct (dropna_all_rows (from_records (r :: data))) as (_ & Hc & Hn).
    change (nrows (from_records (r :: data))) with (length (r :: data)) in Hn.
    unfold clean_team_stats, clean_standings in H.
    set (df0 := dropna_all (from_records (r :: data))) in *.
    set (cs := columns (from_records (r :: data))) in *.
    set (n := length (r :: data)) in *.
    clearbody df0 cs n. destruct H as [H|H].
    + apply team_stats_tail in H as (H1 & H2 & H3).
      split; [exact H1|]. split; [intros _; congruence|lia].
    + apply standings_tail in H as (H1 & H2 & H3).
      split; [exact H1|]. split; [intros _; congruence|lia].
  - intros data H. destruct data as [|r data]; [now eexists|].
    destruct (dropna_all_rows (from_records (r :: data))) as (_ & Hc & _).
    unfold clean_team_stats.
    set (df0 := dropna_all (from_records (r :: data))) in *.
    rewrite <- (has_column_columns L_rank _ _ Hc) in H.
    clearbody df0. clear Hc r data.
    rewrite to_Int64_absent; [now eexists|].
    rewrite <- H. apply has_column_columns.
    now destruct (numeric_shape team_numeric_cols df0) as [-> _].
  - intros data Hr Hw Hl. destruct data as [|r data]; [now eexists|].
    destruct (dropna_all_rows (from_records (r :: data))) as (_ & Hc & _).
    unfold clean_standings.
    set (df0 := dropna_all (from_records (r :: data))) in *.
    rewrite <- (has_column_columns L_rank _ _ Hc) in Hr.
    rewrite <- (has_column_columns L_wins _ _ Hc) in Hw.
    rewrite <- (has_column_columns L_losses _ _ Hc) in Hl.
    clearbody df0. clear Hc r data.
    rewrite (to_Int64_absent L_wins _ Hw).
    rewrite (to_Int64_absent L_losses _ Hl).
    rewrite (to_Int64_absent L_rank _ Hr).
    now eexists.
Qed.

Definition standings_twice : list record :=
  [ [(L_player, name_a); (L_win_rate, str "61.0%")];
    [(L_player, name_a); (L_win_rate, str "61%")];
    [(L_player, name_b); (L_win_rate, str ".5")] ].

Example clean_standings_twice :
  option_map nrows
    (clean_standings (F := decimal_text) (P := decimal_numeric)
       standings_twice) = Some 2%nat.
Proof. vm_compute. reflexivity. Qed.

Lemma clean_tables_deduplicate_witness :
  is_Some (clean_standings (F := decimal_text) (P := decimal_numeric)
             standings_twice).
Proof.
  exact (proj2 (proj2 (proj2 (proj2
           (clean_tables_deduplicate decimal_text decimal_numeric))))
           standings_twice eq_refl eq_refl eq_refl).
Defined.

(** ** nba_crawler/request_handler.py: what a call can do *)

Lemma retry_stop server url remaining attempt :
  failed (server attempt) = false ->
  snd (retry_loop server url (S remaining) attempt) = [Dispatch url]
  /\ (forall r, fst (retry_loop server url (S remaining) attempt)
                = Got (Some r) <->
                server attempt = Responded r /\ status_code r = 200%Z).
Proof.
  intros H. simpl.
  destruct (retry_loop server url remaining (S attempt)) as [res trace].
  destruct (server attempt) as [r0| | | |]; try discriminate.
  - simpl in H. apply negb_false_iff in H. rewrite H. simpl.
    split; [reflexivity|]. intros r. split.
    + intros E. injection E as <-. split; [reflexivity|].
      now apply Z.eqb_eq.
    + intros [E _]. now injection E as <-.
  - simpl. split; [reflexivity|]. intros r. split; [discriminate|].
    intros [E _]. discriminate E.
Qed.

Lemma failed_not_success (server : nat -> attempt_outcome) k r :
  failed (server k) = true -> server k = Responded r ->
  status_code r = 200%Z -> False.
Proof.
  intros Hf Hr Hs. rewrite Hr in Hf. simpl in Hf. rewrite Hs in Hf.
  discriminate Hf.
Qed.

(** X11: a call returns a response exactly when one of its first three
    attempts, every earlier one having failed, is answered with status 200,
    and then it returns that response; get_html gives the text of that
    response in the same case and no text otherwise. *)
Theorem get_returns_first_200 (server : nat -> attempt_outcome) (url : pystr) :
  (forall r,
     fst (get server url) = Got (Some r) <->
     exists k, (k < 3)%nat /\ server k = Responded r
               /\ status_code r = 200%Z
               /\ forall j, (j < k)%nat -> failed (server j) = true)
  /\ (forall t,
        fst (get_html server url) = Page (Some t) <->
        exists k r, (k < 3)%nat /\ server k = Responded r
                    /\ status_code r = 200%Z /\ text r = t
                    /\ forall j, (j < k)%nat -> failed (server j) = true).
Proof.
  assert (Hget : forall r,
     fst (get server url) = Got (Some r) <->
     exists k, (k < 3)%nat /\ server k = Responded r
               /\ status_code r = 200%Z
               /\ forall j, (j < k)%nat -> failed (server j) = true).
  { intros r. unfold get. change MAX_RETRIES with 3%nat.
    set (u := resolve_url url).
    destruct (failed (server 0%nat)) eqn:F0.
    2:{ destruct (retry_stop server u 2 0 F0) as [_ H]. rewrite H. split.
        - intros [H1 H2]. exists 0%nat. repeat split; [lia|exact H1|exact H2|].
          intros j Hj. lia.
        - intros (k & Hk & H1 & H2 & Hall). destruct k as [|k]; [now split|].
          rewrite (Hall 0%nat) in F0 by lia. discriminate F0. }
    rewrite (retry_again _ _ _ _ F0). cbn [fst].
    destruct (failed (server 1%nat)) eqn:F1.
    2:{ destruct (retry_stop server u 1 1 F1) as [_ H]. rewrite H. split.
        - intros [H1 H2]. exists 1%nat. repeat split; [lia|exact H1|exact H2|].
          intros j Hj. assert (j = 0%nat) as -> by lia. exact F0.
        - intros (k & Hk & H1 & H2 & Hall).
          destruct k as [|[|k]]; [|now split|].
          + destruct (failed_not_success _ _ _ F0 H1 H2).
          + rewrite (Hall 1%nat) in F1 by lia. discriminate F1. }
    rewrite (retry_again _ _ _ _ F1). cbn [fst].
    destruct (failed (server 2%nat)) eqn:F2.
    2:{ destruct (retry_stop server u 0 2 F2) as [_ H]. rewrite H. split.
        - intros [H1 H2]. exists 2%nat. repeat split; [lia|exact H1|exact H2|].
          intros j Hj. destruct j as [|[|j]]; [exact F0|exact F1|lia].
        - intros (k & Hk & H1 & H2 & Hall).
          destruct k as [|[|[|k]]]; [| |now split|lia].
          + destruct (failed_not_success _ _ _ F0 H1 H2).
          + destruct (failed_not_success _ _ _ F1 H1 H2). }
    rewrite (retry_again _ _ _ _ F2). cbn [fst retry_loop]. split.
    - discriminate.
    - intros (k & Hk & H1 & H2 & Hall).
      destruct k as [|[|[|k]]]; [| | |lia].
      + destruct (failed_not_success _ _ _ F0 H1 H2).
      + destruct (failed_not_success _ _ _ F1 H1 H2).
      + destruct (failed_not_success _ _ _ F2 H1 H2). }
  split; [exact Hget|].
  intros t. unfold get_html.
  destruct (get server url) as [[[r|]|] trace] eqn:E; cbn [fst] in *.
  - destruct (proj1 (Hget r) eq_refl) as (k & Hk & H1 & H2 & Hall).
    assert (Hok : response_ok r = true).
    { unfold response_ok. rewrite H2. reflexivity. }
    rewrite Hok. cbn [fst]. split.
    + intros Ht. injection Ht as <-. now exists k, r.
    + intros (k' & r' & Hk' & H1' & H2' & Ht & Hall').
      assert (Hr' : Got (Some r) = Got (Some r')).
      { apply Hget. now exists k'. }
      injection Hr' as <-. now rewrite Ht.
  - split; [discriminate|].
    intros (k' & r' & Hk' & H1' & H2' & Ht & Hall').
    assert (Hr' : Got None = Got (Some r')).
    { apply Hget. now exists k'. }
    discriminate Hr'.
  - split; [discriminate|].
    intros (k' & r' & Hk' & H1' & H2' & Ht & Hall').
    assert (Hr' : Escaped = Got (Some r')).
    { apply Hget. now exists k'. }
    discriminate Hr'.
Qed.

Definition second_try (k : nat) : attempt_outcome :=
  match k with
  | 0%nat => Responded {| status_code := 404; text := str "no" |}
  | _ => Responded {| status_code := 200; text := str "page" |}
  end.

Lemma get_returns_first_200_witness :
  fst (get_html second_try (str "/standings")) = Page (Some (str "page")).
Proof.
  apply (proj2 (get_returns_first_200 second_try (str "/standings"))).
  exists 1%nat, {| status_code := 200; text := str "page" |}.
  repeat split; [lia|].
  intros j Hj. assert (j = 0%nat) as -> by lia. reflexivity.
Defined.

(** ** nba_crawler/request_handler.py: how a call ends *)

(** What the loop returns at an attempt it does not retry. *)
Definition stop_result (o : attempt_outcome) : get_result :=
  match o with
  | Responded r => Got (Some r)
  | _ => Escaped
  end.

Lemma retry_stop_result server url remaining attempt :
  failed (server attempt) = false ->
  retry_loop server url (S remaining) attempt
  = (stop_result (server attempt), [Dispatch url]).
Proof.
  intros H. simpl.
  destruct (retry_loop server url remaining (S attempt)) as [res trace].
  destruct (server attempt) as [r0| | | |]; try discriminate.
  - simpl in H. apply negb_false_iff in H. now rewrite H.
  - reflexivity.
Qed.

Lemma stop_result_escaped o :
  failed o = false -> (stop_result o = Escaped <-> o = OtherException).
Proof.
  destruct o; simpl; intros H; try discriminate; split; try discriminate;
    reflexivity.
Qed.

Lemma stop_result_not_none o : failed o = false -> stop_result o <> Got None.
Proof. destruct o; simpl; intros H; discriminate. Qed.

Lemma failed_not_other o : failed o = true -> o <> OtherException.
Proof. destruct o; simpl; intros H; discriminate. Qed.

Lemma get_cases (server : nat -> attempt_outcome) (url : pystr) :
  let u := resolve_url url in
  (failed (server 0%nat) = false
   /\ get server url = (stop_result (server 0%nat), [Dispatch u]))
  \/ (failed (server 0%nat) = true /\ failed (server 1%nat) = false
      /\ get server url
         = (stop_result (server 1%nat), [Dispatch u; Sleep 2; Dispatch u]))
  \/ (failed (server 0%nat) = true /\ failed (server 1%nat) = true
      /\ failed (server 2%nat) = false
      /\ get server url
         = (stop_result (server 2%nat),
            [Dispatch u; Sleep 2; Dispatch u; Sleep 4; Dispatch u]))
  \/ (failed (server 0%nat) = true /\ failed (server 1%nat) = true
      /\ failed (server 2%nat) = true
      /\ get server url
         = (Got None, [Dispatch u; Sleep 2; Dispatch u; Sleep 4; Dispatch u])).
Proof.
  intros u. unfold get. change MAX_RETRIES with 3%nat. fold u.
  destruct (failed (server 0%nat)) eqn:F0.
  2:{ left. split; [reflexivity|]. now apply retry_stop_result. }
  right. rewrite (retry_again _ _ _ _ F0).
  destruct (failed (server 1%nat)) eqn:F1.
  2:{ left. repeat split. now rewrite (retry_stop_result _ _ _ _ F1). }
  right. rewrite (retry_again _ _ _ _ F1).
  destruct (failed (server 2%nat)) eqn:F2.
  2:{ left. repeat split. now rewrite (retry_stop_result _ _ _ _ F2). }
  right. repeat split. now rewrite (retry_again _ _ _ _ F2).
Qed.

Lemma startswith_app (p s : pystr) : startswith p (p ++ s) = true.
Proof.
  induction p as [|c p IH]; [reflexivity|]. simpl.
  now rewrite N.eqb_refl, IH.
Qed.

Lemma resolve_url_http (url : pystr) :
  startswith (str "http") (resolve_url url) = true.
Proof.
  unfold resolve_url. destruct (startswith (str "http") url) eqn:E.
  - exact E.
  - reflexivity.
Qed.

(** From its first dispatch on: the address asked for starts with http and
    is resolved once; the dispatches and sleeps have one of three shapes;
    the number of dispatches, the escape of an exception and the return of
    None are told by the attempts that failed. *)
Lemma retry_ends (server : nat -> attempt_outcome) (url : pystr) :
  let u := resolve_url url in
  let trace := snd (get server url) in
  startswith (str "http") u = true
  /\ resolve_url u = u
  /\ (trace = [Dispatch u]
      \/ trace = [Dispatch u; Sleep 2; Dispatch u]
      \/ trace = [Dispatch u; Sleep 2; Dispatch u; Sleep 4; Dispatch u])
  /\ (slept trace <= 6)%nat
  /\ (forall n, (n < 3)%nat ->
        ((n < dispatches trace)%nat <->
         forall j, (j < n)%nat -> failed (server j) = true))
  /\ (fst (get server url) = Escaped <->
      exists k, (k < 3)%nat /\ server k = OtherException
                /\ forall j, (j < k)%nat -> failed (server j) = true)
  /\ (fst (get server url) = Got None <->
      forall j, (j < 3)%nat -> failed (server j) = true)
  /\ snd (get_html server url) = trace.
Proof.
  intros u trace.
  assert (Hu : startswith (str "http") u = true) by apply resolve_url_http.
  split; [exact Hu|].
  split; [unfold resolve_url at 1; now rewrite Hu|].
  assert (Hhtml : snd (get_html server url) = trace).
  { unfold trace, get_html.
    now destruct (get server url) as [[[r|]|] t]. }
  subst trace.
  destruct (get_cases server url) as
    [(F0 & E)|[(F0 & F1 & E)|[(F0 & F1 & F2 & E)|(F0 & F1 & F2 & E)]]];
    fold u in E; rewrite Hhtml, E; cbn [fst snd].
  - split; [now left|]. split; [vm_compute; lia|]. split; [|split; [|split]].
    + intros n Hn. change (dispatches [Dispatch u]) with 1%nat. split.
      * intros H j Hj. lia.
      * intros H. destruct n as [|n]; [lia|].
        rewrite (H 0%nat) in F0 by lia. discriminate F0.
    + rewrite (stop_result_escaped _ F0). split.
      * intros H. exists 0%nat. repeat split; [lia|exact H|]. intros j Hj. lia.
      * intros (k & Hk & H & Hall). destruct k as [|k]; [exact H|].
        rewrite (Hall 0%nat) in F0 by lia. discriminate F0.
    + split.
      * intros H. destruct (stop_result_not_none _ F0 H).
      * intros H. rewrite (H 0%nat) in F0 by lia. discriminate F0.
    + reflexivity.
  - split; [right; now left|]. split; [vm_compute; lia|].
    split; [|split; [|split]].
    + intros n Hn.
      change (dispatches [Dispatch u; Sleep 2; Dispatch u]) with 2%nat. split.
      * intros H j Hj. assert (j = 0%nat) as -> by lia. exact F0.
      * intros H. destruct n as [|[|n]]; [lia|lia|].
        rewrite (H 1%nat) in F1 by lia. discriminate F1.
    + rewrite (stop_result_escaped _ F1). split.
      * intros H. exists 1%nat. repeat split; [lia|exact H|]. intros j Hj.
        assert (j = 0%nat) as -> by lia. exact F0.
      * intros (k & Hk & H & Hall). destruct k as [|[|k]]; [|exact H|].
        -- destruct (failed_not_other _ F0 H).
        -- rewrite (Hall 1%nat) in F1 by lia. discriminate F1.
    + split.
      * intros H. destruct (stop_result_not_none _ F1 H).
      * intros H. rewrite (H 1%nat) in F1 by lia. discriminate F1.
    + reflexivity.
  - split; [right; now right|]. split; [vm_compute; lia|].
    split; [|split; [|split]].
    + intros n Hn.
      change (dispatches [Dispatch u; Sleep 2; Dispatch u; Sleep 4; Dispatch u])
        with 3%nat. split.
      * intros H j Hj. destruct j as [|[|j]]; [exact F0|exact F1|lia].
      * intros H. lia.
    + rewrite (stop_result_escaped _ F2). split.
      * intros H. exists 2%nat. repeat split; [lia|exact H|]. intros j Hj.
        destruct j as [|[|j]]; [exact F0|exact F1|lia].
      * intros (k & Hk & H & Hall). destruct k as [|[|[|k]]]; [| |exact H|lia].
        -- destruct (failed_not_other _ F0 H).
        -- destruct (failed_not_other _ F1 H).
    + split.
      * intros H. destruct (stop_result_not_none _ F2 H).
      * intros H. rewrite (H 2%nat) in F2 by lia. discriminate F2.
    + reflexivity.
  - split; [right; now right|]. split; [vm_compute; lia|].
    split; [|split; [|split]].
    + intros n Hn.
      change (dispatches [Dispatch u; Sleep 2; Dispatch u; Sleep 4; Dispatch u])
        with 3%nat. split.
      * intros H j Hj. destruct j as [|[|j]]; [exact F0|exact F1|lia].
      * intros H. lia.
    + split; [discriminate|].
      intros (k & Hk & H & Hall). destruct k as [|[|[|k]]]; [| | |lia].
      * destruct (failed_not_other _ F0 H).
      * destruct (failed_not_other _ F1 H).
      * destruct (failed_not_other _ F2 H).
    + split; [|reflexivity].
      intros _ j Hj. destruct j as [|[|[|j]]]; [exact F0|exact F1|exact F2|lia].
    + reflexivity.
Qed.

Lemma dispatches_again url (b : bool) n trace :
  dispatches (Dispatch url :: (if b then [Sleep n] else []) ++ trace)
  = S (dispatches trace).
Proof. now destruct b. Qed.

Lemma paced_loop_retry server clock url remaining attempt last :
  fst (paced_loop server clock url remaining attempt last)
  = retry_loop server url remaining attempt.
Proof.
  revert attempt last.
  induction remaining as [|n IH]; intros attempt last; [reflexivity|].
  cbn [paced_loop retry_loop].
  pose proof (IH (S attempt) last) as IH1.
  pose proof (IH (S attempt) (clock attempt)) as IH2.
  destruct (retry_loop server url n (S attempt)) as [r0 t0].
  destruct (paced_loop server clock url n (S attempt) last) as [[r1 t1] l1].
  destruct (paced_loop server clock url n (S attempt) (clock attempt))
    as [[r2 t2] l2].
  cbn [fst] in IH1, IH2. injection IH1 as -> ->. injection IH2 as -> ->.
  destruct (server attempt) as [r| | | |]; try reflexivity.
  now destruct (status_code r =? 200)%Z.
Qed.

Lemma paced_loop_last server clock url remaining attempt last :
  snd (paced_loop server clock url remaining attempt last)
  = last_answer server clock attempt
      (dispatches (snd (retry_loop server url remaining attempt))) last.
Proof.
  revert attempt last.
  induction remaining as [|n IH]; intros attempt last; [reflexivity|].
  cbn [paced_loop retry_loop].
  pose proof (IH (S attempt) last) as IH1.
  pose proof (IH (S attempt) (clock attempt)) as IH2.
  destruct (retry_loop server url n (S attempt)) as [r0 t0].
  destruct (paced_loop server clock url n (S attempt) last) as [[r1 t1] l1].
  destruct (paced_loop server clock url n (S attempt) (clock attempt))
    as [[r2 t2] l2].
  cbn [snd] in IH1, IH2. subst l1 l2.
  assert (H1 : dispatches [Dispatch url] = 1%nat) by reflexivity.
  destruct (server attempt) as [r| | | |] eqn:E;
    [destruct (status_code r =? 200)%Z| | | |];
    cbn [snd]; rewrite ?dispatches_again, ?H1; cbn [last_answer];
    rewrite ?E; reflexivity.
Qed.

(** X12: how a call ends.  The address asked for starts with http, and
    resolving it again changes nothing.  Before its first dispatch the call
    sleeps at most once, exactly when the clock reads less than
    REQUEST_DELAY past the last answer, and then for what is left of the
    delay.  From the first dispatch on it does what [get] says: its
    dispatches and sleeps are one dispatch, or a dispatch, 2 seconds and a
    dispatch, or these followed by 4 seconds and a third dispatch, all to
    that address, so after a dispatch it sleeps at most 6 seconds in all
    and never after the last one; it makes more than [n] dispatches
    exactly when the first [n] attempts all failed; an exception that is
    not a requests exception leaves the call at the first attempt that
    raises one after failures only; None is returned exactly when three
    attempts failed.  The handler then holds the clock reading of the last
    attempt that was answered, whatever its status, or the reading it held
    when none was.  get_html makes the same call and gives the text of the
    response. *)
Theorem get_ends (last_request_time now : float) (clock : nat -> float)
    (server : nat -> attempt_outcome) (url : pystr) :
  let u := resolve_url url in
  let c := RequestHandler_get last_request_time now clock server url in
  let elapsed := PrimFloat.sub now last_request_time in
  startswith (str "http") u = true
  /\ resolve_url u = u
  /\ (forall d, pacing c = Some d <->
                PrimFloat.ltb elapsed REQUEST_DELAY = true
                /\ d = PrimFloat.sub REQUEST_DELAY elapsed)
  /\ (outcome c, events c) = get server url
  /\ (events c = [Dispatch u]
      \/ events c = [Dispatch u; Sleep 2; Dispatch u]
      \/ events c = [Dispatch u; Sleep 2; Dispatch u; Sleep 4; Dispatch u])
  /\ (slept (events c) <= 6)%nat
  /\ (forall n, (n < 3)%nat ->
        ((n < dispatches (events c))%nat <->
         forall j, (j < n)%nat -> failed (server j) = true))
  /\ (outcome c = Escaped <->
      exists k, (k < 3)%nat /\ server k = OtherException
                /\ forall j, (j < k)%nat -> failed (server j) = true)
  /\ (outcome c = Got None <->
      forall j, (j < 3)%nat -> failed (server j) = true)
  /\ last_request_time_after c
     = last_answer server clock 0 (dispatches (events c)) last_request_time
  /\ RequestHandler_get_html last_request_time now clock server url
     = (fst (get_html server url), c).
Proof.
  intros u c elapsed.
  assert (Hc : (outcome c, events c) = get server url
               /\ last_request_time_after c
                  = last_answer server clock 0 (dispatches (events c))
                      last_request_time
               /\ pacing c = _wait_for_delay last_request_time now).
  { subst c. unfold RequestHandler_get, get.
    pose proof (paced_loop_retry server clock (resolve_url url) MAX_RETRIES 0
                  last_request_time) as H1.
    pose proof (paced_loop_last server clock (resolve_url url) MAX_RETRIES 0
                  last_request_time) as H2.
    destruct (paced_loop server clock (resolve_url url) MAX_RETRIES 0
                last_request_time) as [[r t] l].
    cbn [fst snd] in H1, H2. cbn [outcome events last_request_time_after pacing].
    rewrite <- H1 in H2. cbn [snd] in H2. now repeat split. }
  destruct Hc as (Hget & Hlast & Hpace).
  pose proof (retry_ends server url) as H. cbv zeta in H. fold u in H.
  rewrite <- Hget in H. cbn [fst snd] in H.
  destruct H as (H1 & H2 & H3 & H4 & H5 & H6 & H7 & H8).
  split; [exact H1|]. split; [exact H2|]. split.
  { intros d. rewrite Hpace. unfold _wait_for_delay. fold elapsed.
    destruct (PrimFloat.ltb elapsed REQUEST_DELAY).
    - split; [intros E; injection E as <-; now split|].
      intros [_ ->]. reflexivity.
    - split; [discriminate|]. intros [E _]. discriminate E. }
  split; [exact Hget|]. split; [exact H3|]. split; [exact H4|].
  split; [exact H5|]. split; [exact H6|]. split; [exact H7|].
  split; [exact Hlast|].
  unfold RequestHandler_get_html. fold c. f_equal.
  unfold get_html. rewrite <- Hget.
  now destruct (outcome c) as [[r|]|].
Qed.

(** A time-out, then an exception the loop does not catch, on a handler
    that was last answered half a second before. *)
Definition breaks (k : nat) : attempt_outcome :=
  match k with
  | 0%nat => Timeout
  | _ => OtherException
  end.

Lemma get_ends_witness :
  pacing (RequestHandler_get 100 100.5 (fun _ => 101%float) breaks
            (str "/teams")) = Some 1%float.
Proof.
  apply (proj1 (proj2 (proj2
           (get_ends 100 100.5 (fun _ => 101%float) breaks (str "/teams"))))).
  split; reflexivity.
Defined.

(** ** data_merger.py: integrating one team *)

Lemma record_get_In (label : pystr) (r : record) (v : pystr) :
  record_get label r = Some v -> In (label, v) r.
Proof.
  induction r as [|[k w] r IH]; simpl; [discriminate|].
  destruct (decide (k = label)) as [->|Hne].
  - intros H. injection H as ->. now left.
  - intros H. right. now apply IH.
Qed.

Lemma hupu_codes_nonempty (team_name : pystr) :
  record_get team_name HUPU_TO_ESPN <> Some [].
Proof.
  intros H. apply record_get_In in H.
  assert (Hall : forallb (fun p : pystr * pystr =>
                            match snd p with [] => false | _ => true end)
                         HUPU_TO_ESPN = true) by (vm_compute; reflexivity).
  rewrite forallb_forall in Hall. specialize (Hall _ H). discriminate Hall.
Qed.

Section MergedFrame.
Context {U : Unicode} {F : FloatText}.
Variables hupu_df espn_df : DataFrame.

Lemma merge_nrows :
  nrows (returned (merge_roster_with_salary hupu_df espn_df)) = nrows hupu_df.
Proof.
  unfold merge_roster_with_salary.
  destruct (get_column L_english hupu_df); [|reflexivity].
  destruct (get_column L_Name espn_df); reflexivity.
Qed.

Lemma merge_other_columns label :
  label <> L_match_name -> label <> L_salary ->
  get_column label (returned (merge_roster_with_salary hupu_df espn_df))
  = get_column label hupu_df.
Proof.
  intros H1 H2. unfold merge_roster_with_salary.
  destruct (get_column L_english hupu_df); [|reflexivity].
  destruct (get_column L_Name espn_df); cbn [returned];
    unfold get_column, drop_column, set_column; cbn [cols].
  - rewrite assoc_get_drop, decide_False by exact H1.
    rewrite assoc_get_set_ne by congruence.
    now rewrite assoc_get_set_ne by congruence.
  - now rewrite assoc_get_set_ne by congruence.
Qed.

Lemma merge_salary_column :
  has_column L_salary (returned (merge_roster_with_salary hupu_df espn_df))
  = has_column L_salary hupu_df
    || (has_column L_english hupu_df && has_column L_Name espn_df).
Proof.
  assert (Hhas : forall label df,
            has_column label df
            = match get_column label df with Some _ => true | None => false end).
  { intros label df. destruct (get_column label df) eqn:E.
    - destruct (has_column label df) eqn:E'; [reflexivity|].
      apply has_column_get in E'. congruence.
    - now apply has_column_get. }
  rewrite !Hhas. unfold merge_roster_with_salary.
  destruct (get_column L_english hupu_df) as [english|].
  2:{ cbn [returned andb]. now rewrite orb_false_r. }
  destruct (get_column L_Name espn_df) as [names|]; cbn [returned andb];
    unfold get_column, drop_column, set_column; cbn [cols].
  - rewrite assoc_get_drop, decide_False by apply salary_not_helper.
    rewrite assoc_get_set_eq. now rewrite orb_true_r.
  - rewrite assoc_get_set_ne by (symmetry; apply salary_not_helper).
    now rewrite orb_false_r.
Qed.

End MergedFrame.

(** X13: what integrating one team gives.  None is returned exactly when the
    team is not in the table or its roster file does not exist.  For a team
    of the table whose file is read, with what the ESPN crawl returned: from
    an empty crawl the frame read is returned as it is; from a crawl with
    records the call raises KeyError exactly when the file has no 薪资 column
    and either it has no 英文名 column or no ESPN record has a Name, it
    raises nothing else, and a frame it returns has the rows of the file, a
    薪资 column, and every column other than 薪资 and _match_name as read. *)
Theorem integrate_team_roster_outcome
    (U : Unicode) (F : FloatText) (R : CsvReader) (rosters : pystr)
    (fs : gmap pystr (list N))
    (espn_roster : pystr -> pystr -> option (list record))
    (team_name season : pystr) :
  let hupu_file := path_join rosters (roster_file_name team_name season) in
  let result := integrate_team_roster rosters fs espn_roster team_name season in
  (result = Integrated None <->
   record_get team_name HUPU_TO_ESPN = None \/ fs !! hupu_file = None)
  /\ (forall espn_code content hupu_df espn_data,
        record_get team_name HUPU_TO_ESPN = Some espn_code ->
        fs !! hupu_file = Some content ->
        read_csv content = Some hupu_df ->
        espn_roster espn_code season = Some espn_data ->
        (espn_data = [] -> result = Integrated (Some hupu_df))
        /\ (espn_data <> [] ->
            (result = IntegrateRaised KeyError <->
             has_column L_salary hupu_df = false
             /\ (has_column L_english hupu_df = false
                 \/ has_column L_Name (from_records espn_data) = false))
            /\ (forall e, result = IntegrateRaised e -> e = KeyError)
            /\ (forall df, result = Integrated df ->
                  exists merged_df,
                    df = Some merged_df
                    /\ nrows merged_df = nrows hupu_df
                    /\ has_column L_salary merged_df = true
                    /\ forall label,
                         label <> L_match_name -> label <> L_salary ->
                         get_column label merged_df
                         = get_column label hupu_df))).
Proof.
  intros hupu_file result. split.
  - subst result. unfold integrate_team_roster. fold hupu_file.
    destruct (record_get team_name HUPU_TO_ESPN) as [[|c code]|] eqn:Ht.
    + destruct (hupu_codes_nonempty _ Ht).
    + destruct (fs !! hupu_file) as [content|] eqn:Hf.
      2:{ split; [now right|reflexivity]. }
      split; [|intros [H|H]; discriminate H].
      destruct (read_csv content) as [hupu_df|]; [|discriminate].
      destruct (espn_roster (c :: code) season) as [[|r data]|];
        try discriminate.
      destruct (get_column L_salary _); discriminate.
    + split; [now left|reflexivity].
  - intros espn_code content hupu_df espn_data Ht Hf Hr He.
    subst result. unfold integrate_team_roster. fold hupu_file.
    rewrite Ht. destruct espn_code as [|c code];
      [destruct (hupu_codes_nonempty _ Ht)|].
    rewrite Hf, Hr, He. split.
    + intros ->. reflexivity.
    + intros Hne. destruct espn_data as [|r data]; [congruence|].
      set (espn_df := from_records (r :: data)). cbn zeta.
      set (merged_df := returned (merge_roster_with_salary hupu_df espn_df)).
      assert (Hs := merge_salary_column hupu_df espn_df). fold merged_df in Hs.
      destruct (get_column L_salary merged_df) as [salaries|] eqn:Hcol.
      * assert (Hm : has_column L_salary merged_df = true).
        { destruct (has_column L_salary merged_df) eqn:E; [reflexivity|].
          apply has_column_get in E. congruence. }
        split; [|split].
        -- split; [discriminate|]. intros [H1 H2]. rewrite Hm, H1 in Hs.
           destruct H2 as [H2|H2]; rewrite H2 in Hs; cbn in Hs;
             rewrite ?andb_false_r in Hs; discriminate Hs.
        -- intros e H. discriminate H.
        -- intros df H. injection H as <-. exists merged_df.
           repeat split; [apply merge_nrows|exact Hm|].
           intros label H1 H2. now apply merge_other_columns.
      * apply has_column_get in Hcol. rewrite Hcol in Hs. symmetry in Hs.
        apply orb_false_iff in Hs as [H1 H2]. apply andb_false_iff in H2.
        split; [|split].
        -- split; [intros _; split; assumption|reflexivity].
        -- intros e H. now injection H as <-.
        -- intros df H. discriminate H.
Qed.

(** A roster file of the Lakers without 英文名 and 薪资 columns, a reader
    that knows this file only, and an ESPN crawl whose records have no
    Name. *)
Definition lakers : pystr := [27931; 26441; 30710; 28246; 20154].
Definition lakers_frame : DataFrame :=
  {| nrows := 1; cols := [(L_player, [Str [35449; 22982; 26031]])] |}.
Definition lakers_csv : list N :=
  [65279; 29699; 21592; 10; 35449; 22982; 26031; 10].
Definition lakers_reader : CsvReader :=
  {| read_csv := fun content =>
       if bool_decide (content = lakers_csv) then Some lakers_frame else None |}.
Definition lakers_files : gmap pystr (list N) :=
  {[ path_join (str "output/rosters")
       (roster_file_name lakers (str "2024-25")) := lakers_csv ]}.
Definition espn_no_name (code season : pystr) : option (list record) :=
  Some [[(str "POS", str "G")]].

Lemma integrate_team_roster_outcome_witness :
  integrate_team_roster (U := latin1) (F := decimal_text) (R := lakers_reader)
    (str "output/rosters") lakers_files espn_no_name lakers (str "2024-25")
  = IntegrateRaised KeyError.
Proof.
  refine (proj2 (proj1 (proj2
            (proj2 (integrate_team_roster_outcome latin1 decimal_text
                      lakers_reader (str "output/rosters") lakers_files
                      espn_no_name lakers (str "2024-25"))
               (str "lal") lakers_csv lakers_frame [[(str "POS", str "G")]]
               _ _ _ _) _)) _).
  - vm_compute. reflexivity.
  - apply lookup_singleton_eq.
  - vm_compute. reflexivity.
  - reflexivity.
  - discriminate.
  - split; [vm_compute; reflexivity|left; vm_compute; reflexivity].
Defined.
